(** * Convolutional Restricted Boltzmann Machine (code/conv_rbm.py)

    The class [CRBM] of conv_rbm.py does not compute numbers: every method
    builds nodes of a Theano computation graph.  The embedding therefore has
    two layers.

    - The graph layer.  Theano expressions are an inductive type [expr]; the
      methods of [CRBM] are functions that build [expr] values.  They run in
      a small state-and-exception monad [M] over a store of Theano variable
      objects: a method reads the store when Theano checks the type of an
      operand, extends it when it creates a variable or draws from the
      random stream, and raises what Python or Theano raises.
    - The tensor layer.  A denotation [eval] of the deterministic feed-forward
      nodes (convolution, dimshuffle, broadcasting addition, softplus, sums,
      dot), over a carrier of scalars that is a parameter of the section, used
      for the statements about shapes and about the value of the free energy.

    Theano and numpy are external to the repository.  Of the checks that
    Theano makes while a node is built, those that an argument of a method
    can fail are modelled: the ones of [conv.conv2d] (the channel numbers of
    the declared shapes, the size of the output, four-dimensional operands),
    of [dimshuffle] and of [TT.sum].  The number of dimensions of a graph is
    [ndim_of].  Subscripts, elementwise operators and [TT.dot] are applied in
    conv_rbm.py to operands that the earlier checks leave with enough
    dimensions, and their constructors are total.  Element types and
    broadcast patterns of variables are not modelled: every tensor has the
    configured float type and variables have no broadcastable dimension.  The
    shape rules of the tensor layer follow the comments of conv_rbm.py and
    the documentation of [theano.tensor.nnet.conv.conv2d]. *)

From stdpp Require Import gmap strings list.
From Stdlib Require Import ZArith Lia.

Local Open Scope Z_scope.

(** ** Python exceptions and results *)

Inductive pyerr : Type :=
| AssertionError
| AttributeError
| ValueError
| TypeError
| Exception.       (* raised as [Exception(...)] itself *)

Inductive result (A : Type) : Type :=
| Ok (a : A)
| Raise (e : pyerr).

Arguments Ok {A} a.
Arguments Raise {A} e.

(** ** numpy values *)

(** Scalars computed by numpy while the constructor runs.  They are kept
    symbolic: [NpDec m e] is the float written [m * 10^e] in the source. *)
Inductive npscalar : Type :=
| NpInt (z : Z)
| NpDec (m e : Z)
| NpAdd (a b : npscalar)
| NpDiv (a b : npscalar)
| NpNeg (a : npscalar)
| NpSqrt (a : npscalar).

Inductive dtype : Type :=
| floatX        (* theano.config.floatX *)
| int64.

Record ndarray : Type := mk_ndarray {
  np_dtype : dtype;
  np_shape : list Z;
  np_data : list npscalar
}.

(** [numpy.zeros(shape, dtype)] for a one-dimensional shape [(n,)]: numpy
    refuses a negative dimension with ValueError. *)
Definition np_zeros (n : Z) (dt : dtype) : result ndarray :=
  if decide (n < 0) then Raise ValueError
  else Ok (mk_ndarray dt [n] (replicate (Z.to_nat n) (NpDec 0 0))).

(** numpy holds the Python ints of a shape as 64-bit integers, and its
    integer arithmetic wraps around. *)
Definition int64_wrap (z : Z) : Z := (z + 2 ^ 63) mod 2 ^ 64 - 2 ^ 63.

(** [numpy.prod] of a list of Python ints. *)
Definition np_prod (l : list Z) : Z :=
  foldr (fun a acc => int64_wrap (a * acc)) 1 l.

(** A [numpy.random.RandomState]: only [uniform] is called.  The generator is
    an oracle from the bounds and the size to the array it returns (or the
    exception it raises). *)
Record RandomState : Type := {
  uniform : npscalar -> npscalar -> list Z -> result ndarray
}.

(** ** Theano graphs *)

(** filter_shape and image_shape: tuples of four Python ints. *)
Definition shape4 : Type := Z * Z * Z * Z.

Definition sh0 (s : shape4) : Z := s.1.1.1.
Definition sh1 (s : shape4) : Z := s.1.1.2.
Definition sh2 (s : shape4) : Z := s.1.2.
Definition sh3 (s : shape4) : Z := s.2.

Definition shape4_list (s : shape4) : list Z := [sh0 s; sh1 s; sh2 s; sh3 s].

Inductive border_mode : Type := valid | full.

(** One entry of a dimshuffle pattern: ['x'] or an axis of the argument. *)
Inductive dim_spec : Type :=
| DX
| DAxis (n : nat).

(** One entry of a subscript: [:], [::-1], a Python int, or a Theano
    variable used as an index. *)
Inductive index : Type :=
| IAll
| IRev
| IInt (z : Z)
| IVar (id : positive).

(** The results of a scan: the sequence of the values of the output at a
    position, or the final state of a shared variable that the step function
    updates. *)
Inductive scan_result : Type :=
| SOut (pos : nat)
| SShared (id : positive).

(** The nodes of a graph.  Theano variables are objects and a graph refers
    to them by identity ([Var]).  [IntConst z] is a Python int and
    [DecConst m e] the Python float written [m * 10^e].  [Binomial] is a draw
    from the random stream whose state is the variable [stream].
    [Grad cost wrt consider_constant] is one component of [TT.grad].

    [Scan n_steps args initial outs feedback r] is a result of the scan node
    that [theano.scan] builds when it has traced its step function once:
    [args] are the variables that stood for the arguments of the step
    function, [outs] the graphs that it returned, [initial] the initial values
    of the arguments and [feedback] the positions of the outputs that are fed
    back as the arguments of the next step. *)
#[warnings="-register-all"]
Inductive expr : Type :=
| Var (id : positive)
| IntConst (z : Z)
| DecConst (m e : Z)
| Conv2d (input filters : expr) (filter_shape image_shape : shape4)
         (mode : border_mode)
| DimShuffle (e : expr) (pattern : list dim_spec)
| Subtensor (e : expr) (idx : list index)
| SetSubtensor (e : expr) (idx : list index) (v : expr)
| Add (a b : expr)
| Sub (a b : expr)
| Mul (a b : expr)
| Mod (a b : expr)
| Neg (a : expr)
| Softplus (a : expr)
| Sigmoid (a : expr)
| Log (a : expr)
| Round (a : expr)
| Sum (a : expr) (axes : list nat)
| Mean (a : expr)
| Dot (a b : expr)
| Shape (a : expr)
| Cast (a : expr) (dt : dtype)
| Binomial (stream : positive) (size : expr) (n : Z) (p : expr) (dt : dtype)
| ShapePadleft (a : expr)
| Unbroadcast (a : expr) (axis : nat)
| Scan (n_steps : nat) (args : list positive) (initial : list expr)
       (outs : list expr) (feedback : list nat) (r : scan_result)
| Grad (cost : expr) (wrt : positive) (consider_constant : list expr).

(** The objects behind variable identities.  A tensor variable has a name
    and a number of dimensions; a shared variable holds an array.  A variable
    that was given no name has the empty name. *)
Inductive vobj : Type :=
| TensorVariable (name : string) (ndim : nat)
| SharedVariable (name : string) (value : ndarray)
| RandomStateVariable (seed : Z).

(** A [theano.tensor.shared_randomstreams.RandomStreams] object. *)
Record RandomStreams : Type := { rs_seed : Z }.

(** *** The number of dimensions of a graph

    Theano gives every variable a type when it builds it; of the type, the
    number of dimensions is what the checks below look at.  [None]: not a
    tensor. *)

Definition var_ndim (o : vobj) : option nat :=
  match o with
  | TensorVariable _ n => Some n
  | SharedVariable _ v => Some (length (np_shape v))
  | RandomStateVariable _ => None
  end.

(** An index that is a number removes the axis; a slice keeps it. *)
Definition drops_axis (i : index) : bool :=
  match i with
  | IInt _ | IVar _ => true
  | IAll | IRev => false
  end.

Definition in_axes (axes : list nat) (pos : nat) : bool :=
  existsb (Nat.eqb pos) axes.

(** The axes among [0, ..., n - 1] that a reduction over [axes] keeps. *)
Definition kept_axes (n : nat) (axes : list nat) : list nat :=
  filter (fun i => in_axes axes i = false) (seq 0 n).

Definition dot_ndim (na nb : nat) : nat :=
  match na, nb with
  | O, _ => nb
  | _, O => na
  | _, _ => na + nb - 2
  end.

Fixpoint ndim_of (s : gmap positive vobj) (e : expr) : option nat :=
  match e with
  | Var id => s !! id ≫= var_ndim
  | IntConst _ | DecConst _ _ => Some 0%nat
  | Conv2d _ _ _ _ _ => Some 4%nat
  | DimShuffle a pattern =>
      match ndim_of s a with
      | Some _ => Some (length pattern)
      | None => None
      end
  | Subtensor a idx =>
      match ndim_of s a with
      | Some n =>
          if (length idx <=? n)%nat
          then Some (n - length (filter (fun i => drops_axis i = true) idx))%nat
          else None
      | None => None
      end
  | SetSubtensor a _ _ => ndim_of s a
  | Add a b | Sub a b | Mul a b | Mod a b =>
      match ndim_of s a, ndim_of s b with
      | Some na, Some nb => Some (Nat.max na nb)
      | _, _ => None
      end
  | Neg a | Softplus a | Sigmoid a | Log a | Round a | Cast a _
  | Unbroadcast a _ => ndim_of s a
  | Sum a axes =>
      match ndim_of s a with
      | Some n => Some (length (kept_axes n axes))
      | None => None
      end
  | Mean a =>
      match ndim_of s a with
      | Some _ => Some 0%nat
      | None => None
      end
  | Dot a b =>
      match ndim_of s a, ndim_of s b with
      | Some na, Some nb => Some (dot_ndim na nb)
      | _, _ => None
      end
  | Shape a =>
      match ndim_of s a with
      | Some _ => Some 1%nat
      | None => None
      end
  | Binomial _ size _ _ _ =>
      (* the length of [size]; in conv_rbm.py, the shape of a graph *)
      match size with
      | Shape a => ndim_of s a
      | _ => None
      end
  | ShapePadleft a => S <$> ndim_of s a
  | Scan _ _ _ outs _ r =>
      match r with
      | SOut pos =>
          S <$> (fix nth (l : list expr) (i : nat) {struct l} : option nat :=
                   match l, i with
                   | [], _ => None
                   | o :: _, O => ndim_of s o
                   | _ :: l', S i' => nth l' i'
                   end) outs pos
      | SShared _ => None
      end
  | Grad _ wrt _ => s !! wrt ≫= var_ndim
  end.

(** The random streams that a graph draws from. *)
Fixpoint streams (e : expr) : gset positive :=
  match e with
  | Var _ | IntConst _ | DecConst _ _ => ∅
  | Binomial st size _ p _ => {[st]} ∪ streams size ∪ streams p
  | Conv2d a b _ _ _ | Add a b | Sub a b | Mul a b | Mod a b | Dot a b
  | SetSubtensor a _ b => streams a ∪ streams b
  | DimShuffle a _ | Subtensor a _ | Neg a | Softplus a | Sigmoid a | Log a
  | Round a | Sum a _ | Mean a | Shape a | Cast a _ | ShapePadleft a
  | Unbroadcast a _ => streams a
  | Scan _ _ initial outs _ _ =>
      ⋃ (streams <$> initial) ∪ ⋃ (streams <$> outs)
  | Grad c _ cc => streams c ∪ ⋃ (streams <$> cc)
  end.

(** ** The monad of graph construction *)

Definition M (A : Type) : Type :=
  gmap positive vobj -> result (A * gmap positive vobj).

Definition ret {A} (a : A) : M A := fun s => Ok (a, s).

Definition raise {A} (e : pyerr) : M A := fun _ => Raise e.

Definition bind {A B} (m : M A) (k : A -> M B) : M B :=
  fun s => match m s with
           | Ok (a, s') => k a s'
           | Raise e => Raise e
           end.

Definition lift {A} (r : result A) : M A :=
  fun s => match r with
           | Ok a => Ok (a, s)
           | Raise e => Raise e
           end.

Notation "x <- m ;; k" := (bind m (fun x => k))
  (at level 100, m at next level, right associativity).

(** A new object gets an identity that no object of the store has. *)
Definition alloc (o : vobj) : M positive :=
  fun s => let id := fresh (dom s) in Ok (id, <[id := o]> s).

(** [TT.matrix(name)] *)
Definition TT_matrix (name : string) : M expr :=
  id <- alloc (TensorVariable name 2) ;; ret (Var id).

(** [theano.shared(value=..., name=...)] *)
Definition theano_shared (value : ndarray) (name : string) : M positive :=
  alloc (SharedVariable name value).

(** [rng.binomial(size, n, p, dtype)]: a RandomStreams object creates a new
    random-state variable for the draw and returns the node of the draw. *)
Definition binomial (rng : RandomStreams) (size : expr) (n : Z) (p : expr)
    (dt : dtype) : M expr :=
  st <- alloc (RandomStateVariable (rs_seed rng)) ;;
  ret (Binomial st size n p dt).

(** [TT.grad(cost, wrt, consider_constant)]: one gradient per variable of
    [wrt], in the same order. *)
Definition TT_grad (cost : expr) (wrt : list positive)
    (consider_constant : list expr) : list expr :=
  map (fun p => Grad cost p consider_constant) wrt.

(** [seq[-1]] on a result of [theano.scan]. *)
Definition last_step (seq : expr) : expr := Subtensor seq [IInt (-1)].

(** *** conv.conv2d

    The size of the output of a convolution along one axis. *)
Definition out_size (mode : border_mode) (n fn : Z) : Z :=
  match mode with
  | valid => n - fn + 1
  | full => n + fn - 1
  end.

(** [conv.conv2d(input, filters, filter_shape, image_shape, border_mode)].
    With both shapes given, conv2d asserts that they agree on the number of
    input feature maps; the operator that it creates refuses with
    [Exception] an output that would have no row or no column (in mode
    [valid], a filter that does not fit inside the image); applying the
    operator raises TypeError unless the images and the filters are both
    four-dimensional tensors. *)
Definition conv_conv2d (input filters : expr) (filter_shape image_shape : shape4)
    (border_mode : border_mode) : M expr :=
  fun s =>
    if decide (sh1 image_shape = sh1 filter_shape) then
      if decide (0 < out_size border_mode (sh2 image_shape) (sh2 filter_shape)
                 /\ 0 < out_size border_mode (sh3 image_shape)
                                 (sh3 filter_shape))
      then
        if decide (ndim_of s input = Some 4%nat
                   /\ ndim_of s filters = Some 4%nat)
        then Ok (Conv2d input filters filter_shape image_shape border_mode, s)
        else Raise TypeError
      else Raise Exception
    else Raise AssertionError.

(** *** dimshuffle

    The axes of the argument that a pattern names. *)
Definition pattern_axes (pattern : list dim_spec) : list nat :=
  omap (fun p => match p with DAxis i => Some i | DX => None end) pattern.

(** A pattern is accepted for an argument of [n] dimensions, none of them
    broadcastable, when it names axes of the argument, each of them once. *)
Definition dimshuffle_ok (n : nat) (pattern : list dim_spec) : bool :=
  forallb (fun i => (i <? n)%nat) (pattern_axes pattern)
  && bool_decide (NoDup (pattern_axes pattern))
  && forallb (fun i => bool_decide (i ∈ pattern_axes pattern)) (seq 0 n).

(** [e.dimshuffle(pattern)]: ValueError for a pattern that is not accepted;
    an object that is not a tensor has no such method. *)
Definition TT_dimshuffle (e : expr) (pattern : list dim_spec) : M expr :=
  fun s =>
    match ndim_of s e with
    | Some n =>
        if dimshuffle_ok n pattern then Ok (DimShuffle e pattern, s)
        else Raise ValueError
    | None => Raise AttributeError
    end.

(** [TT.sum(a, axis=axes)]: ValueError when the argument has too few
    dimensions for one of the axes. *)
Definition TT_sum (a : expr) (axes : list nat) : M expr :=
  fun s =>
    match ndim_of s a with
    | Some n =>
        if forallb (fun i => (i <? n)%nat) axes then Ok (Sum a axes, s)
        else Raise ValueError
    | None => Raise TypeError
    end.

(** *** theano.scan

    [theano.scan(fn, outputs_info, n_steps)].  The entries of [outputs_info]
    that are not [None] are the initial values of the arguments of [fn], and
    the outputs at their positions are fed back as the arguments of the next
    step.

    Scan creates, for every argument, a new variable of the type of its
    initial value.  For one step it builds no loop: it applies [fn] to the
    initial values, gives every output a leading axis of length one, and
    returns no updates.  Otherwise it applies [fn] to the new variables, once
    whatever the number of steps, and wraps the graphs that [fn] returned in
    a scan node; it returns the sequences of the outputs and, for every
    random stream that these graphs draw from, the state of the stream after
    the loop. *)

Definition initial_state (outputs_info : list (option expr)) : list expr :=
  omap id outputs_info.

(** The positions of the outputs that are fed back. *)
Definition feedback_positions (outputs_info : list (option expr)) : list nat :=
  omap (fun x => match x.2 with Some _ => Some x.1 | None => None end)
       (zip (seq 0 (length outputs_info)) outputs_info).

Definition var_name (s : gmap positive vobj) (e : expr) : string :=
  match e with
  | Var id =>
      match s !! id with
      | Some (TensorVariable n _) | Some (SharedVariable n _) => n
      | _ => EmptyString
      end
  | _ => EmptyString
  end.

(** The variable that stands for an argument of the step function: it has
    the type of the initial value and, when that has a name, its name
    followed by [[t-1]]. *)
Definition scan_argument (initial : expr) : M positive :=
  fun s =>
    match ndim_of s initial with
    | Some n =>
        let name := var_name s initial in
        alloc (TensorVariable (if decide (name = EmptyString)
                               then EmptyString
                               else name +:+ "[t-1]") n) s
    | None => Raise TypeError
    end.

Fixpoint for_each {A B} (f : A -> M B) (l : list A) : M (list B) :=
  match l with
  | [] => ret []
  | a :: l' => b <- f a ;; bs <- for_each f l' ;; ret (b :: bs)
  end.

Definition scan_updates_of (node : scan_result -> expr) (outs : list expr)
    : gmap positive expr :=
  set_to_map (fun st => (st, node (SShared st))) (⋃ (streams <$> outs)).

Definition theano_scan (fn : list expr -> M (list expr))
    (outputs_info : list (option expr)) (n_steps : nat)
    : M (list expr * gmap positive expr) :=
  let initial := initial_state outputs_info in
  args <- for_each scan_argument initial ;;
  if decide (n_steps = 1%nat) then
    outs <- fn initial ;;
    if decide (length outs = length outputs_info) then
      ret ((fun o => Unbroadcast (ShapePadleft o) 0%nat) <$> outs, ∅)
    else raise ValueError
  else
    outs <- fn (Var <$> args) ;;
    if decide (length outs = length outputs_info) then
      let node := Scan n_steps args initial outs
                    (feedback_positions outputs_info) in
      ret ((fun i => node (SOut i)) <$> seq 0 (length outs),
           scan_updates_of node outs)
    else raise ValueError.

(** ** class CRBM *)

Record CRBM : Type := mk_CRBM {
  input : expr;
  W : positive;
  hbias : positive;
  vbias : positive;
  FS : shape4;
  IS : shape4;
  FSinv : shape4;
  ISinv : shape4;
  theano_rng : option RandomStreams;
  params : list positive
}.

(** [numpy.asarray(a, dtype=dt)] *)
Definition np_asarray (a : ndarray) (dt : dtype) : ndarray :=
  mk_ndarray dt (np_shape a) (np_data a).

(** The bound of the initial weights,
    [numpy.sqrt(6. / fan_in + fan_out)]; [fan_in] and [fan_out] are 64-bit
    integers of numpy. *)
Definition W_bound (FS : shape4) : npscalar :=
  let fan_in := np_prod [sh1 FS; sh2 FS; sh3 FS] in
  let fan_out := int64_wrap (sh0 FS * np_prod [sh2 FS; sh3 FS]) in
  NpSqrt (NpAdd (NpDiv (NpDec 6 0) (NpInt fan_in)) (NpInt fan_out)).

(** [CRBM.__init__].  [input], [W], [hbias], [vbias], [numpy_rng] and
    [theano_rng] default to [None]; [W], [hbias] and [vbias], when given, are
    shared variables.  In a condition [None] is false and a Theano variable is
    true, so [if not input] and [if persistent] are matches on the option. *)
Definition __init__ (input : option expr) (FS IS : shape4)
    (W hbias vbias : option positive) (numpy_rng : option RandomState)
    (theano_rng : option RandomStreams) : M CRBM :=
  if decide (sh1 IS = sh1 FS) then
    input' <- match input with           (* if not input: *)
              | None => TT_matrix "input"
              | Some i => ret i
              end ;;
    W' <- match W with
          | None =>
              let W_bound := W_bound FS in
              match numpy_rng with
              | None => raise AttributeError
              | Some g =>
                  u <- lift (uniform g (NpNeg W_bound) W_bound
                                     (shape4_list FS)) ;;
                  theano_shared (np_asarray u floatX) "W"
              end
          | Some w => ret w
          end ;;
    hbias' <- match hbias with
              | None =>
                  z <- lift (np_zeros (sh0 FS) floatX) ;;
                  theano_shared z "hbias"
              | Some b => ret b
              end ;;
    vbias' <- match vbias with
              | None =>
                  z <- lift (np_zeros (sh1 FS) floatX) ;;
                  theano_shared z "vbias"
              | Some b => ret b
              end ;;
    ret {| input := input';
           W := W';
           hbias := hbias';
           vbias := vbias';
           FS := FS;
           IS := IS;
           FSinv := (sh1 FS, sh0 FS, sh2 FS, sh3 FS);
           ISinv := (sh0 IS, sh0 FS, sh2 IS - sh2 FS + 1, sh3 IS - sh3 FS + 1);
           theano_rng := theano_rng;
           params := [W'; hbias'; vbias'] |}
  else raise AssertionError.

(** *** Attribute lookup *)

Inductive pyval : Type :=
| PyExpr (e : expr)
| PyShared (id : positive)
| PyTuple (t : shape4)
| PyList (l : list positive)
| PyRandomStreams (r : option RandomStreams)
| PyMethod (name : string).

(** The instance dictionary: the attributes that [__init__] assigns. *)
Definition instance_dict (self : CRBM) : gmap string pyval :=
  list_to_map
    [("input", PyExpr (input self)); ("W", PyShared (W self));
     ("hbias", PyShared (hbias self)); ("vbias", PyShared (vbias self));
     ("FS", PyTuple (FS self)); ("IS", PyTuple (IS self));
     ("FSinv", PyTuple (FSinv self)); ("ISinv", PyTuple (ISinv self));
     ("theano_rng", PyRandomStreams (theano_rng self));
     ("params", PyList (params self))].

(** The names that the class body defines. *)
Definition class_dict : gmap string pyval :=
  list_to_map
    ((fun n => (n, PyMethod n)) <$>
     ["__init__"; "conv_upward"; "conv_downward"; "free_energy"; "propdown";
      "propup"; "sample_h_given_v"; "sample_v_given_h"; "gibbs_hvh";
      "gibbs_vhv"; "get_cost_updates"; "get_pseudo_likelihood_cost";
      "get_reconstruction_cost"]).

(** [self.name]: the instance dictionary, then the class; AttributeError
    when neither has the name. *)
Definition getattr (self : CRBM) (name : string) : result pyval :=
  match instance_dict self !! name with
  | Some v => Ok v
  | None =>
      match class_dict !! name with
      | Some v => Ok v
      | None => Raise AttributeError
      end
  end.

(** A Python value used as an operand of a Theano operator. *)
Definition as_tensor_variable (v : pyval) : result expr :=
  match v with
  | PyExpr e => Ok e
  | PyShared id => Ok (Var id)
  | _ => Raise TypeError
  end.

(** *** Propagation *)

Definition conv_upward (self : CRBM) (v_sample : expr) : M expr :=
  c <- conv_conv2d v_sample (Var (W self)) (FS self) (IS self) valid ;;
  b <- TT_dimshuffle (Var (hbias self)) [DX; DAxis 0; DX; DX] ;;
  let pre_sigm_h := Add c b in
  ret pre_sigm_h.

(** The filters are an argument of the call of conv2d, so that they are
    shuffled and reversed before conv2d runs. *)
Definition conv_downward (self : CRBM) (h_sample : expr) : M expr :=
  w <- TT_dimshuffle (Var (W self)) [DAxis 1; DAxis 0; DAxis 2; DAxis 3] ;;
  c <- conv_conv2d h_sample (Subtensor w [IAll; IAll; IRev; IRev])
         (FSinv self) (ISinv self) full ;;
  b <- TT_dimshuffle (Var (vbias self)) [DX; DAxis 0; DX; DX] ;;
  let pre_sigm_v := Add c b in
  ret pre_sigm_v.

Definition free_energy (self : CRBM) (v_sample : expr) : M expr :=
  wx_b <- conv_upward self v_sample ;;
  hidden_term <- TT_sum (Softplus wx_b) [1; 2; 3]%nat ;;
  sv <- TT_sum v_sample [2; 3]%nat ;;
  let vbias_term := Dot sv (Var (vbias self)) in
  ret (Sub (Neg hidden_term) vbias_term).

Definition propdown (self : CRBM) (hid : expr) : M (expr * expr) :=
  pre_sigm_v <- conv_downward self hid ;;
  ret (pre_sigm_v, Sigmoid pre_sigm_v).

Definition propup (self : CRBM) (vis : expr) : M (expr * expr) :=
  pre_sigm_h <- conv_upward self vis ;;
  ret (pre_sigm_h, Sigmoid pre_sigm_h).

(** *** Sampling *)

(** [self.theano_rng.binomial]: the attribute [binomial] of [None] does not
    exist. *)
Definition theano_rng_binomial (self : CRBM) (size : expr) (n : Z) (p : expr)
    (dt : dtype) : M expr :=
  match theano_rng self with
  | None => raise AttributeError
  | Some rng => binomial rng size n p dt
  end.

Definition sample_h_given_v (self : CRBM) (v0_sample : expr)
    : M (expr * expr * expr) :=
  pu <- propup self v0_sample ;;
  let '(pre_sigm_h1, h1_mean) := pu in
  h1_sample <- theano_rng_binomial self (Shape h1_mean) 1 h1_mean floatX ;;
  ret (pre_sigm_h1, h1_mean, h1_sample).

Definition sample_v_given_h (self : CRBM) (h0_sample : expr)
    : M (expr * expr * expr) :=
  pd <- propdown self h0_sample ;;
  let '(pre_sigm_v1, v1_mean) := pd in
  v1_sample <- theano_rng_binomial self (Shape v1_mean) 1 v1_mean floatX ;;
  ret (pre_sigm_v1, v1_mean, v1_sample).

Definition gibbs_hvh (self : CRBM) (h0_sample : expr) : M (list expr) :=
  r1 <- sample_v_given_h self h0_sample ;;
  let '(pre_sigmoid_v1, v1_mean, v1_sample) := r1 in
  r2 <- sample_h_given_v self v1_sample ;;
  let '(pre_sigmoid_h1, h1_mean, h1_sample) := r2 in
  ret [pre_sigmoid_v1; v1_mean; v1_sample;
       pre_sigmoid_h1; h1_mean; h1_sample].

Definition gibbs_vhv (self : CRBM) (v0_sample : expr) : M (list expr) :=
  r1 <- sample_h_given_v self v0_sample ;;
  let '(pre_sigmoid_h1, h1_mean, h1_sample) := r1 in
  r2 <- sample_v_given_h self h1_sample ;;
  let '(pre_sigmoid_v1, v1_mean, v1_sample) := r2 in
  ret [pre_sigmoid_h1; h1_mean; h1_sample;
       pre_sigmoid_v1; v1_mean; v1_sample].

(** A method of one argument as the step function of [theano.scan]. *)
Definition unary (f : expr -> M (list expr)) (args : list expr)
    : M (list expr) :=
  match args with
  | [a] => f a
  | _ => raise TypeError
  end.

(** *** Monitoring costs *)

(** The method writes into the dictionary [updates] of its caller; here the
    dictionary is passed in and passed back. *)
Definition get_pseudo_likelihood_cost (self : CRBM)
    (updates : gmap positive expr) : M (expr * gmap positive expr) :=
  bit_i_idx <- theano_shared (mk_ndarray int64 [] [NpInt 0]) "bit_i_idx" ;;
  let xi := Round (input self) in
  fe_xi <- free_energy self xi ;;
  let xi_flip :=
    SetSubtensor xi [IAll; IVar bit_i_idx]
      (Sub (IntConst 1) (Subtensor xi [IAll; IVar bit_i_idx])) in
  fe_xi_flip <- free_energy self xi_flip ;;
  n_visible <- lift (getattr self "n_visible") ;;
  n_visible <- lift (as_tensor_variable n_visible) ;;
  let cost := Mean (Mul n_visible (Log (Sigmoid (Sub fe_xi_flip fe_xi)))) in
  n_visible' <- lift (getattr self "n_visible") ;;
  n_visible' <- lift (as_tensor_variable n_visible') ;;
  let updates :=
    <[bit_i_idx := Mod (Add (Var bit_i_idx) (IntConst 1)) n_visible']>
      updates in
  ret (cost, updates).

Definition get_reconstruction_cost (self : CRBM)
    (updates : gmap positive expr) (pre_sigmoid_nv : expr) : M expr :=
  s <- TT_sum (Add (Mul (input self) (Log (Sigmoid pre_sigmoid_nv)))
                   (Mul (Sub (IntConst 1) (input self))
                        (Log (Sub (IntConst 1) (Sigmoid pre_sigmoid_nv)))))
              [1; 2; 3]%nat ;;
  let ce := Mean s in
  ret ce.

(** *** One step of CD-k or PCD-k *)

(** The loop over [zip(gparams, self.params)]. *)
Definition param_updates (lr : expr) (gparams : list expr)
    (params : list positive) (updates : gmap positive expr)
    : gmap positive expr :=
  foldl (fun u gp =>
           <[gp.2 := Sub (Var gp.2) (Mul gp.1 (Cast lr floatX))]> u)
        updates (zip gparams params).

(** The default learning rate, [lr=0.1]. *)
Definition default_lr : expr := DecConst 1 (-1).

Definition get_cost_updates (self : CRBM) (lr : expr) (k : nat)
    (persistent : option positive) : M (expr * gmap positive expr) :=
  (* compute positive phase *)
  ph <- sample_h_given_v self (input self) ;;
  let '(pre_sigmoid_ph, ph_mean, ph_sample) := ph in
  let chain_start :=
    match persistent with
    | None => ph_sample
    | Some p => Var p
    end in
  (* perform actual negative phase *)
  sc <- theano_scan (unary (gibbs_hvh self))
          [None; None; None; None; None; Some chain_start] k ;;
  match sc with
  | ([pre_sigmoid_nvs; nv_means; nv_samples;
      pre_sigmoid_nhs; nh_means; nh_samples], updates) =>
      let chain_end := last_step nv_samples in
      fe_input <- free_energy self (input self) ;;
      fe_end <- free_energy self chain_end ;;
      let cost := Sub (Mean fe_input) (Mean fe_end) in
      let gparams := TT_grad cost (params self) [chain_end] in
      let updates := param_updates lr gparams (params self) updates in
      match persistent with
      | Some p =>
          let updates := <[p := last_step nh_samples]> updates in
          get_pseudo_likelihood_cost self updates
      | None =>
          monitoring_cost <- get_reconstruction_cost self updates
                               (last_step pre_sigmoid_nvs) ;;
          ret (monitoring_cost, updates)
      end
  | _ => raise ValueError
  end.

(** *** The body of [get_cost_updates], in two parts

    [cd_graph] is the body up to the end of the loop over the parameters and
    returns the local variables there; [cd_monitoring] is the final
    conditional.  [get_cost_updates_split] shows that their composition is
    [get_cost_updates]. *)

Record cd_locals : Type := mk_cd_locals {
  ph_sample : expr;
  chain_start : expr;
  pre_sigmoid_nvs : expr;
  nv_means : expr;
  nv_samples : expr;
  pre_sigmoid_nhs : expr;
  nh_means : expr;
  nh_samples : expr;
  scan_updates : gmap positive expr;
  chain_end : expr;
  cost : expr;
  gparams : list expr;
  updates : gmap positive expr
}.

Definition cd_graph (self : CRBM) (lr : expr) (k : nat)
    (persistent : option positive) : M cd_locals :=
  ph <- sample_h_given_v self (input self) ;;
  let '(pre_sigmoid_ph, ph_mean, ph_sample) := ph in
  let chain_start :=
    match persistent with
    | None => ph_sample
    | Some p => Var p
    end in
  sc <- theano_scan (unary (gibbs_hvh self))
          [None; None; None; None; None; Some chain_start] k ;;
  match sc with
  | ([pre_sigmoid_nvs; nv_means; nv_samples;
      pre_sigmoid_nhs; nh_means; nh_samples], updates) =>
      let chain_end := last_step nv_samples in
      fe_input <- free_energy self (input self) ;;
      fe_end <- free_energy self chain_end ;;
      let cost := Sub (Mean fe_input) (Mean fe_end) in
      let gparams := TT_grad cost (params self) [chain_end] in
      ret (mk_cd_locals ph_sample chain_start pre_sigmoid_nvs nv_means
             nv_samples pre_sigmoid_nhs nh_means nh_samples updates chain_end
             cost gparams (param_updates lr gparams (params self) updates))
  | _ => raise ValueError
  end.

Definition cd_monitoring (self : CRBM) (persistent : option positive)
    (l : cd_locals) : M (expr * gmap positive expr) :=
  match persistent with
  | Some p =>
      get_pseudo_likelihood_cost self
        (<[p := last_step (nh_samples l)]> (updates l))
  | None =>
      monitoring_cost <- get_reconstruction_cost self (updates l)
                           (last_step (pre_sigmoid_nvs l)) ;;
      ret (monitoring_cost, updates l)
  end.

(** ** The graphs that the methods return

    What a method builds when none of its checks fails, as a function of its
    arguments. *)

Definition upward_graph (self : CRBM) (v : expr) : expr :=
  Add (Conv2d v (Var (W self)) (FS self) (IS self) valid)
      (DimShuffle (Var (hbias self)) [DX; DAxis 0; DX; DX]).

Definition downward_graph (self : CRBM) (h : expr) : expr :=
  Add (Conv2d h
         (Subtensor
            (DimShuffle (Var (W self)) [DAxis 1; DAxis 0; DAxis 2; DAxis 3])
            [IAll; IAll; IRev; IRev])
         (FSinv self) (ISinv self) full)
      (DimShuffle (Var (vbias self)) [DX; DAxis 0; DX; DX]).

Definition free_energy_graph (self : CRBM) (v : expr) : expr :=
  Sub (Neg (Sum (Softplus (upward_graph self v)) [1; 2; 3]%nat))
      (Dot (Sum v [2; 3]%nat) (Var (vbias self))).

Definition reconstruction_graph (self : CRBM) (p : expr) : expr :=
  Mean (Sum (Add (Mul (input self) (Log (Sigmoid p)))
                 (Mul (Sub (IntConst 1) (input self))
                      (Log (Sub (IntConst 1) (Sigmoid p)))))
            [1; 2; 3]%nat).

(** A draw with one trial and the probabilities [mean], of the shape of
    [mean], from the stream [st]. *)
Definition draw (st : positive) (mean : expr) : expr :=
  Binomial st (Shape mean) 1 mean floatX.

(** The cost of CD-k as a function of the end of the chain. *)
Definition cd_cost (self : CRBM) (chain_end : expr) : expr :=
  Sub (Mean (free_energy_graph self (input self)))
      (Mean (free_energy_graph self chain_end)).

(** The new value of the parameter [p] under gradient descent on [cost]. *)
Definition param_rule (lr cost : expr) (cc : list expr) (p : positive) : expr :=
  Sub (Var p) (Mul (Grad cost p cc) (Cast lr floatX)).

(** ** The meaning of a scan

    A scan node stands for the repeated application of its step function.
    [subst] replaces variables in a graph; [unroll] applies the graphs of the
    outputs [n] times, each time to the outputs that the step before fed
    back; [steps_of] gives, for a result of [theano.scan], the graphs of its
    values step by step. *)

Fixpoint subst (sigma : gmap positive expr) (e : expr) : expr :=
  match e with
  | Var id => default (Var id) (sigma !! id)
  | IntConst z => IntConst z
  | DecConst m x => DecConst m x
  | Conv2d a b fs ims mode => Conv2d (subst sigma a) (subst sigma b) fs ims mode
  | DimShuffle a pattern => DimShuffle (subst sigma a) pattern
  | Subtensor a idx => Subtensor (subst sigma a) idx
  | SetSubtensor a idx v => SetSubtensor (subst sigma a) idx (subst sigma v)
  | Add a b => Add (subst sigma a) (subst sigma b)
  | Sub a b => Sub (subst sigma a) (subst sigma b)
  | Mul a b => Mul (subst sigma a) (subst sigma b)
  | Mod a b => Mod (subst sigma a) (subst sigma b)
  | Neg a => Neg (subst sigma a)
  | Softplus a => Softplus (subst sigma a)
  | Sigmoid a => Sigmoid (subst sigma a)
  | Log a => Log (subst sigma a)
  | Round a => Round (subst sigma a)
  | Sum a axes => Sum (subst sigma a) axes
  | Mean a => Mean (subst sigma a)
  | Dot a b => Dot (subst sigma a) (subst sigma b)
  | Shape a => Shape (subst sigma a)
  | Cast a dt => Cast (subst sigma a) dt
  | Binomial st size n p dt => Binomial st (subst sigma size) n (subst sigma p) dt
  | ShapePadleft a => ShapePadleft (subst sigma a)
  | Unbroadcast a axis => Unbroadcast (subst sigma a) axis
  | Scan n args initial outs feedback r =>
      Scan n args (subst sigma <$> initial)
           (subst (foldr delete sigma args) <$> outs) feedback r
  | Grad c wrt cc => Grad (subst sigma c) wrt (subst sigma <$> cc)
  end.

Fixpoint unroll (args : list positive) (outs : list expr)
    (feedback : list nat) (state : list expr) (n : nat)
    : list (list expr) :=
  match n with
  | O => []
  | S n' =>
      let step := subst (list_to_map (zip args state)) <$> outs in
      step :: unroll args outs feedback
                (omap (fun i => step !! i) feedback) n'
  end.

Definition steps_of (e : expr) : option (list expr) :=
  match e with
  | Unbroadcast (ShapePadleft o) O => Some [o]
  | Scan n args initial outs feedback (SOut i) =>
      mapM (fun step : list expr => step !! i)
           (unroll args outs feedback initial n)
  | _ => None
  end.

(** The value that [seq[-1]] selects: the one of the last step. *)
Definition last_value (e : expr) : option expr :=
  match e with
  | Subtensor seq [IInt (-1)] => steps_of seq ≫= last
  | _ => None
  end.

(** *** The Gibbs chain

    One step of the chain, with the names of the outputs of [gibbs_hvh]. *)
Record gibbs_step : Type := mk_gibbs_step {
  pre_sigmoid_v : expr;
  v_mean : expr;
  v_sample : expr;
  pre_sigmoid_h : expr;
  h_mean : expr;
  h_sample : expr
}.

Definition step_outputs (g : gibbs_step) : list expr :=
  [pre_sigmoid_v g; v_mean g; v_sample g;
   pre_sigmoid_h g; h_mean g; h_sample g].

(** One step from the hidden state [h0]: the visible units are drawn, from
    the stream [st_v], with the probabilities that the downward propagation
    of [h0] gives; the hidden units are drawn, from the stream [st_h], with
    the probabilities that the upward propagation of the visible sample
    gives. *)
Definition hvh_step (self : CRBM) (st_v st_h : positive) (h0 : expr)
    : gibbs_step :=
  let pre_v := downward_graph self h0 in
  let v := draw st_v (Sigmoid pre_v) in
  let pre_h := upward_graph self v in
  mk_gibbs_step pre_v (Sigmoid pre_v) v
                pre_h (Sigmoid pre_h) (draw st_h (Sigmoid pre_h)).

(** The chain of [k] steps from [h0]: every step starts from the hidden
    sample of the step before. *)
Fixpoint gibbs_chain (self : CRBM) (st_v st_h : positive) (h0 : expr)
    (k : nat) : list gibbs_step :=
  match k with
  | O => []
  | S k' =>
      let g := hvh_step self st_v st_h h0 in
      g :: gibbs_chain self st_v st_h (h_sample g) k'
  end.

(** ** Invariants and conditions *)

(** The class invariant that [__init__] establishes. *)
Definition crbm_inv (self : CRBM) : Prop :=
  params self = [W self; hbias self; vbias self]
  /\ sh1 (IS self) = sh1 (FS self)
  /\ FSinv self
     = (sh1 (FS self), sh0 (FS self), sh2 (FS self), sh3 (FS self))
  /\ ISinv self
     = (sh0 (IS self), sh0 (FS self),
        sh2 (IS self) - sh2 (FS self) + 1,
        sh3 (IS self) - sh3 (FS self) + 1).

(** The filters are not empty and fit inside the images. *)
Definition filter_fits (self : CRBM) : Prop :=
  0 < sh2 (FS self) <= sh2 (IS self) /\ 0 < sh3 (FS self) <= sh3 (IS self).

(** The variables of the CRBM have, in the store [s], the numbers of
    dimensions that the docstrings ask for: the filters are
    four-dimensional and the biases are vectors; the images of the input are
    four-dimensional. *)
Definition params_typed (s : gmap positive vobj) (self : CRBM) : Prop :=
  ndim_of s (Var (W self)) = Some 4%nat
  /\ ndim_of s (Var (hbias self)) = Some 1%nat
  /\ ndim_of s (Var (vbias self)) = Some 1%nat.

Definition well_typed (s : gmap positive vobj) (self : CRBM) : Prop :=
  ndim_of s (input self) = Some 4%nat /\ params_typed s self.

(** A later store has the objects of an earlier one. *)
Definition grows (s s' : gmap positive vobj) : Prop :=
  dom s ⊆ dom s' /\ forall i o, s !! i = Some o -> s' !! i = Some o.

(** *** The paths of the gradient

    The operands of a node; for a scan, the initial values and the graphs of
    the step function. *)
Definition operands (e : expr) : list expr :=
  match e with
  | Var _ | IntConst _ | DecConst _ _ => []
  | Conv2d a b _ _ _ | Add a b | Sub a b | Mul a b | Mod a b | Dot a b
  | SetSubtensor a _ b => [a; b]
  | DimShuffle a _ | Subtensor a _ | Neg a | Softplus a | Sigmoid a | Log a
  | Round a | Sum a _ | Mean a | Shape a | Cast a _ | ShapePadleft a
  | Unbroadcast a _ => [a]
  | Binomial _ size _ p _ => [size; p]
  | Scan _ _ initial outs _ _ => initial ++ outs
  | Grad c _ cc => c :: cc
  end.

(** [reaches cc e d]: the node [d] is reached from [e] through operands
    without entering a node of [cc].  A gradient with
    [consider_constant=cc] is propagated along these paths only. *)
Inductive reaches (cc : list expr) : expr -> expr -> Prop :=
| reaches_here e : e ∉ cc -> reaches cc e e
| reaches_operand e a d :
    e ∉ cc -> a ∈ operands e -> reaches cc a d -> reaches cc e d.

(** The nodes that sample: a draw, or a scan. *)
Definition samples (e : expr) : Prop :=
  match e with
  | Binomial _ _ _ _ _ | Scan _ _ _ _ _ _ => True
  | _ => False
  end.

(** * The tensor layer

    Values of the deterministic nodes.  The scalars are floating-point
    numbers in the program; here they are any carrier with the operations that
    the nodes use. *)

Record arith : Type := {
  R :> Type;
  rofZ : Z -> R;
  radd : R -> R -> R;
  rsub : R -> R -> R;
  rmul : R -> R -> R;
  rneg : R -> R;
  rdivZ : R -> Z -> R;
  rsoftplus : R -> R;
  rsigmoid : R -> R;
  rlog : R -> R
}.

(** A dimension of a tensor type: its size, and whether Theano may broadcast
    along it. *)
Record dim : Type := mk_dim { size : Z; bcast : bool }.

Global Instance dim_eq_dec : EqDecision dim.
Proof. solve_decision. Defined.

Global Instance dim_spec_eq_dec : EqDecision dim_spec.
Proof. solve_decision. Defined.

(** The dimensions of a variable or of a computed array: nothing is
    broadcastable. *)
Definition plain (shape : list Z) : list dim :=
  (fun n => mk_dim n false) <$> shape.

Record tensor (F : arith) : Type := mk_tensor {
  t_dims : list dim;
  t_at : list Z -> F
}.

Arguments mk_tensor {F} t_dims t_at.
Arguments t_dims {F} t.
Arguments t_at {F} t idx.

Definition shape_of {F : arith} (t : tensor F) : list Z := size <$> t_dims t.

(** The number of elements of a tensor of a given shape. *)
Definition n_elements (shape : list Z) : Z := foldr Z.mul 1 shape.

Section Tensor.

Variable F : arith.

Definition zero : F := rofZ F 0.

(** The sum of [f 0], ..., [f (n - 1)]. *)
Definition sumZ (n : Z) (f : Z -> F) : F :=
  foldr (fun i acc => radd F (f (Z.of_nat i)) acc) zero
        (seq 0 (Z.to_nat n)).

Definition map_tensor (op : F -> F) (t : tensor F) : tensor F :=
  mk_tensor (t_dims t) (fun idx => op (t_at t idx)).

(** *** Elementwise operations with broadcasting *)

Definition pad_left (n : nat) (ds : list dim) : list dim :=
  replicate (n - length ds) (mk_dim 1 true) ++ ds.

Definition bc_dim (da db : dim) : option dim :=
  if bcast da then Some db
  else if bcast db then Some da
  else if decide (size da = size db) then Some da
  else None.

Fixpoint bc_dims (a b : list dim) : option (list dim) :=
  match a, b with
  | [], [] => Some []
  | da :: a', db :: b' =>
      match bc_dim da db, bc_dims a' b' with
      | Some d, Some ds => Some (d :: ds)
      | _, _ => None
      end
  | _, _ => None
  end.

(** The index into an operand for the index [idx] of the result. *)
Definition bc_idx (ds : list dim) (pad : nat) (idx : list Z) : list Z :=
  zip_with (fun d i => if bcast d then 0 else i) ds (drop pad idx).

Definition binop (op : F -> F -> F) (ta tb : tensor F) : option (tensor F) :=
  let n := Nat.max (length (t_dims ta)) (length (t_dims tb)) in
  match bc_dims (pad_left n (t_dims ta)) (pad_left n (t_dims tb)) with
  | Some ds =>
      Some (mk_tensor ds (fun idx =>
              op (t_at ta (bc_idx (t_dims ta) (n - length (t_dims ta)) idx))
                 (t_at tb (bc_idx (t_dims tb) (n - length (t_dims tb)) idx))))
  | None => None
  end.

(** *** dimshuffle *)

Definition find_axis (pattern : list dim_spec) (i : nat) : option nat :=
  fst <$> list_find (fun p => p = DAxis i) pattern.

Definition dimshuffle (t : tensor F) (pattern : list dim_spec)
    : option (tensor F) :=
  let axes := seq 0 (length (t_dims t)) in
  match mapM (fun p => match p with
                       | DX => Some (mk_dim 1 true)
                       | DAxis i => t_dims t !! i
                       end) pattern with
  | Some ds =>
      if bool_decide (NoDup (pattern_axes pattern))
         && forallb (fun i => match find_axis pattern i with
                              | Some _ => true
                              | None => match t_dims t !! i with
                                        | Some d => bcast d
                                        | None => false
                                        end
                              end) axes
      then Some (mk_tensor ds (fun idx =>
                   t_at t ((fun i => match find_axis pattern i with
                                     | Some j => default 0 (idx !! j)
                                     | None => 0
                                     end) <$> axes)))
      else None
  | None => None
  end.

(** *** Subscripts made of the slices [:] and [::-1] *)

Fixpoint slice_idx (ds : list dim) (sl : list index) (idx : list Z)
    : list Z :=
  match ds, idx with
  | d :: ds', i :: idx' =>
      match sl with
      | IRev :: sl' => (size d - 1 - i) :: slice_idx ds' sl' idx'
      | _ :: sl' => i :: slice_idx ds' sl' idx'
      | [] => i :: slice_idx ds' [] idx'
      end
  | _, _ => []
  end.

Definition subtensor (t : tensor F) (sl : list index) : option (tensor F) :=
  if forallb (fun i => match i with IAll | IRev => true | _ => false end) sl
     && bool_decide (length sl <= length (t_dims t))%nat
  then Some (mk_tensor (t_dims t)
               (fun idx => t_at t (slice_idx (t_dims t) sl idx)))
  else None.

(** *** conv2d

    The convolution of a batch of images [b, c, h, w] with a bank of filters
    [f, c, fh, fw].  The shapes that were declared when the node was built
    must be the shapes of the arguments.  In mode [valid] the filter must
    fit inside the image and the output is [h - fh + 1] by [w - fw + 1]; in
    mode [full] the image is padded with zeros and the output is
    [h + fh - 1] by [w + fw - 1]. *)

Definition padded (t : tensor F) (h w : Z) (idx : list Z) : F :=
  match idx with
  | [n; c; y; x] =>
      if decide (0 <= y < h /\ 0 <= x < w) then t_at t idx else zero
  | _ => zero
  end.

Definition offset (mode : border_mode) (fn : Z) : Z :=
  match mode with
  | valid => fn - 1
  | full => 0
  end.

Definition conv2d (ta tk : tensor F) (filter_shape image_shape : shape4)
    (mode : border_mode) : option (tensor F) :=
  match t_dims ta, t_dims tk with
  | [b; c; h; w], [f; c'; fh; fw] =>
      let oh := out_size mode (size h) (size fh) in
      let ow := out_size mode (size w) (size fw) in
      if decide (shape_of ta = shape4_list image_shape
                 /\ shape_of tk = shape4_list filter_shape
                 /\ size c = size c' /\ 0 < oh /\ 0 < ow)
      then Some (mk_tensor
                   [mk_dim (size b) (bcast b); mk_dim (size f) (bcast f);
                    mk_dim oh false; mk_dim ow false]
                   (fun idx =>
                      match idx with
                      | [n; o; i; j] =>
                          sumZ (size c) (fun ch =>
                            sumZ (size fh) (fun p =>
                              sumZ (size fw) (fun q =>
                                rmul F (t_at tk [o; ch; p; q])
                                  (padded ta (size h) (size w)
                                     [n; ch;
                                      i + offset mode (size fh) - p;
                                      j + offset mode (size fw) - q]))))
                      | _ => zero
                      end))
      else None
  | _, _ => None
  end.

(** *** Reductions *)

Fixpoint keep_dims (ds : list dim) (pos : nat) (axes : list nat)
    : list dim :=
  match ds with
  | [] => []
  | d :: ds' =>
      if in_axes axes pos then keep_dims ds' (S pos) axes
      else d :: keep_dims ds' (S pos) axes
  end.

(** The sum of [f] over the axes of [axes]; [idx] indexes the other
    axes. *)
Fixpoint sum_axes (ds : list dim) (pos : nat) (axes : list nat)
    (f : list Z -> F) (idx : list Z) : F :=
  match ds with
  | [] => f []
  | d :: ds' =>
      if in_axes axes pos
      then sumZ (size d) (fun i =>
             sum_axes ds' (S pos) axes (fun rest => f (i :: rest)) idx)
      else match idx with
           | i :: idx' =>
               sum_axes ds' (S pos) axes (fun rest => f (i :: rest)) idx'
           | [] => zero
           end
  end.

Definition tsum (t : tensor F) (axes : list nat) : option (tensor F) :=
  if forallb (fun a => a <? length (t_dims t))%nat axes
  then Some (mk_tensor (keep_dims (t_dims t) 0 axes)
               (sum_axes (t_dims t) 0 axes (t_at t)))
  else None.

Definition tmean (t : tensor F) : tensor F :=
  mk_tensor []
    (fun _ => rdivZ F
                (sum_axes (t_dims t) 0 (seq 0 (length (t_dims t)))
                          (t_at t) [])
                (n_elements (shape_of t))).

(** [TT.dot] of a matrix and a vector. *)
Definition dot (ta tb : tensor F) : option (tensor F) :=
  match t_dims ta, t_dims tb with
  | [m; n], [n'] =>
      if decide (size n = size n')
      then Some (mk_tensor [m]
                   (fun idx =>
                      match idx with
                      | [i] => sumZ (size n) (fun j =>
                                 rmul F (t_at ta [i; j]) (t_at tb [j]))
                      | _ => zero
                      end))
      else None
  | _, _ => None
  end.

(** *** Evaluation

    [env] holds the values of the variables.  The nodes that draw samples,
    differentiate, or depend on an index variable have no value here. *)
Fixpoint eval (env : gmap positive (tensor F)) (e : expr)
    : option (tensor F) :=
  match e with
  | Var id => env !! id
  | IntConst z => Some (mk_tensor [] (fun _ => rofZ F z))
  | Conv2d a k fs ims mode =>
      match eval env a, eval env k with
      | Some ta, Some tk => conv2d ta tk fs ims mode
      | _, _ => None
      end
  | DimShuffle a pattern =>
      match eval env a with
      | Some ta => dimshuffle ta pattern
      | None => None
      end
  | Subtensor a sl =>
      match eval env a with
      | Some ta => subtensor ta sl
      | None => None
      end
  | Add a b =>
      match eval env a, eval env b with
      | Some ta, Some tb => binop (radd F) ta tb
      | _, _ => None
      end
  | Sub a b =>
      match eval env a, eval env b with
      | Some ta, Some tb => binop (rsub F) ta tb
      | _, _ => None
      end
  | Mul a b =>
      match eval env a, eval env b with
      | Some ta, Some tb => binop (rmul F) ta tb
      | _, _ => None
      end
  | Neg a => map_tensor (rneg F) <$> eval env a
  | Softplus a => map_tensor (rsoftplus F) <$> eval env a
  | Sigmoid a => map_tensor (rsigmoid F) <$> eval env a
  | Log a => map_tensor (rlog F) <$> eval env a
  | Sum a axes =>
      match eval env a with
      | Some ta => tsum ta axes
      | None => None
      end
  | Mean a => tmean <$> eval env a
  | Dot a b =>
      match eval env a, eval env b with
      | Some ta, Some tb => dot ta tb
      | _, _ => None
      end
  | _ => None
  end.

End Tensor.

Arguments zero {F}.
Arguments sumZ {F} n f.
Arguments eval {F} env e.

(** Integer arithmetic as a carrier, for running the definitions: the
    nonlinear functions are replaced by simple integer functions. *)
Definition Zarith : arith :=
  {| R := Z; rofZ := fun z => z; radd := Z.add; rsub := Z.sub; rmul := Z.mul;
     rneg := Z.opp; rdivZ := Z.div; rsoftplus := fun x => Z.max 0 x;
     rsigmoid := fun x => Z.sgn x; rlog := fun x => x - 1 |}.

(** ** A small model, for running the definitions

    One image of one channel, 3 by 3; two filters, 2 by 2.  The store holds
    the input variable and the three parameters. *)

Definition ex_FS : shape4 := (2, 1, 2, 2).
Definition ex_IS : shape4 := (1, 1, 3, 3).

Definition ex_store : gmap positive vobj :=
  list_to_map
    [(1%positive, TensorVariable "x" 4);
     (2%positive,
      SharedVariable "W"
        (mk_ndarray floatX [2; 1; 2; 2]
           [NpInt 1; NpInt 0; NpInt 0; NpInt 0;
            NpInt 1; NpInt 2; NpInt 3; NpInt 4]));
     (3%positive,
      SharedVariable "hbias" (mk_ndarray floatX [2] [NpInt 10; NpInt 20]));
     (4%positive,
      SharedVariable "vbias" (mk_ndarray floatX [1] [NpInt 100]));
     (5%positive,
      SharedVariable "chain" (mk_ndarray floatX [1; 2; 2; 2]
                                (replicate 8 (NpInt 0))))].

Definition ex_rng : RandomStreams := {| rs_seed := 123 |}.

Definition ex_crbm : CRBM :=
  {| input := Var 1; W := 2; hbias := 3; vbias := 4;
     FS := ex_FS; IS := ex_IS;
     FSinv := (1, 2, 2, 2); ISinv := (1, 2, 2, 2);
     theano_rng := Some ex_rng; params := [2; 3; 4]%positive |}.

Definition ex_v : tensor Zarith :=
  @mk_tensor Zarith (plain [1; 1; 3; 3])
    (fun idx => match idx with [n; c; y; x] => 3 * y + x + 1 | _ => 0 end).

Definition ex_W : tensor Zarith :=
  @mk_tensor Zarith (plain [2; 1; 2; 2])
    (fun idx => match idx with
                | [f; c; p; q] =>
                    if decide (f = 0)
                    then (if decide (p = 0 /\ q = 0) then 1 else 0)
                    else 2 * p + q + 1
                | _ => 0
                end).

Definition ex_hbias : tensor Zarith :=
  @mk_tensor Zarith (plain [2])
    (fun idx => match idx with [f] => 10 * (f + 1) | _ => 0 end).

Definition ex_vbias : tensor Zarith :=
  @mk_tensor Zarith (plain [1]) (fun idx => 100).

Definition ex_h : tensor Zarith :=
  @mk_tensor Zarith (plain [1; 2; 2; 2])
    (fun idx => match idx with [n; f; i; j] => f + i + j | _ => 0 end).

Definition ex_env : gmap positive (tensor Zarith) :=
  list_to_map
    [(1%positive, ex_v); (2%positive, ex_W); (3%positive, ex_hbias);
     (4%positive, ex_vbias); (5%positive, ex_h)].

(** ** Notions used by the further properties *)

(** The values of the variables have the numbers of dimensions that the
    store records for the variables. *)
Definition typed {F : arith} (s : gmap positive vobj)
    (env : gmap positive (tensor F)) : Prop :=
  forall id t,
    env !! id = Some t -> ndim_of s (Var id) = Some (length (t_dims t)).

(** The scan node of the chain of [get_cost_updates]: [h] is the variable
    that stands for the hidden state inside the loop; [st_v] and [st_h] are
    the streams of the visible and of the hidden draws. *)
Definition chain_loop (self : CRBM) (k : nat) (h st_v st_h : positive)
    (start : expr) : scan_result -> expr :=
  Scan k [h] [start] (step_outputs (hvh_step self st_v st_h (Var h)))
       [5%nat].

(** The six sequences that [theano.scan] returns for the chain: for one
    step, the outputs of the step with a leading axis; otherwise the outputs
    of the loop. *)
Definition chain_outputs (self : CRBM) (k : nat) (h st_v st_h : positive)
    (start : expr) : list expr :=
  if decide (k = 1%nat)
  then (fun o => Unbroadcast (ShapePadleft o) 0%nat)
       <$> step_outputs (hvh_step self st_v st_h start)
  else (fun i => chain_loop self k h st_v st_h start (SOut i))
       <$> seq 0 6.

(** The updates that [theano.scan] returns for the chain. *)
Definition chain_updates (self : CRBM) (k : nat) (h st_v st_h : positive)
    (start : expr) : gmap positive expr :=
  if decide (k = 1%nat) then ∅
  else {[st_v := chain_loop self k h st_v st_h start (SShared st_v);
         st_h := chain_loop self k h st_v st_h start (SShared st_h)]}.

(** The objects that [theano.scan] creates for the chain, in the store [s]:
    the variable for the hidden state, then the stream of the visible draws
    and the stream of the hidden draws. *)
Definition scan_placeholder (s : gmap positive vobj) (start : expr) : vobj :=
  TensorVariable (if decide (var_name s start = EmptyString)
                  then EmptyString
                  else var_name s start +:+ "[t-1]") 4.

Definition chain_s_h (s : gmap positive vobj) (start : expr)
    : gmap positive vobj :=
  <[fresh (dom s) := scan_placeholder s start]> s.

Definition chain_st_v (s : gmap positive vobj) (start : expr) : positive :=
  fresh (dom (chain_s_h s start)).

Definition chain_s_v (rng : RandomStreams) (s : gmap positive vobj)
    (start : expr) : gmap positive vobj :=
  <[chain_st_v s start := RandomStateVariable (rs_seed rng)]>
    (chain_s_h s start).

Definition chain_st_h (rng : RandomStreams) (s : gmap positive vobj)
    (start : expr) : positive :=
  fresh (dom (chain_s_v rng s start)).

Definition chain_store (rng : RandomStreams) (s : gmap positive vobj)
    (start : expr) : gmap positive vobj :=
  <[chain_st_h rng s start := RandomStateVariable (rs_seed rng)]>
    (chain_s_v rng s start).

(** The local variables of [get_cost_updates] after the loop over the
    parameters, and the store there, when no check fails: the positive phase
    draws from a new stream; the chain starts from that sample or from the
    persistent variable. *)
Definition ph_store (rng : RandomStreams) (s : gmap positive vobj)
    : gmap positive vobj :=
  <[fresh (dom s) := RandomStateVariable (rs_seed rng)]> s.

Definition ph_draw (self : CRBM) (s : gmap positive vobj) : expr :=
  draw (fresh (dom s)) (Sigmoid (upward_graph self (input self))).

Definition cd_start (self : CRBM) (persistent : option positive)
    (s : gmap positive vobj) : expr :=
  match persistent with
  | None => ph_draw self s
  | Some p => Var p
  end.

Definition cd_store (self : CRBM) (rng : RandomStreams)
    (persistent : option positive) (s : gmap positive vobj)
    : gmap positive vobj :=
  chain_store rng (ph_store rng s) (cd_start self persistent s).

Definition cd_result (self : CRBM) (rng : RandomStreams) (lr : expr)
    (k : nat) (persistent : option positive) (s : gmap positive vobj)
    : cd_locals :=
  let s1 := ph_store rng s in
  let start := cd_start self persistent s in
  let h := fresh (dom s1) in
  let st_v := chain_st_v s1 start in
  let st_h := chain_st_h rng s1 start in
  let outs := chain_outputs self k h st_v st_h start in
  let out i := default (IntConst 0) (outs !! i) in
  let su := chain_updates self k h st_v st_h start in
  let chain_end := last_step (out 2%nat) in
  let cost := cd_cost self chain_end in
  let gparams := TT_grad cost (params self) [chain_end] in
  mk_cd_locals (ph_draw self s) start
    (out 0%nat) (out 1%nat) (out 2%nat) (out 3%nat) (out 4%nat) (out 5%nat)
    su chain_end cost gparams
    (param_updates lr gparams (params self) su).

(** The outputs of a step, by position. *)
Definition step_fields : list (gibbs_step -> expr) :=
  [pre_sigmoid_v; v_mean; v_sample; pre_sigmoid_h; h_mean; h_sample].

(** The laws of a commutative semiring, for the carriers on which sums can
    be reordered. *)
Record semiring_laws (F : arith) : Prop := {
  law_add_comm : forall a b : F, radd F a b = radd F b a;
  law_add_assoc : forall a b c : F,
    radd F a (radd F b c) = radd F (radd F a b) c;
  law_add_0_r : forall a : F, radd F a zero = a;
  law_mul_comm : forall a b : F, rmul F a b = rmul F b a;
  law_mul_assoc : forall a b c : F,
    rmul F a (rmul F b c) = rmul F (rmul F a b) c;
  law_mul_0_r : forall a : F, rmul F a zero = zero;
  law_distr : forall a b c : F,
    rmul F a (radd F b c) = radd F (rmul F a b) (rmul F a c)
}.

(** The sum of [f] over a list of indices; [sumZ n f] is the sum over
    [0, ..., n - 1]. *)
Definition lsum {F : arith} (l : list nat) (f : Z -> F) : F :=
  foldr (fun i acc => radd F (f (Z.of_nat i)) acc) zero l.

(** The inner product of two four-dimensional tensors over the index range
    [b] by [c] by [h] by [w]. *)
Definition inner4 {F : arith} (b c h w : Z) (t1 t2 : tensor F) : F :=
  sumZ b (fun n => sumZ c (fun k => sumZ h (fun y => sumZ w (fun x =>
    rmul F (t_at t1 [n; k; y; x]) (t_at t2 [n; k; y; x]))))).

(** ** Further objects of the small model *)

(** A generator whose [uniform] returns an array of zeros of the size it is
    asked for. *)
Definition ex_numpy_rng : RandomState :=
  {| uniform := fun _ _ size =>
       Ok (mk_ndarray floatX size
             (replicate (Z.to_nat (np_prod size)) (NpDec 0 0))) |}.

(** The small model as the constructor builds it when [theano_rng] is not
    given. *)
Definition ex_crbm_no_rng : CRBM :=
  {| input := Var 1; W := 2; hbias := 3; vbias := 4;
     FS := ex_FS; IS := ex_IS;
     FSinv := (1, 2, 2, 2); ISinv := (1, 2, 2, 2);
     theano_rng := None; params := [2; 3; 4]%positive |}.

Definition ex_zero_hbias : tensor Zarith :=
  @mk_tensor Zarith (plain [2]) (fun idx => 0).

Definition ex_zero_vbias : tensor Zarith :=
  @mk_tensor Zarith (plain [1]) (fun idx => 0).

(** The values of the small model with zero biases. *)
Definition ex_env0 : gmap positive (tensor Zarith) :=
  list_to_map
    [(1%positive, ex_v); (2%positive, ex_W); (3%positive, ex_zero_hbias);
     (4%positive, ex_zero_vbias); (5%positive, ex_h)].

(** A persistent chain of the size that the docstring of
    [get_cost_updates] asks for: batch size by number of hidden units. *)
Definition ex_chain2 : ndarray :=
  mk_ndarray floatX [1; 8] (replicate 8 (NpInt 0)).

(** The stand-alone CRBM: the constructor is given the shapes and the two
    generators, and creates the input and the parameters.  The store then
    gets a persistent chain for the four-dimensional hidden layer, and one of
    the documented two-dimensional size. *)
Definition ex_standalone : M (CRBM * positive * positive) :=
  self <- __init__ None ex_FS ex_IS None None None (Some ex_numpy_rng)
            (Some ex_rng) ;;
  p4 <- theano_shared (mk_ndarray floatX [1; 2; 2; 2]
                         (replicate 8 (NpInt 0))) "chain" ;;
  p2 <- theano_shared ex_chain2 "chain" ;;
  ret (self, p4, p2).

(** ** Proof steps *)

(** One step back along a path of the gradient [H], with the inversion lemma
    [inv] of [reaches]: the path ends here, or it goes on from an operand. *)
Ltac reach_step inv H :=
  let a := fresh "a" in
  let Ha := fresh "Ha" in
  apply inv in H as [_ [-> | (a & Ha & H)]];
  [ try contradiction
  | cbn [operands] in Ha;
    repeat (apply elem_of_cons in Ha as [-> | Ha]);
    try (apply elem_of_nil in Ha; contradiction) ].

(** * Properties of the graph layer *)

Section Monad.

Context {A B : Type}.

Lemma bind_ok (m : M A) (k : A -> M B) s a s' :
  m s = Ok (a, s') -> bind m k s = k a s'.
Proof. unfold bind. intros ->. reflexivity. Qed.

Lemma bind_raise (m : M A) (k : A -> M B) s e :
  m s = Raise e -> bind m k s = Raise e.
Proof. unfold bind. intros ->. reflexivity. Qed.

Lemma bind_inv (m : M A) (k : A -> M B) s r :
  bind m k s = Ok r -> exists a s', m s = Ok (a, s') /\ k a s' = Ok r.
Proof.
  unfold bind. destruct (m s) as [[a s']|e]; [eauto | discriminate].
Qed.

End Monad.

Lemma alloc_fresh (s : gmap positive vobj) : s !! fresh (dom s) = None.
Proof. apply not_elem_of_dom, is_fresh. Qed.

Lemma lookup_alloc_earlier (s : gmap positive vobj) i o o' :
  s !! i = Some o -> <[fresh (dom s) := o']> s !! i = Some o.
Proof.
  intros Hi. rewrite lookup_insert_ne; [exact Hi|].
  intros E. pose proof (alloc_fresh s) as Hf. rewrite E in Hf. congruence.
Qed.

Lemma grows_refl s : grows s s.
Proof. split; [reflexivity | auto]. Qed.

Lemma grows_alloc s o : grows s (<[fresh (dom s) := o]> s).
Proof.
  split.
  - rewrite dom_insert_L. apply union_subseteq_r.
  - intros i o' Hi. apply lookup_alloc_earlier, Hi.
Qed.

Lemma grows_trans s1 s2 s3 : grows s1 s2 -> grows s2 s3 -> grows s1 s3.
Proof.
  intros [D1 L1] [D2 L2]. split; [etrans; eassumption | auto].
Qed.

(** ** The number of dimensions *)

Lemma ndim_of_scan_out s n args initial outs feedback pos :
  ndim_of s (Scan n args initial outs feedback (SOut pos))
  = S <$> (outs !! pos ≫= ndim_of s).
Proof.
  cbn [ndim_of]. f_equal. revert pos.
  induction outs as [|o outs IH]; intros [|pos]; try reflexivity.
  apply IH.
Qed.

Lemma var_ndim_grows s s' id n :
  grows s s' -> s !! id ≫= var_ndim = Some n -> s' !! id ≫= var_ndim = Some n.
Proof.
  intros [_ G] H. destruct (s !! id) as [o|] eqn:E; [|discriminate].
  rewrite (G _ _ E). exact H.
Qed.

(** The type of a graph does not change when objects are created. *)
Lemma ndim_of_grows s s' :
  grows s s' ->
  forall e n, ndim_of s e = Some n -> ndim_of s' e = Some n.
Proof.
  intros G. fix IH 1. intros e n.
  destruct e as
    [id | z | m x | a b fs ims mode | a pattern | a idx | a idx v
    | a b | a b | a b | a b | a | a | a | a | a | a axes | a | a b | a | a dt
    | st size k p dt | a | a axis | k args initial outs feedback r
    | c wrt cc].
  - apply var_ndim_grows, G.
  - exact id.
  - exact id.
  - exact id.
  - cbn [ndim_of]. destruct (ndim_of s a) as [na|] eqn:Ea; [|discriminate].
    rewrite (IH a na Ea). exact id.
  - cbn [ndim_of]. destruct (ndim_of s a) as [na|] eqn:Ea; [|discriminate].
    rewrite (IH a na Ea). exact id.
  - cbn [ndim_of]. apply IH.
  - cbn [ndim_of]. destruct (ndim_of s a) as [na|] eqn:Ea; [|discriminate].
    destruct (ndim_of s b) as [nb|] eqn:Eb; [|discriminate].
    rewrite (IH a na Ea), (IH b nb Eb). exact id.
  - cbn [ndim_of]. destruct (ndim_of s a) as [na|] eqn:Ea; [|discriminate].
    destruct (ndim_of s b) as [nb|] eqn:Eb; [|discriminate].
    rewrite (IH a na Ea), (IH b nb Eb). exact id.
  - cbn [ndim_of]. destruct (ndim_of s a) as [na|] eqn:Ea; [|discriminate].
    destruct (ndim_of s b) as [nb|] eqn:Eb; [|discriminate].
    rewrite (IH a na Ea), (IH b nb Eb). exact id.
  - cbn [ndim_of]. destruct (ndim_of s a) as [na|] eqn:Ea; [|discriminate].
    destruct (ndim_of s b) as [nb|] eqn:Eb; [|discriminate].
    rewrite (IH a na Ea), (IH b nb Eb). exact id.
  - cbn [ndim_of]. apply IH.
  - cbn [ndim_of]. apply IH.
  - cbn [ndim_of]. apply IH.
  - cbn [ndim_of]. apply IH.
  - cbn [ndim_of]. apply IH.
  - cbn [ndim_of]. destruct (ndim_of s a) as [na|] eqn:Ea; [|discriminate].
    rewrite (IH a na Ea). exact id.
  - cbn [ndim_of]. destruct (ndim_of s a) as [na|] eqn:Ea; [|discriminate].
    rewrite (IH a na Ea). exact id.
  - cbn [ndim_of]. destruct (ndim_of s a) as [na|] eqn:Ea; [|discriminate].
    destruct (ndim_of s b) as [nb|] eqn:Eb; [|discriminate].
    rewrite (IH a na Ea), (IH b nb Eb). exact id.
  - cbn [ndim_of]. destruct (ndim_of s a) as [na|] eqn:Ea; [|discriminate].
    rewrite (IH a na Ea). exact id.
  - cbn [ndim_of]. apply IH.
  - destruct size; try (cbn [ndim_of]; discriminate).
    cbn [ndim_of]. apply IH.
  - cbn [ndim_of]. destruct (ndim_of s a) as [na|] eqn:Ea; [|discriminate].
    rewrite (IH a na Ea). exact id.
  - cbn [ndim_of]. apply IH.
  - destruct r as [pos|id]; [|cbn [ndim_of]; discriminate].
    rewrite !ndim_of_scan_out. revert pos.
    induction outs as [|o outs IHo]; intros [|pos]; try discriminate.
    + cbn. destruct (ndim_of s o) as [no|] eqn:Eo; [|discriminate].
      rewrite (IH o no Eo). exact id.
    + apply IHo.
  - apply var_ndim_grows, G.
Qed.

Lemma dimshuffle_ok_bias n :
  dimshuffle_ok n [DX; DAxis 0; DX; DX] = true <-> n = 1%nat.
Proof.
  split.
  - destruct n as [|[|n]]; [ | reflexivity | ].
    + vm_compute. discriminate.
    + unfold dimshuffle_ok. cbn [pattern_axes omap list_omap forallb seq].
      intros H. apply andb_true_iff in H as [_ H].
      apply andb_true_iff in H as [_ H].
      apply andb_true_iff in H as [H _].
      apply bool_decide_eq_true_1 in H.
      apply list_elem_of_singleton in H. discriminate.
  - intros ->. reflexivity.
Qed.

Lemma dimshuffle_ok_swap n :
  dimshuffle_ok n [DAxis 1; DAxis 0; DAxis 2; DAxis 3] = true <-> n = 4%nat.
Proof.
  split.
  - destruct n as [|[|[|[|[|n]]]]]; try (vm_compute; discriminate).
    reflexivity.
  - intros ->. reflexivity.
Qed.

Lemma TT_dimshuffle_run e pattern s n :
  ndim_of s e = Some n ->
  dimshuffle_ok n pattern = true ->
  TT_dimshuffle e pattern s = Ok (DimShuffle e pattern, s).
Proof. intros He Hok. unfold TT_dimshuffle. rewrite He, Hok. reflexivity. Qed.

Lemma TT_dimshuffle_inv e pattern s r :
  TT_dimshuffle e pattern s = Ok r ->
  r = (DimShuffle e pattern, s)
  /\ exists n, ndim_of s e = Some n /\ dimshuffle_ok n pattern = true.
Proof.
  unfold TT_dimshuffle. destruct (ndim_of s e) as [n|]; [|discriminate].
  destruct (dimshuffle_ok n pattern) eqn:E; [|discriminate].
  intros [= <-]. eauto.
Qed.

Lemma TT_sum_run a axes s n :
  ndim_of s a = Some n ->
  Forall (fun i => (i < n)%nat) axes ->
  TT_sum a axes s = Ok (Sum a axes, s).
Proof.
  intros Ha Hax. unfold TT_sum. rewrite Ha.
  assert (forallb (fun i => (i <? n)%nat) axes = true) as ->; [|reflexivity].
  apply forallb_forall. intros i Hi. apply Nat.ltb_lt.
  rewrite Forall_forall in Hax. apply Hax, list_elem_of_In, Hi.
Qed.

Lemma TT_sum_inv a axes s r :
  TT_sum a axes s = Ok r ->
  r = (Sum a axes, s)
  /\ exists n, ndim_of s a = Some n /\ Forall (fun i => (i < n)%nat) axes.
Proof.
  unfold TT_sum. destruct (ndim_of s a) as [n|]; [|discriminate].
  destruct (forallb _ axes) eqn:E; [|discriminate].
  intros [= <-]. split; [reflexivity|]. exists n. split; [reflexivity|].
  rewrite Forall_forall. intros i Hi. apply Nat.ltb_lt.
  rewrite forallb_forall in E. apply E, list_elem_of_In, Hi.
Qed.

Lemma conv_conv2d_run a k fs ims mode s :
  sh1 ims = sh1 fs ->
  0 < out_size mode (sh2 ims) (sh2 fs) ->
  0 < out_size mode (sh3 ims) (sh3 fs) ->
  ndim_of s a = Some 4%nat ->
  ndim_of s k = Some 4%nat ->
  conv_conv2d a k fs ims mode s = Ok (Conv2d a k fs ims mode, s).
Proof.
  intros Hc Hh Hw Ha Hk. unfold conv_conv2d.
  rewrite !decide_True by auto. reflexivity.
Qed.

Lemma conv_conv2d_inv a k fs ims mode s r :
  conv_conv2d a k fs ims mode s = Ok r ->
  r = (Conv2d a k fs ims mode, s)
  /\ sh1 ims = sh1 fs
  /\ 0 < out_size mode (sh2 ims) (sh2 fs)
  /\ 0 < out_size mode (sh3 ims) (sh3 fs)
  /\ ndim_of s a = Some 4%nat
  /\ ndim_of s k = Some 4%nat.
Proof.
  unfold conv_conv2d. repeat case_decide; try discriminate.
  intros [= <-]. tauto.
Qed.

(** conv2d on an argument that is not four-dimensional: TypeError, once
    the declared shapes have passed. *)
Lemma conv_conv2d_TypeError a k fs ims mode s :
  sh1 ims = sh1 fs ->
  0 < out_size mode (sh2 ims) (sh2 fs) ->
  0 < out_size mode (sh3 ims) (sh3 fs) ->
  ndim_of s a <> Some 4%nat ->
  conv_conv2d a k fs ims mode s = Raise TypeError.
Proof.
  intros Hc Hh Hw Ha. unfold conv_conv2d.
  rewrite !decide_True by auto. rewrite decide_False by tauto. reflexivity.
Qed.

(** ** Propagation *)

Section Propagation.

Variable self : CRBM.
Variable s0 : gmap positive vobj.

Hypothesis Hinv : crbm_inv self.
Hypothesis Hfit : filter_fits self.
Hypothesis Hpt : params_typed s0 self.

Lemma params_typed_grows s : grows s0 s -> params_typed s self.
Proof.
  intros G. destruct Hpt as (HW & Hhb & Hvb).
  repeat split; eapply ndim_of_grows; eassumption.
Qed.

Lemma conv_upward_run v s :
  grows s0 s ->
  ndim_of s v = Some 4%nat ->
  conv_upward self v s = Ok (upward_graph self v, s).
Proof.
  intros G Hv. destruct (params_typed_grows s G) as (HW & Hhb & _).
  destruct Hinv as (_ & Hch & _ & _). destruct Hfit as [Hh Hw].
  unfold conv_upward.
  rewrite (bind_ok _ _ _ _ _
             (conv_conv2d_run v (Var (W self)) (FS self) (IS self) valid s
                Hch ltac:(simpl; lia) ltac:(simpl; lia) Hv HW)).
  rewrite (bind_ok _ _ _ _ _
             (TT_dimshuffle_run _ _ s 1 Hhb
                (proj2 (dimshuffle_ok_bias 1) eq_refl))).
  reflexivity.
Qed.

Lemma conv_downward_run h s :
  grows s0 s ->
  ndim_of s h = Some 4%nat ->
  conv_downward self h s = Ok (downward_graph self h, s).
Proof.
  intros G Hh. destruct (params_typed_grows s G) as (HW & _ & Hvb).
  destruct Hinv as (_ & Hch & HFSinv & HISinv). destruct Hfit as [Hfh Hfw].
  unfold conv_downward.
  rewrite (bind_ok _ _ _ _ _
             (TT_dimshuffle_run _ _ s 4 HW
                (proj2 (dimshuffle_ok_swap 4) eq_refl))).
  set (w := Subtensor _ [IAll; IAll; IRev; IRev]).
  assert (ndim_of s w = Some 4%nat) as Hw.
  { unfold w. cbn [ndim_of] in HW |- *. rewrite HW. reflexivity. }
  assert (sh1 (ISinv self) = sh1 (FSinv self)) as Hc.
  { rewrite HFSinv, HISinv. reflexivity. }
  assert (0 < out_size full (sh2 (ISinv self)) (sh2 (FSinv self))) as Ho2.
  { rewrite HFSinv, HISinv. cbn. lia. }
  assert (0 < out_size full (sh3 (ISinv self)) (sh3 (FSinv self))) as Ho3.
  { rewrite HFSinv, HISinv. cbn. lia. }
  rewrite (bind_ok _ _ _ _ _
             (conv_conv2d_run h w (FSinv self) (ISinv self) full s
                Hc Ho2 Ho3 Hh Hw)).
  rewrite (bind_ok _ _ _ _ _
             (TT_dimshuffle_run _ _ s 1 Hvb
                (proj2 (dimshuffle_ok_bias 1) eq_refl))).
  reflexivity.
Qed.

Lemma ndim_upward_graph v s :
  grows s0 s -> ndim_of s (upward_graph self v) = Some 4%nat.
Proof.
  intros G. destruct (params_typed_grows s G) as (_ & Hhb & _).
  unfold upward_graph. cbn [ndim_of] in Hhb |- *. rewrite Hhb. reflexivity.
Qed.

Lemma ndim_downward_graph h s :
  grows s0 s -> ndim_of s (downward_graph self h) = Some 4%nat.
Proof.
  intros G. destruct (params_typed_grows s G) as (_ & _ & Hvb).
  unfold downward_graph. cbn [ndim_of] in Hvb |- *. rewrite Hvb. reflexivity.
Qed.

Lemma ndim_draw st m s n :
  ndim_of s m = Some n -> ndim_of s (draw st m) = Some n.
Proof. intros H. exact H. Qed.

Lemma free_energy_run v s :
  grows s0 s ->
  ndim_of s v = Some 4%nat ->
  free_energy self v s = Ok (free_energy_graph self v, s).
Proof.
  intros G Hv. unfold free_energy.
  rewrite (bind_ok _ _ _ _ _ (conv_upward_run v s G Hv)).
  rewrite (bind_ok _ _ _ _ _
             (TT_sum_run (Softplus (upward_graph self v)) [1; 2; 3]%nat s 4
                (ndim_upward_graph v s G)
                ltac:(repeat constructor; lia))).
  rewrite (bind_ok _ _ _ _ _
             (TT_sum_run v [2; 3]%nat s 4 Hv
                ltac:(repeat constructor; lia))).
  reflexivity.
Qed.

Lemma propup_run v s :
  grows s0 s ->
  ndim_of s v = Some 4%nat ->
  propup self v s
  = Ok ((upward_graph self v, Sigmoid (upward_graph self v)), s).
Proof.
  intros G Hv. unfold propup.
  rewrite (bind_ok _ _ _ _ _ (conv_upward_run v s G Hv)). reflexivity.
Qed.

Lemma propdown_run h s :
  grows s0 s ->
  ndim_of s h = Some 4%nat ->
  propdown self h s
  = Ok ((downward_graph self h, Sigmoid (downward_graph self h)), s).
Proof.
  intros G Hh. unfold propdown.
  rewrite (bind_ok _ _ _ _ _ (conv_downward_run h s G Hh)). reflexivity.
Qed.

End Propagation.

Lemma input_typed self s0 s :
  well_typed s0 self -> grows s0 s -> ndim_of s (input self) = Some 4%nat.
Proof. intros Hty G. eapply ndim_of_grows; [exact G | apply Hty]. Qed.

Lemma get_reconstruction_cost_run self u p s :
  ndim_of s (input self) = Some 4%nat ->
  ndim_of s p = Some 4%nat ->
  get_reconstruction_cost self u p s = Ok (reconstruction_graph self p, s).
Proof.
  intros Hin Hp. unfold get_reconstruction_cost.
  match goal with
  | |- context [TT_sum ?a ?ax] =>
      rewrite (bind_ok _ _ _ _ _ (TT_sum_run a ax s 4
                 ltac:(cbn [ndim_of]; rewrite Hin, Hp; reflexivity)
                 ltac:(repeat constructor; lia)))
  end.
  reflexivity.
Qed.

(** ** Sampling *)

Section Sampling.

Variable self : CRBM.
Variable rng : RandomStreams.
Variable s0 : gmap positive vobj.

Hypothesis Hrng : theano_rng self = Some rng.
Hypothesis Hinv : crbm_inv self.
Hypothesis Hfit : filter_fits self.
Hypothesis Hpt : params_typed s0 self.

Lemma sample_h_given_v_run v s :
  grows s0 s ->
  ndim_of s v = Some 4%nat ->
  sample_h_given_v self v s
  = Ok ((upward_graph self v, Sigmoid (upward_graph self v),
         draw (fresh (dom s)) (Sigmoid (upward_graph self v))),
        <[fresh (dom s) := RandomStateVariable (rs_seed rng)]> s).
Proof.
  intros G Hv. unfold sample_h_given_v.
  rewrite (bind_ok _ _ _ _ _ (propup_run self s0 Hinv Hfit Hpt v s G Hv)).
  unfold theano_rng_binomial. rewrite Hrng. reflexivity.
Qed.

Lemma sample_v_given_h_run h s :
  grows s0 s ->
  ndim_of s h = Some 4%nat ->
  sample_v_given_h self h s
  = Ok ((downward_graph self h, Sigmoid (downward_graph self h),
         draw (fresh (dom s)) (Sigmoid (downward_graph self h))),
        <[fresh (dom s) := RandomStateVariable (rs_seed rng)]> s).
Proof.
  intros G Hh. unfold sample_v_given_h.
  rewrite (bind_ok _ _ _ _ _ (propdown_run self s0 Hinv Hfit Hpt h s G Hh)).
  unfold theano_rng_binomial. rewrite Hrng. reflexivity.
Qed.

(** The samples are four-dimensional, like the activations that give their
    probabilities. *)
Lemma ndim_draw_upward st v s :
  grows s0 s ->
  ndim_of s (draw st (Sigmoid (upward_graph self v))) = Some 4%nat.
Proof. intros G. exact (ndim_upward_graph self s0 Hpt v s G). Qed.

Lemma ndim_draw_downward st h s :
  grows s0 s ->
  ndim_of s (draw st (Sigmoid (downward_graph self h))) = Some 4%nat.
Proof. intros G. exact (ndim_downward_graph self s0 Hpt h s G). Qed.

(** One step of Gibbs sampling from a four-dimensional hidden state: two
    new streams, the first for the visible units. *)
Lemma gibbs_hvh_run h s :
  grows s0 s ->
  ndim_of s h = Some 4%nat ->
  gibbs_hvh self h s
  = Ok (step_outputs
          (hvh_step self (fresh (dom s))
             (fresh (dom (<[fresh (dom s)
                            := RandomStateVariable (rs_seed rng)]> s))) h),
        <[fresh (dom (<[fresh (dom s)
                        := RandomStateVariable (rs_seed rng)]> s))
          := RandomStateVariable (rs_seed rng)]>
          (<[fresh (dom s) := RandomStateVariable (rs_seed rng)]> s)).
Proof.
  intros G Hh. unfold gibbs_hvh.
  rewrite (bind_ok _ _ _ _ _ (sample_v_given_h_run h s G Hh)).
  cbv beta iota.
  set (st_v := fresh (dom s)).
  set (s1 := <[st_v := RandomStateVariable (rs_seed rng)]> s).
  assert (grows s0 s1) as G1.
  { eapply grows_trans; [exact G | apply grows_alloc]. }
  rewrite (bind_ok _ _ _ _ _
             (sample_h_given_v_run _ s1 G1
                (ndim_draw_downward st_v h s1 G1))).
  reflexivity.
Qed.

Lemma gibbs_vhv_run v s :
  grows s0 s ->
  ndim_of s v = Some 4%nat ->
  let st_h := fresh (dom s) in
  let s1 := <[st_h := RandomStateVariable (rs_seed rng)]> s in
  let st_v := fresh (dom s1) in
  let h := draw st_h (Sigmoid (upward_graph self v)) in
  gibbs_vhv self v s
  = Ok ([upward_graph self v; Sigmoid (upward_graph self v); h;
         downward_graph self h; Sigmoid (downward_graph self h);
         draw st_v (Sigmoid (downward_graph self h))],
        <[st_v := RandomStateVariable (rs_seed rng)]> s1).
Proof.
  intros G Hv st_h s1 st_v h. unfold gibbs_vhv.
  rewrite (bind_ok _ _ _ _ _ (sample_h_given_v_run v s G Hv)).
  cbv beta iota. fold st_h s1 h.
  assert (grows s0 s1) as G1.
  { eapply grows_trans; [exact G | apply grows_alloc]. }
  rewrite (bind_ok _ _ _ _ _
             (sample_v_given_h_run h s1 G1 (ndim_draw_upward st_h v s1 G1))).
  reflexivity.
Qed.

End Sampling.

(** ** The meaning of the scan over [gibbs_hvh] *)

Lemma streams_upward self v :
  streams (upward_graph self v) = streams v.
Proof.
  unfold upward_graph. cbn [streams].
  rewrite !(right_id_L ∅ (∪)). reflexivity.
Qed.

Lemma streams_downward self h :
  streams (downward_graph self h) = streams h.
Proof.
  unfold downward_graph. cbn [streams].
  rewrite !(right_id_L ∅ (∪)). reflexivity.
Qed.

Lemma streams_hvh_step self st_v st_h h :
  ⋃ (streams <$> step_outputs (hvh_step self st_v st_h h))
  = {[st_v; st_h]} ∪ streams h.
Proof.
  unfold step_outputs, hvh_step, draw.
  cbn [pre_sigmoid_v v_mean v_sample pre_sigmoid_h h_mean h_sample
       fmap list_fmap union_list foldr streams].
  rewrite !streams_upward. cbn [streams]. rewrite !streams_downward.
  apply set_eq. intros y.
  rewrite ?elem_of_union, ?elem_of_empty, ?elem_of_singleton. tauto.
Qed.

Section Substitution.

Variable self : CRBM.
Variable h : positive.
Variable x : expr.

Hypothesis HhW : h <> W self.
Hypothesis Hhhb : h <> hbias self.
Hypothesis Hhvb : h <> vbias self.

Lemma subst_param p : p <> h -> subst {[h := x]} (Var p) = Var p.
Proof.
  intros Hp. cbn [subst]. rewrite lookup_singleton_ne by congruence.
  reflexivity.
Qed.

Lemma subst_upward v :
  subst {[h := x]} (upward_graph self v)
  = upward_graph self (subst {[h := x]} v).
Proof.
  unfold upward_graph.
  change (subst {[h := x]} (Add ?a ?b))
    with (Add (subst {[h := x]} a) (subst {[h := x]} b)).
  change (subst {[h := x]} (Conv2d ?a ?b ?f ?i ?m))
    with (Conv2d (subst {[h := x]} a) (subst {[h := x]} b) f i m).
  change (subst {[h := x]} (DimShuffle ?a ?p))
    with (DimShuffle (subst {[h := x]} a) p).
  rewrite !subst_param by congruence. reflexivity.
Qed.

Lemma subst_downward v :
  subst {[h := x]} (downward_graph self v)
  = downward_graph self (subst {[h := x]} v).
Proof.
  unfold downward_graph.
  change (subst {[h := x]} (Add ?a ?b))
    with (Add (subst {[h := x]} a) (subst {[h := x]} b)).
  change (subst {[h := x]} (Conv2d ?a ?b ?f ?i ?m))
    with (Conv2d (subst {[h := x]} a) (subst {[h := x]} b) f i m).
  change (subst {[h := x]} (Subtensor ?a ?p))
    with (Subtensor (subst {[h := x]} a) p).
  change (subst {[h := x]} (DimShuffle ?a ?p))
    with (DimShuffle (subst {[h := x]} a) p).
  rewrite !subst_param by congruence. reflexivity.
Qed.

Lemma subst_draw st m :
  subst {[h := x]} (draw st m) = draw st (subst {[h := x]} m).
Proof. reflexivity. Qed.

Lemma subst_sigmoid m :
  subst {[h := x]} (Sigmoid m) = Sigmoid (subst {[h := x]} m).
Proof. reflexivity. Qed.

(** The graphs of a step are those of the step function at the variable
    that stands for its argument: replacing the variable by a hidden state
    gives the step from that state. *)
Lemma subst_hvh_step st_v st_h :
  subst {[h := x]} <$> step_outputs (hvh_step self st_v st_h (Var h))
  = step_outputs (hvh_step self st_v st_h x).
Proof.
  unfold step_outputs, hvh_step.
  cbn [pre_sigmoid_v v_mean v_sample pre_sigmoid_h h_mean h_sample
       fmap list_fmap].
  rewrite !subst_draw, !subst_sigmoid, !subst_upward, !subst_draw,
    !subst_sigmoid, !subst_downward.
  cbn [subst]. rewrite lookup_singleton_eq. reflexivity.
Qed.

End Substitution.

Lemma unroll_gibbs self h st_v st_h :
  h <> W self -> h <> hbias self -> h <> vbias self ->
  forall n x,
    unroll [h] (step_outputs (hvh_step self st_v st_h (Var h))) [5%nat] [x] n
    = step_outputs <$> gibbs_chain self st_v st_h x n.
Proof.
  intros HW Hhb Hvb. induction n as [|n IH]; intros x; [reflexivity|].
  cbn [unroll gibbs_chain fmap list_fmap zip zip_with list_to_map foldr].
  change (<[h := x]> ∅ : gmap positive expr) with ({[h := x]} : gmap positive expr).
  rewrite (subst_hvh_step self h x HW Hhb Hvb).
  f_equal. apply IH.
Qed.

Lemma mapM_step_outputs (f : gibbs_step -> expr) i chain :
  (forall g, step_outputs g !! i = Some (f g)) ->
  mapM (fun step : list expr => step !! i) (step_outputs <$> chain)
  = Some (f <$> chain).
Proof.
  intros Hf. apply mapM_Some.
  induction chain as [|g chain IH]; simpl; constructor; auto.
Qed.

Lemma length_gibbs_chain self st_v st_h k :
  forall h0, length (gibbs_chain self st_v st_h h0 k) = k.
Proof. induction k as [|k IH]; intros h0; simpl; [|rewrite IH]; reflexivity. Qed.

(** ** The update dictionary of the parameters *)

Lemma param_updates_lookup lr cost cc ps (u : gmap positive expr) p :
  param_updates lr (TT_grad cost ps cc) ps u !! p
  = if decide (p ∈ ps) then Some (param_rule lr cost cc p) else u !! p.
Proof.
  unfold param_updates, TT_grad. revert u.
  induction ps as [|a ps IH]; intros u; simpl.
  - reflexivity.
  - rewrite IH. destruct (decide (a = p)) as [->|Hne].
    + rewrite lookup_insert_eq.
      rewrite (decide_True (P := p ∈ p :: ps)); [|apply elem_of_cons; auto].
      case_decide; reflexivity.
    + rewrite lookup_insert_ne; [|exact Hne].
      destruct (decide (p ∈ ps)) as [Hin|Hnin].
      * rewrite decide_True; [reflexivity | apply elem_of_cons; auto].
      * rewrite decide_False; [reflexivity|].
        apply not_elem_of_cons. auto.
Qed.

Lemma param_updates_dom lr cost cc ps (u : gmap positive expr) :
  dom (param_updates lr (TT_grad cost ps cc) ps u) = list_to_set ps ∪ dom u.
Proof.
  apply set_eq. intros p. rewrite elem_of_dom, param_updates_lookup.
  rewrite elem_of_union, elem_of_list_to_set, elem_of_dom.
  case_decide as Hd; split; intros Hp; eauto.
  destruct Hp as [Hp|Hp]; [contradiction | exact Hp].
Qed.

(** The updates that a scan over the graphs of a Gibbs step returns. *)
Lemma scan_updates_of_gibbs self node st_v st_h h :
  st_v <> st_h ->
  scan_updates_of node (step_outputs (hvh_step self st_v st_h (Var h)))
  = {[st_v := node (SShared st_v); st_h := node (SShared st_h)]}.
Proof.
  intros Hne. unfold scan_updates_of. rewrite streams_hvh_step.
  apply map_eq. intros i.
  destruct ((({[st_v := node (SShared st_v); st_h := node (SShared st_h)]}
               : gmap positive expr) !! i)) as [e|] eqn:E.
  - apply lookup_set_to_map; [intros ? ? _ _ [=]; congruence|].
    apply lookup_insert_Some in E as [[<- <-]|[Hi E]].
    + exists st_v. split; [|reflexivity].
      rewrite !elem_of_union, !elem_of_singleton. auto.
    + apply lookup_singleton_Some in E as [<- <-].
      exists st_h. split; [|reflexivity].
      rewrite !elem_of_union, !elem_of_singleton. auto.
  - apply eq_None_not_Some. intros [e He].
    apply lookup_set_to_map in He as (y & Hy & [= <- <-]);
      [|intros ? ? _ _ [=]; congruence].
    cbn [streams] in Hy.
    rewrite !elem_of_union, !elem_of_singleton, elem_of_empty in Hy.
    destruct Hy as [[-> | ->]|[]].
    + rewrite lookup_insert_eq in E. discriminate.
    + rewrite lookup_insert_ne, lookup_singleton_eq in E by congruence.
      discriminate.
Qed.

(** ** The scan over [gibbs_hvh] *)

Lemma grows_chain_store rng s start : grows s (chain_store rng s start).
Proof.
  unfold chain_store, chain_s_v.
  eapply grows_trans; [|apply grows_alloc].
  eapply grows_trans; [|apply grows_alloc].
  apply grows_alloc.
Qed.

Lemma steps_of_chain_outputs self k h st_v st_h start :
  h <> W self -> h <> hbias self -> h <> vbias self ->
  Forall2 (fun o f =>
             steps_of o = Some (f <$> gibbs_chain self st_v st_h start k))
          (chain_outputs self k h st_v st_h start) step_fields.
Proof.
  intros HW Hhb Hvb. unfold chain_outputs, step_fields.
  destruct (decide (k = 1%nat)) as [->|Hk].
  - cbn. repeat constructor.
  - cbn [fmap list_fmap seq]. unfold chain_loop.
    repeat constructor; cbn [steps_of];
      rewrite (unroll_gibbs self h st_v st_h HW Hhb Hvb);
      apply mapM_step_outputs; reflexivity.
Qed.

Section Scan.

Variable self : CRBM.
Variable rng : RandomStreams.
Variable s0 : gmap positive vobj.

Hypothesis Hrng : theano_rng self = Some rng.
Hypothesis Hinv : crbm_inv self.
Hypothesis Hfit : filter_fits self.
Hypothesis Hpt : params_typed s0 self.

Lemma fresh_alloc_ne (s : gmap positive vobj) o :
  fresh (dom s) <> fresh (dom (<[fresh (dom s) := o]> s)).
Proof.
  intros E. pose proof (is_fresh (dom (<[fresh (dom s) := o]> s))) as Hf.
  rewrite <- E in Hf. apply Hf.
  rewrite dom_insert_L. apply elem_of_union_l, elem_of_singleton.
  reflexivity.
Qed.

(** [theano.scan] over [gibbs_hvh] from a four-dimensional state, for every
    number of steps.  For one step the step function is applied to the
    initial state itself; otherwise it is applied, once, to the new
    variable. *)
Lemma theano_scan_gibbs start k s :
  grows s0 s ->
  ndim_of s start = Some 4%nat ->
  theano_scan (unary (gibbs_hvh self))
    [None; None; None; None; None; Some start] k s
  = Ok ((chain_outputs self k (fresh (dom s)) (chain_st_v s start)
           (chain_st_h rng s start) start,
         chain_updates self k (fresh (dom s)) (chain_st_v s start)
           (chain_st_h rng s start) start),
        chain_store rng s start).
Proof.
  intros G Hst.
  unfold theano_scan, chain_outputs, chain_updates, chain_store, chain_st_h,
    chain_s_v, chain_st_v, chain_s_h, scan_placeholder.
  change (initial_state _) with [start].
  set (h := fresh (dom s)).
  set (s_h := <[h := TensorVariable _ 4]> s).
  assert (for_each scan_argument [start] s = Ok ([h], s_h)) as Harg.
  { cbn [for_each]. unfold bind, scan_argument, alloc, ret.
    rewrite Hst. reflexivity. }
  rewrite (bind_ok _ _ _ _ _ Harg).
  assert (grows s s_h) as Gh by apply grows_alloc.
  assert (grows s0 s_h) as G1.
  { eapply grows_trans; [exact G | exact Gh]. }
  destruct (decide (k = 1%nat)) as [->|Hk].
  - cbn [unary].
    assert (ndim_of s_h start = Some 4%nat) as Hst'.
    { apply (ndim_of_grows s s_h Gh), Hst. }
    rewrite (bind_ok _ _ _ _ _
               (gibbs_hvh_run self rng s0 Hrng Hinv Hfit Hpt start s_h G1
                  Hst')).
    reflexivity.
  - cbn [fmap list_fmap unary].
    assert (ndim_of s_h (Var h) = Some 4%nat) as Hh.
    { cbn [ndim_of]. unfold s_h. rewrite lookup_insert_eq. reflexivity. }
    rewrite (bind_ok _ _ _ _ _
               (gibbs_hvh_run self rng s0 Hrng Hinv Hfit Hpt (Var h) s_h
                  G1 Hh)).
    rewrite decide_True by reflexivity.
    unfold ret. f_equal. f_equal. f_equal.
    change (feedback_positions _) with [5%nat].
    apply (scan_updates_of_gibbs self _ _ _ h).
    apply fresh_alloc_ne.
Qed.

End Scan.

(** ** The two parts of [get_cost_updates] *)

Lemma get_cost_updates_split self lr k persistent s :
  get_cost_updates self lr k persistent s
  = bind (cd_graph self lr k persistent) (cd_monitoring self persistent) s.
Proof.
  unfold get_cost_updates, cd_graph, cd_monitoring, bind.
  destruct (sample_h_given_v self (input self) s) as [[[[pre mean] ph] s1]|e];
    [|reflexivity].
  destruct (theano_scan _ _ k s1) as [[[outs u] s2]|?]; [|reflexivity].
  do 7 (destruct outs as [|? outs]; try reflexivity).
  destruct (free_energy self (input self) s2) as [[fe1 s3]|?];
    [|reflexivity].
  destruct (free_energy self _ s3) as [[fe2 s4]|?]; [|reflexivity].
  destruct persistent; reflexivity.
Qed.

Section CDGraph.

Variable self : CRBM.
Variable rng : RandomStreams.
Variable s : gmap positive vobj.

Hypothesis Hrng : theano_rng self = Some rng.
Hypothesis Hinv : crbm_inv self.
Hypothesis Hfit : filter_fits self.
Hypothesis Hty : well_typed s self.

Lemma ndim_step_outputs st_v st_h h0 s' :
  grows s s' ->
  Forall (fun o => ndim_of s' o = Some 4%nat)
         (step_outputs (hvh_step self st_v st_h h0)).
Proof.
  intros G. unfold step_outputs, hvh_step.
  cbn [pre_sigmoid_v v_mean v_sample pre_sigmoid_h h_mean h_sample].
  set (v := draw st_v (Sigmoid (downward_graph self h0))).
  repeat constructor.
  - exact (ndim_downward_graph self s (proj2 Hty) h0 s' G).
  - exact (ndim_downward_graph self s (proj2 Hty) h0 s' G).
  - exact (ndim_draw_downward self s (proj2 Hty) st_v h0 s' G).
  - exact (ndim_upward_graph self s (proj2 Hty) v s' G).
  - exact (ndim_upward_graph self s (proj2 Hty) v s' G).
  - exact (ndim_draw_upward self s (proj2 Hty) st_h v s' G).
Qed.

(** The last value of every sequence of the chain is four-dimensional. *)
Lemma ndim_chain_outputs k h st_v st_h start s' :
  grows s s' ->
  Forall (fun o => ndim_of s' (last_step o) = Some 4%nat)
         (chain_outputs self k h st_v st_h start).
Proof.
  intros G. unfold chain_outputs. case_decide.
  - apply Forall_fmap.
    eapply Forall_impl; [apply (ndim_step_outputs st_v st_h start s' G)|].
    intros o Ho. unfold compose, last_step. cbn [ndim_of].
    rewrite Ho. reflexivity.
  - pose proof (ndim_step_outputs st_v st_h (Var h) s' G) as Hs.
    unfold step_outputs in Hs.
    repeat match goal with
           | H : Forall _ (_ :: _) |- _ =>
               apply Forall_cons in H; destruct H as [? H]
           end.
    cbn [fmap list_fmap seq]. unfold chain_loop, last_step.
    repeat constructor;
      change (ndim_of s' (Subtensor ?a ?i))
        with (match ndim_of s' a with
              | Some n =>
                  if (length i <=? n)%nat
                  then Some (n - length (filter (fun j => drops_axis j = true)
                                                i))%nat
                  else None
              | None => None
              end);
      rewrite ndim_of_scan_out; unfold step_outputs; cbn [lookup list_lookup];
      cbn [mbind option_bind];
      match goal with
      | H : ndim_of s' ?o = Some 4%nat |- context [ndim_of s' ?o] => rewrite H
      end; reflexivity.
Qed.

Lemma ndim_cd_start persistent :
  (forall p, persistent = Some p -> ndim_of s (Var p) = Some 4%nat) ->
  ndim_of (ph_store rng s) (cd_start self persistent s) = Some 4%nat.
Proof.
  intros Hp. unfold cd_start, ph_store, ph_draw. destruct persistent as [p|].
  - eapply ndim_of_grows; [apply grows_alloc | apply Hp; reflexivity].
  - apply (ndim_draw_upward self s (proj2 Hty)). apply grows_alloc.
Qed.

Lemma chain_outputs_six k h st_v st_h start :
  chain_outputs self k h st_v st_h start
  = (fun i => default (IntConst 0)
                (chain_outputs self k h st_v st_h start !! i))
    <$> seq 0 6.
Proof. unfold chain_outputs. case_decide; reflexivity. Qed.

(** The local variables of [get_cost_updates] after the loop over the
    parameters, for every learning rate, number of steps and persistent
    chain. *)
Lemma cd_graph_run lr k persistent :
  (forall p, persistent = Some p -> ndim_of s (Var p) = Some 4%nat) ->
  sample_h_given_v self (input self) s
  = Ok ((upward_graph self (input self),
         Sigmoid (upward_graph self (input self)), ph_draw self s),
        ph_store rng s)
  /\ theano_scan (unary (gibbs_hvh self))
       [None; None; None; None; None; Some (cd_start self persistent s)] k
       (ph_store rng s)
     = Ok (([pre_sigmoid_nvs (cd_result self rng lr k persistent s);
             nv_means (cd_result self rng lr k persistent s);
             nv_samples (cd_result self rng lr k persistent s);
             pre_sigmoid_nhs (cd_result self rng lr k persistent s);
             nh_means (cd_result self rng lr k persistent s);
             nh_samples (cd_result self rng lr k persistent s)],
            scan_updates (cd_result self rng lr k persistent s)),
           cd_store self rng persistent s)
  /\ cd_graph self lr k persistent s
     = Ok (cd_result self rng lr k persistent s,
           cd_store self rng persistent s).
Proof.
  intros Hp.
  pose proof (sample_h_given_v_run self rng s Hrng Hinv Hfit (proj2 Hty)
                (input self) s (grows_refl s) (proj1 Hty)) as Hph.
  fold (ph_draw self s) (ph_store rng s) in Hph.
  assert (grows s (ph_store rng s)) as G1 by apply grows_alloc.
  pose proof (theano_scan_gibbs self rng s Hrng Hinv Hfit (proj2 Hty)
                (cd_start self persistent s) k (ph_store rng s) G1
                (ndim_cd_start persistent Hp)) as Hscan.
  rewrite chain_outputs_six in Hscan. cbn [fmap list_fmap seq] in Hscan.
  fold (cd_store self rng persistent s) in Hscan.
  split; [exact Hph|]. split; [exact Hscan|].
  unfold cd_graph. rewrite (bind_ok _ _ _ _ _ Hph). cbv beta iota.
  fold (cd_start self persistent s).
  rewrite (bind_ok _ _ _ _ _ Hscan). cbv beta iota.
  assert (grows s (cd_store self rng persistent s)) as G2.
  { eapply grows_trans; [exact G1 | apply grows_chain_store]. }
  rewrite (bind_ok _ _ _ _ _
             (free_energy_run self s Hinv Hfit (proj2 Hty) (input self) _ G2
                (input_typed self s _ Hty G2))).
  pose proof (ndim_chain_outputs k (fresh (dom (ph_store rng s)))
                (chain_st_v (ph_store rng s) (cd_start self persistent s))
                (chain_st_h rng (ph_store rng s)
                   (cd_start self persistent s))
                (cd_start self persistent s) _ G2) as Hnd.
  rewrite chain_outputs_six in Hnd. cbn [fmap list_fmap seq] in Hnd.
  apply Forall_cons in Hnd as [_ Hnd]. apply Forall_cons in Hnd as [_ Hnd].
  apply Forall_cons in Hnd as [Hnd _].
  rewrite (bind_ok _ _ _ _ _
             (free_energy_run self s Hinv Hfit (proj2 Hty) _ _ G2 Hnd)).
  reflexivity.
Qed.

(** A call without a persistent chain returns the reconstruction cost at
    the last pre-sigmoid activation of the visible units. *)
Lemma get_cost_updates_run lr k :
  get_cost_updates self lr k None s
  = Ok ((reconstruction_graph self
           (last_step (pre_sigmoid_nvs (cd_result self rng lr k None s))),
         updates (cd_result self rng lr k None s)),
        cd_store self rng None s).
Proof.
  destruct (cd_graph_run lr k None ltac:(discriminate)) as (_ & _ & Hcd).
  rewrite get_cost_updates_split, (bind_ok _ _ _ _ _ Hcd).
  unfold cd_monitoring.
  assert (grows s (cd_store self rng None s)) as G2.
  { eapply grows_trans; [apply grows_alloc | apply grows_chain_store]. }
  pose proof (ndim_chain_outputs k (fresh (dom (ph_store rng s)))
                (chain_st_v (ph_store rng s) (cd_start self None s))
                (chain_st_h rng (ph_store rng s) (cd_start self None s))
                (cd_start self None s) _ G2) as Hnd.
  rewrite chain_outputs_six in Hnd. cbn [fmap list_fmap seq] in Hnd.
  apply Forall_cons in Hnd as [Hnd _].
  rewrite (bind_ok _ _ _ _ _
             (get_reconstruction_cost_run self _ _ _
                (input_typed self s _ Hty G2) Hnd)).
  reflexivity.
Qed.

End CDGraph.

(** ** Facts about the graph of a CD step *)

Lemma typed_in_dom (s : gmap positive vobj) id n :
  ndim_of s (Var id) = Some n -> id ∈ dom s.
Proof.
  cbn [ndim_of]. intros H. apply elem_of_dom.
  destruct (s !! id); [eauto | discriminate].
Qed.

Lemma fresh_ne_typed (s s' : gmap positive vobj) id n :
  grows s s' -> ndim_of s (Var id) = Some n -> fresh (dom s') <> id.
Proof.
  intros [D _] H E. apply (is_fresh (dom s')). rewrite E.
  apply D. eapply typed_in_dom, H.
Qed.

Lemma last_gibbs_chain self st_v st_h k :
  forall h0, (1 <= k)%nat ->
    is_Some (last (gibbs_chain self st_v st_h h0 k)).
Proof.
  intros h0 Hk.
  destruct (last (gibbs_chain self st_v st_h h0 k)) eqn:E; [eauto|].
  apply last_None in E. apply (f_equal length) in E.
  rewrite length_gibbs_chain in E. simpl in E. lia.
Qed.

(** In every step of a chain the means are the sigmoids of the pre-sigmoid
    activations, which are the downward propagation of the hidden state
    before and the upward propagation of the visible sample. *)
Lemma gibbs_chain_activations self st_v st_h k :
  forall h0,
    Forall (fun g => v_mean g = Sigmoid (pre_sigmoid_v g)
                     /\ h_mean g = Sigmoid (pre_sigmoid_h g)
                     /\ v_sample g = draw st_v (v_mean g)
                     /\ h_sample g = draw st_h (h_mean g)
                     /\ pre_sigmoid_h g = upward_graph self (v_sample g))
           (gibbs_chain self st_v st_h h0 k).
Proof.
  induction k as [|k IH]; intros h0; cbn [gibbs_chain]; constructor.
  - repeat split.
  - apply IH.
Qed.

(** The recurrences of the chain, by position. *)
Lemma gibbs_chain_lookup self st_v st_h k :
  forall h0 i g,
    gibbs_chain self st_v st_h h0 k !! i = Some g ->
    g = hvh_step self st_v st_h
          (match i with
           | O => h0
           | S j =>
               default h0
                 (h_sample <$> gibbs_chain self st_v st_h h0 k !! j)
           end).
Proof.
  induction k as [|k IH]; intros h0 i g; [discriminate|].
  cbn [gibbs_chain]. destruct i as [|i].
  - intros [= <-]. reflexivity.
  - cbn [lookup list_lookup]. intros Hg.
    rewrite (IH _ i g Hg). f_equal.
    destruct i as [|j]; [reflexivity|].
    cbn [lookup list_lookup].
    destruct (gibbs_chain self st_v st_h _ k !! j) as [g'|] eqn:E;
      [reflexivity|].
    exfalso. apply lookup_lt_Some in Hg.
    apply lookup_ge_None in E. lia.
Qed.

(** The paths of a gradient. *)
Lemma reaches_inv cc e d :
  reaches cc e d ->
  (e ∉ cc) /\ (d = e \/ exists a, a ∈ operands e /\ reaches cc a d).
Proof. intros H. inversion H; subst; eauto. Qed.

Lemma reaches_blocked e d : ~ reaches [e] e d.
Proof.
  intros H. apply reaches_inv in H as [Hn _]. apply Hn.
  apply list_elem_of_singleton. reflexivity.
Qed.

(** A sampling node below the free energy of [v] is below [v]. *)
Lemma reaches_free_energy cc self v d :
  reaches cc (free_energy_graph self v) d -> samples d -> reaches cc v d.
Proof.
  intros H Hd. unfold free_energy_graph, upward_graph in H.
  reach_step reaches_inv H.
  - do 4 reach_step reaches_inv H.
    + reach_step reaches_inv H; [exact H|]. reach_step reaches_inv H.
    + reach_step reaches_inv H. reach_step reaches_inv H.
  - reach_step reaches_inv H.
    + reach_step reaches_inv H. exact H.
    + reach_step reaches_inv H.
Qed.

Lemma reaches_cd_cost self c d :
  reaches [c] (cd_cost self c) d -> samples d ->
  reaches [c] (input self) d.
Proof.
  intros H Hd. unfold cd_cost in H.
  reach_step reaches_inv H.
  - reach_step reaches_inv H. apply (reaches_free_energy _ _ _ _ H Hd).
  - reach_step reaches_inv H. apply reaches_free_energy in H; [|exact Hd].
    exfalso. exact (reaches_blocked _ _ H).
Qed.

Lemma reaches_operand_here cc e a :
  e ∉ cc -> a ∉ cc -> a ∈ operands e -> reaches cc e a.
Proof.
  intros He Ha Hin. eapply reaches_operand; [exact He | exact Hin|].
  apply reaches_here, Ha.
Qed.

(** The end of the chain contains a sampling node: the visible draw of the
    step, or the loop. *)
Lemma chain_end_samples self k h st_v st_h start :
  exists d,
    samples d
    /\ reaches []
         (last_step
            (default (IntConst 0)
               (chain_outputs self k h st_v st_h start !! 2%nat))) d.
Proof.
  unfold chain_outputs, last_step. case_decide.
  - eexists. split; [|].
    2:{ cbn [fmap list_fmap step_outputs lookup list_lookup default
             v_sample hvh_step].
        eapply reaches_operand; [apply not_elem_of_nil | left |].
        eapply reaches_operand; [apply not_elem_of_nil | left |].
        eapply reaches_operand; [apply not_elem_of_nil | left |].
        apply reaches_here, not_elem_of_nil. }
    exact I.
  - eexists. split; [|].
    2:{ cbn [fmap list_fmap seq lookup list_lookup default].
        eapply reaches_operand; [apply not_elem_of_nil | left |].
        apply reaches_here, not_elem_of_nil. }
    exact I.
Qed.

Section CDFacts.

Variable self : CRBM.
Variable rng : RandomStreams.
Variable s : gmap positive vobj.

Hypothesis Hrng : theano_rng self = Some rng.
Hypothesis Hinv : crbm_inv self.
Hypothesis Hfit : filter_fits self.
Hypothesis Hty : well_typed s self.

(** The meaning of the six sequences: the steps of the chain from
    [chain_start]. *)
Lemma cd_result_steps lr k persistent :
  let l := cd_result self rng lr k persistent s in
  Forall2 (fun o f =>
             steps_of o
             = Some (f <$> gibbs_chain self
                             (chain_st_v (ph_store rng s) (chain_start l))
                             (chain_st_h rng (ph_store rng s)
                                (chain_start l))
                             (chain_start l) k))
          [pre_sigmoid_nvs l; nv_means l; nv_samples l;
           pre_sigmoid_nhs l; nh_means l; nh_samples l]
          step_fields.
Proof.
  intros l. destruct Hty as (_ & HW & Hhb & Hvb).
  assert (grows s (ph_store rng s)) as G by apply grows_alloc.
  pose proof (steps_of_chain_outputs self k (fresh (dom (ph_store rng s)))
                (chain_st_v (ph_store rng s) (chain_start l))
                (chain_st_h rng (ph_store rng s) (chain_start l))
                (chain_start l)
                (fresh_ne_typed _ _ _ _ G HW)
                (fresh_ne_typed _ _ _ _ G Hhb)
                (fresh_ne_typed _ _ _ _ G Hvb)) as H.
  rewrite chain_outputs_six in H. exact H.
Qed.


Lemma grows_cd_store persistent :
  grows s (cd_store self rng persistent s).
Proof.
  eapply grows_trans; [apply grows_alloc | apply grows_chain_store].
Qed.

(** The three streams are new, distinct, and in the store after the
    call. *)
Lemma cd_store_streams persistent :
  let start := cd_start self persistent s in
  let s1 := ph_store rng s in
  let st0 := fresh (dom s) in
  let st_v := chain_st_v s1 start in
  let st_h := chain_st_h rng s1 start in
  (st0 ∉ dom s) /\ (st_v ∉ dom s1) /\ (st_h ∉ dom s1)
  /\ st0 <> st_v /\ st0 <> st_h /\ st_v <> st_h
  /\ Forall (fun st => cd_store self rng persistent s !! st
                       = Some (RandomStateVariable (rs_seed rng)))
            [st0; st_v; st_h].
Proof.
  intros start s1 st0 st_v st_h.
  assert (grows s1 (chain_s_h s1 start)) as G2 by apply grows_alloc.
  assert (grows s1 (chain_s_v rng s1 start)) as G3.
  { eapply grows_trans; [exact G2 | apply grows_alloc]. }
  assert (st0 ∈ dom s1) as H0.
  { unfold s1, ph_store. rewrite dom_insert_L.
    apply elem_of_union_l, elem_of_singleton. reflexivity. }
  assert (st_v ∉ dom s1) as Hv.
  { intros Hin. apply (is_fresh (dom (chain_s_h s1 start))).
    apply G2, Hin. }
  assert (st_h ∉ dom s1) as Hh.
  { intros Hin. apply (is_fresh (dom (chain_s_v rng s1 start))).
    apply G3, Hin. }
  assert (st_v <> st_h) as Hvh by apply fresh_alloc_ne.
  split; [apply is_fresh|]. split; [exact Hv|]. split; [exact Hh|].
  split; [intros E; apply Hv; rewrite <- E; exact H0|].
  split; [intros E; apply Hh; rewrite <- E; exact H0|].
  split; [exact Hvh|].
  unfold cd_store. fold start s1. unfold chain_store.
  repeat constructor.
  - apply (proj2 (grows_trans _ _ _ G3 (grows_alloc _ _))).
    unfold s1, ph_store. apply lookup_insert_eq.
  - fold st_h. rewrite lookup_insert_ne by (intros E; apply Hvh; auto).
    unfold chain_s_v. fold st_v. apply lookup_insert_eq.
  - apply lookup_insert_eq.
Qed.

(** The dictionary after the loop over the parameters. *)
Lemma cd_result_updates lr k persistent id :
  let l := cd_result self rng lr k persistent s in
  updates l !! id
  = if decide (id ∈ params self)
    then Some (param_rule lr (cost l) [chain_end l] id)
    else scan_updates l !! id.
Proof. intros l. apply param_updates_lookup. Qed.

Lemma chain_updates_lookup k h st_v st_h start id e :
  chain_updates self k h st_v st_h start !! id = Some e ->
  k <> 1%nat
  /\ (id = st_v \/ id = st_h)
  /\ e = chain_loop self k h st_v st_h start (SShared id).
Proof.
  unfold chain_updates. case_decide as Hk; [discriminate|].
  intros H. split; [exact Hk|].
  apply lookup_insert_Some in H as [[<- <-]|[Hne H]]; [auto|].
  apply lookup_singleton_Some in H as [<- <-]. auto.
Qed.

End CDFacts.

(** ** The pseudo-likelihood cost *)

Lemma getattr_n_visible self : getattr self "n_visible" = Raise AttributeError.
Proof. reflexivity. Qed.

(** [get_pseudo_likelihood_cost] returns for no CRBM: when both free
    energies are built, reading [n_visible] fails. *)
Lemma get_pseudo_likelihood_cost_fails self u s :
  exists e, get_pseudo_likelihood_cost self u s = Raise e.
Proof.
  unfold get_pseudo_likelihood_cost, theano_shared, alloc, bind.
  destruct (free_energy self (Round (input self)) _) as [[fe1 s1]|e1];
    [|eauto].
  destruct (free_energy self _ s1) as [[fe2 s2]|e2]; [|eauto].
  eexists. reflexivity.
Qed.

Lemma get_pseudo_likelihood_cost_AttributeError self s0 u s :
  crbm_inv self -> filter_fits self -> well_typed s0 self ->
  grows s0 s ->
  get_pseudo_likelihood_cost self u s = Raise AttributeError.
Proof.
  intros Hinv Hfit Hty G. pose proof (proj2 Hty) as Hpt.
  unfold get_pseudo_likelihood_cost.
  unfold theano_shared at 1. unfold alloc at 1.
  unfold bind at 1.
  set (b := fresh (dom s)).
  set (s1 := <[b := SharedVariable "bit_i_idx" _]> s).
  assert (grows s0 s1) as G1.
  { eapply grows_trans; [exact G | apply grows_alloc]. }
  assert (ndim_of s1 (Round (input self)) = Some 4%nat) as Hxi.
  { exact (input_typed self s0 s1 Hty G1). }
  rewrite (bind_ok _ _ _ _ _
             (free_energy_run self s0 Hinv Hfit Hpt _ s1 G1 Hxi)).
  match goal with
  | |- context [free_energy self (SetSubtensor ?a ?i ?v)] =>
      rewrite (bind_ok _ _ _ _ _
                 (free_energy_run self s0 Hinv Hfit Hpt
                    (SetSubtensor a i v) s1 G1 Hxi))
  end.
  reflexivity.
Qed.

(** * The claims about [get_cost_updates] *)

(** C1.  For a CRBM with a random stream whose input and parameters have
    the documented numbers of dimensions and whose filters fit the images
    (otherwise nothing is built: the positive phase raises), and every
    [k >= 1], the cost that [get_cost_updates] builds is the mean free energy
    of the input minus the mean free energy of [chain_end], where
    [chain_end] is [nv_samples[-1]], whose value is the visible sample of the
    last of the [k] steps of the Gibbs chain; the gradients are, parameter
    by parameter, the gradient of this cost with [chain_end] as the only
    expression held constant.  [chain_end] contains the sampling, and every
    path from the cost to a sampling node that does not enter [chain_end]
    lies inside the input: the gradient is not propagated through the Gibbs
    sampling. *)
Theorem cd_cost_and_gradients self rng lr k persistent s :
  theano_rng self = Some rng ->
  crbm_inv self ->
  filter_fits self ->
  well_typed s self ->
  (forall p, persistent = Some p -> ndim_of s (Var p) = Some 4%nat) ->
  (1 <= k)%nat ->
  exists l s' st_v st_h g,
    cd_graph self lr k persistent s = Ok (l, s')
    /\ get_cost_updates self lr k persistent s
       = cd_monitoring self persistent l s'
    /\ chain_end l = last_step (nv_samples l)
    /\ steps_of (nv_samples l)
       = Some (v_sample <$> gibbs_chain self st_v st_h (chain_start l) k)
    /\ last (gibbs_chain self st_v st_h (chain_start l) k) = Some g
    /\ last_value (chain_end l) = Some (v_sample g)
    /\ free_energy self (input self) s'
       = Ok (free_energy_graph self (input self), s')
    /\ free_energy self (chain_end l) s'
       = Ok (free_energy_graph self (chain_end l), s')
    /\ cost l = Sub (Mean (free_energy_graph self (input self)))
                    (Mean (free_energy_graph self (chain_end l)))
    /\ gparams l = (fun p => Grad (cost l) p [chain_end l]) <$> params self
    /\ (exists d, samples d /\ reaches [] (chain_end l) d)
    /\ (forall d, reaches [chain_end l] (cost l) d -> samples d ->
                  reaches [chain_end l] (input self) d).
Proof.
  intros Hrng Hinv Hfit Hty Hp Hk.
  destruct (cd_graph_run self rng s Hrng Hinv Hfit Hty lr k persistent Hp)
    as (_ & _ & Hcd).
  pose proof (cd_result_steps self rng s Hty lr k persistent) as Hsteps.
  cbv zeta in Hsteps. unfold step_fields in Hsteps.
  apply Forall2_cons in Hsteps as [_ Hsteps].
  apply Forall2_cons in Hsteps as [_ Hsteps].
  apply Forall2_cons in Hsteps as [Hnv _].
  set (l := cd_result self rng lr k persistent s) in *.
  set (s' := cd_store self rng persistent s) in *.
  set (st_v := chain_st_v (ph_store rng s) (chain_start l)) in *.
  set (st_h := chain_st_h rng (ph_store rng s) (chain_start l)) in *.
  destruct (last_gibbs_chain self st_v st_h k (chain_start l) Hk) as [g Hg].
  assert (grows s s') as G by apply grows_cd_store.
  assert (ndim_of s' (chain_end l) = Some 4%nat) as Hend.
  { pose proof (ndim_chain_outputs self s Hty k
                  (fresh (dom (ph_store rng s))) st_v st_h (chain_start l)
                  s' G) as Hnd.
    rewrite chain_outputs_six in Hnd. cbn [fmap list_fmap seq] in Hnd.
    apply Forall_cons in Hnd as [_ Hnd]. apply Forall_cons in Hnd as [_ Hnd].
    apply Forall_cons in Hnd as [Hnd _]. exact Hnd. }
  exists l, s', st_v, st_h, g.
  split; [exact Hcd|].
  split; [rewrite get_cost_updates_split, (bind_ok _ _ _ _ _ Hcd);
          reflexivity|].
  split; [reflexivity|]. split; [exact Hnv|]. split; [exact Hg|].
  split.
  { change (chain_end l) with (last_step (nv_samples l)).
    unfold last_step, last_value. rewrite Hnv. cbn [mbind option_bind].
    rewrite fmap_last, Hg. reflexivity. }
  split; [apply (free_energy_run self s Hinv Hfit (proj2 Hty) _ s' G),
            (input_typed self s s' Hty G)|].
  split; [apply (free_energy_run self s Hinv Hfit (proj2 Hty) _ s' G), Hend|].
  split; [reflexivity|]. split; [reflexivity|].
  split; [apply chain_end_samples|].
  intros d Hd Hs. exact (reaches_cd_cost self (chain_end l) d Hd Hs).
Qed.

(** C3.  [get_cost_updates] scans [gibbs_hvh] with [n_steps=k]; the chain
    starts from the hidden sample of the positive phase when [persistent] is
    [None], and from the persistent variable when it is given.  The six
    sequences that the scan returns have [k] steps each, and their steps are
    those of the Gibbs chain from [chain_start]: every step is the graph that
    [gibbs_hvh] builds, the visible units drawn given the hidden state, then
    the hidden units given that sample, which is the hidden state of the
    next step.  The CRBM has a random stream, variables of the documented
    numbers of dimensions and filters that fit (otherwise the positive phase
    raises), and the persistent variable is four-dimensional (otherwise the
    scan raises). *)
Theorem cd_gibbs_chain self rng lr k persistent s :
  theano_rng self = Some rng ->
  crbm_inv self ->
  filter_fits self ->
  well_typed s self ->
  (forall p, persistent = Some p -> ndim_of s (Var p) = Some 4%nat) ->
  exists pre_sigmoid_ph ph_mean l s1 s' st_v st_h,
    sample_h_given_v self (input self) s
    = Ok ((pre_sigmoid_ph, ph_mean, ph_sample l), s1)
    /\ chain_start l = match persistent with
                       | None => ph_sample l
                       | Some p => Var p
                       end
    /\ theano_scan (unary (gibbs_hvh self))
         [None; None; None; None; None; Some (chain_start l)] k s1
       = Ok (([pre_sigmoid_nvs l; nv_means l; nv_samples l;
               pre_sigmoid_nhs l; nh_means l; nh_samples l],
              scan_updates l), s')
    /\ cd_graph self lr k persistent s = Ok (l, s')
    /\ get_cost_updates self lr k persistent s
       = cd_monitoring self persistent l s'
    /\ length (gibbs_chain self st_v st_h (chain_start l) k) = k
    /\ steps_of (pre_sigmoid_nvs l)
       = Some (pre_sigmoid_v <$> gibbs_chain self st_v st_h (chain_start l) k)
    /\ steps_of (nv_means l)
       = Some (v_mean <$> gibbs_chain self st_v st_h (chain_start l) k)
    /\ steps_of (nv_samples l)
       = Some (v_sample <$> gibbs_chain self st_v st_h (chain_start l) k)
    /\ steps_of (pre_sigmoid_nhs l)
       = Some (pre_sigmoid_h <$> gibbs_chain self st_v st_h (chain_start l) k)
    /\ steps_of (nh_means l)
       = Some (h_mean <$> gibbs_chain self st_v st_h (chain_start l) k)
    /\ steps_of (nh_samples l)
       = Some (h_sample <$> gibbs_chain self st_v st_h (chain_start l) k)
    /\ (forall h0 t,
          grows s t -> ndim_of t h0 = Some 4%nat ->
          exists a b t',
            gibbs_hvh self h0 t = Ok (step_outputs (hvh_step self a b h0), t')
            /\ a <> b
            /\ sample_v_given_h self h0 t
               = Ok ((pre_sigmoid_v (hvh_step self a b h0),
                      v_mean (hvh_step self a b h0),
                      v_sample (hvh_step self a b h0)),
                     <[a := RandomStateVariable (rs_seed rng)]> t)
            /\ sample_h_given_v self (v_sample (hvh_step self a b h0))
                 (<[a := RandomStateVariable (rs_seed rng)]> t)
               = Ok ((pre_sigmoid_h (hvh_step self a b h0),
                      h_mean (hvh_step self a b h0),
                      h_sample (hvh_step self a b h0)), t')).
Proof.
  intros Hrng Hinv Hfit Hty Hp.
  destruct (cd_graph_run self rng s Hrng Hinv Hfit Hty lr k persistent Hp)
    as (Hph & Hscan & Hcd).
  pose proof (cd_result_steps self rng s Hty lr k persistent) as Hsteps.
  cbv zeta in Hsteps. unfold step_fields in Hsteps.
  set (l := cd_result self rng lr k persistent s) in *.
  set (st_v := chain_st_v (ph_store rng s) (chain_start l)) in *.
  set (st_h := chain_st_h rng (ph_store rng s) (chain_start l)) in *.
  repeat match goal with
         | H : Forall2 _ (_ :: _) (_ :: _) |- _ =>
             apply Forall2_cons in H; destruct H as [? H]
         end.
  eexists _, _, l, _, _, st_v, st_h.
  split; [exact Hph|]. split; [destruct persistent; reflexivity|].
  split; [exact Hscan|]. split; [exact Hcd|].
  split; [rewrite get_cost_updates_split, (bind_ok _ _ _ _ _ Hcd);
          reflexivity|].
  split; [apply length_gibbs_chain|].
  do 6 (split; [assumption|]).
  intros h0 t G Hh0.
  eexists _, _, _. split; [|split; [|split]].
  - apply (gibbs_hvh_run self rng s Hrng Hinv Hfit (proj2 Hty) h0 t G Hh0).
  - apply fresh_alloc_ne.
  - apply (sample_v_given_h_run self rng s Hrng Hinv Hfit (proj2 Hty) h0 t G
             Hh0).
  - apply (sample_h_given_v_run self rng s Hrng Hinv Hfit (proj2 Hty)).
    + eapply grows_trans; [exact G | apply grows_alloc].
    + apply (ndim_draw_downward self s (proj2 Hty)).
      eapply grows_trans; [exact G | apply grows_alloc].
Qed.

(** C4.  In a call without a persistent chain, the dictionary that
    [get_cost_updates] returns maps each of [W], [hbias] and [vbias] to its
    old value minus the gradient of the CD cost with respect to it times the
    learning rate cast to [floatX].  Every other key of the dictionary is a
    random-state variable that the call created, so that no other variable
    that existed before the call is modified.  The CRBM has a random stream,
    variables of the documented numbers of dimensions and filters that fit;
    otherwise the call raises and returns no dictionary. *)
Theorem cd_parameter_updates self rng lr k s :
  theano_rng self = Some rng ->
  crbm_inv self ->
  filter_fits self ->
  well_typed s self ->
  exists l monitoring_cost s',
    cd_graph self lr k None s = Ok (l, s')
    /\ get_cost_updates self lr k None s
       = Ok ((monitoring_cost, updates l), s')
    /\ cost l = Sub (Mean (free_energy_graph self (input self)))
                    (Mean (free_energy_graph self (chain_end l)))
    /\ free_energy self (input self) s'
       = Ok (free_energy_graph self (input self), s')
    /\ free_energy self (chain_end l) s'
       = Ok (free_energy_graph self (chain_end l), s')
    /\ (forall p, p ∈ [W self; hbias self; vbias self] ->
          updates l !! p
          = Some (Sub (Var p)
                      (Mul (Grad (cost l) p [chain_end l]) (Cast lr floatX))))
    /\ (forall id, id ∉ [W self; hbias self; vbias self] ->
          is_Some (updates l !! id) ->
          (id ∉ dom s)
          /\ exists seed, s' !! id = Some (RandomStateVariable seed)).
Proof.
  intros Hrng Hinv Hfit Hty.
  destruct (cd_graph_run self rng s Hrng Hinv Hfit Hty lr k None
              ltac:(discriminate)) as (_ & _ & Hcd).
  pose proof (get_cost_updates_run self rng s Hrng Hinv Hfit Hty lr k) as Hrun.
  pose proof (cd_result_updates self rng s lr k None) as Hup.
  cbv zeta in Hup.
  destruct (cd_store_streams self rng s None)
    as (_ & Hv & Hh & _ & _ & _ & Hst).
  apply Forall_cons in Hst as [_ Hst]. apply Forall_cons in Hst as [Hsv Hst].
  apply Forall_cons in Hst as [Hsh _].
  set (l := cd_result self rng lr k None s) in *.
  set (s' := cd_store self rng None s) in *.
  assert (grows s s') as G by apply grows_cd_store.
  assert (ndim_of s' (chain_end l) = Some 4%nat) as Hend.
  { pose proof (ndim_chain_outputs self s Hty k
                  (fresh (dom (ph_store rng s)))
                  (chain_st_v (ph_store rng s) (cd_start self None s))
                  (chain_st_h rng (ph_store rng s) (cd_start self None s))
                  (cd_start self None s) s' G) as Hnd.
    rewrite chain_outputs_six in Hnd. cbn [fmap list_fmap seq] in Hnd.
    apply Forall_cons in Hnd as [_ Hnd]. apply Forall_cons in Hnd as [_ Hnd].
    apply Forall_cons in Hnd as [Hnd _]. exact Hnd. }
  pose proof (proj1 Hinv) as Hparams.
  eexists l, _, s'.
  split; [exact Hcd|]. split; [exact Hrun|]. split; [reflexivity|].
  split; [apply (free_energy_run self s Hinv Hfit (proj2 Hty) _ s' G),
            (input_typed self s s' Hty G)|].
  split; [apply (free_energy_run self s Hinv Hfit (proj2 Hty) _ s' G), Hend|].
  split.
  - intros p Hin. rewrite Hup, Hparams. rewrite decide_True by exact Hin.
    reflexivity.
  - intros id Hnin [e He]. rewrite Hup, Hparams in He.
    rewrite decide_False in He by exact Hnin.
    apply chain_updates_lookup in He as (_ & [-> | ->] & _).
    + split; [|eauto].
      intros Hin. apply Hv. apply (proj1 (grows_alloc s _)), Hin.
    + split; [|eauto].
      intros Hin. apply Hh. apply (proj1 (grows_alloc s _)), Hin.
Qed.

(** C10.  The class never assigns [n_visible], so reading it raises
    AttributeError; [get_pseudo_likelihood_cost] reads it, after it has built
    two free energies, and returns on no call; and for every CRBM, every
    learning rate, every number of steps and every persistent variable,
    [get_cost_updates] with that persistent variable raises: the persistent
    path never returns a cost.  The exception is AttributeError when the
    graph is built up to the read of [n_visible]: the CRBM has a random
    stream, the input, the persistent variable and the parameters have the
    numbers of dimensions that the propagation needs, and the filters fit.
    Otherwise it is the exception of the step that fails first. *)
Theorem pcd_never_returns self lr k p s :
  getattr self "n_visible" = Raise AttributeError
  /\ (forall u t, exists e, get_pseudo_likelihood_cost self u t = Raise e)
  /\ (exists e, get_cost_updates self lr k (Some p) s = Raise e)
  /\ (forall rng,
        theano_rng self = Some rng ->
        crbm_inv self ->
        filter_fits self ->
        well_typed s self ->
        ndim_of s (Var p) = Some 4%nat ->
        get_cost_updates self lr k (Some p) s = Raise AttributeError
        /\ forall u t,
             grows s t ->
             get_pseudo_likelihood_cost self u t = Raise AttributeError).
Proof.
  split; [reflexivity|].
  split; [intros u t; apply get_pseudo_likelihood_cost_fails|].
  split.
  - rewrite get_cost_updates_split. unfold bind.
    destruct (cd_graph self lr k (Some p) s) as [[l s']|e]; [|eauto].
    apply get_pseudo_likelihood_cost_fails.
  - intros rng Hrng Hinv Hfit Hty Hp. split.
    + destruct (cd_graph_run self rng s Hrng Hinv Hfit Hty lr k (Some p))
        as (_ & _ & Hcd).
      { intros q [= <-]. exact Hp. }
      rewrite get_cost_updates_split, (bind_ok _ _ _ _ _ Hcd).
      apply (get_pseudo_likelihood_cost_AttributeError self s _ _ Hinv Hfit Hty).
      apply grows_cd_store.
    + intros u t G.
      apply (get_pseudo_likelihood_cost_AttributeError self s _ _ Hinv Hfit
               Hty G).
Qed.

(** * The constructor *)

Lemma np_zeros_ok n dt :
  0 <= n ->
  np_zeros n dt = Ok (mk_ndarray dt [n] (replicate (Z.to_nat n) (NpDec 0 0))).
Proof. intros Hn. unfold np_zeros. rewrite decide_False by lia. reflexivity. Qed.

Lemma np_zeros_inv n dt z : np_zeros n dt = Ok z -> 0 <= n.
Proof. unfold np_zeros. case_decide; [discriminate | lia]. Qed.

Lemma init_run inp fs ims w0 hb vb nrng trng s :
  sh1 ims = sh1 fs ->
  (w0 = None -> exists g u,
     nrng = Some g
     /\ uniform g (NpNeg (W_bound fs)) (W_bound fs) (shape4_list fs) = Ok u) ->
  (hb = None -> 0 <= sh0 fs) ->
  (vb = None -> 0 <= sh1 fs) ->
  exists self s',
    __init__ inp fs ims w0 hb vb nrng trng s = Ok (self, s')
    /\ grows s s'
    /\ FS self = fs /\ IS self = ims
    /\ theano_rng self = trng
    /\ crbm_inv self
    /\ match inp with
       | Some i => input self = i
       | None => exists id, input self = Var id
                            /\ (id ∉ dom s)
                            /\ s' !! id = Some (TensorVariable "input" 2)
       end
    /\ (forall w, w0 = Some w -> W self = w)
    /\ match hb with
       | Some b => hbias self = b
       | None =>
           (hbias self ∉ dom s)
           /\ s' !! hbias self
              = Some (SharedVariable "hbias"
                        (mk_ndarray floatX [sh0 fs]
                           (replicate (Z.to_nat (sh0 fs)) (NpDec 0 0))))
       end
    /\ match vb with
       | Some b => vbias self = b
       | None =>
           (vbias self ∉ dom s)
           /\ s' !! vbias self
              = Some (SharedVariable "vbias"
                        (mk_ndarray floatX [sh1 fs]
                           (replicate (Z.to_nat (sh1 fs)) (NpDec 0 0))))
       end.
Proof.
  intros Hassert HW Hhb Hvb. unfold __init__.
  rewrite decide_True by exact Hassert.
  (* self.input *)
  assert (exists i s1,
            match inp with None => TT_matrix "input" | Some i => ret i end s
            = Ok (i, s1)
            /\ grows s s1
            /\ match inp with
               | Some i0 => i = i0
               | None => exists id, i = Var id /\ (id ∉ dom s)
                                    /\ s1 !! id = Some (TensorVariable "input" 2)
               end) as (i & s1 & HrunI & G1 & Hi).
  { destruct inp as [i0|].
    - exists i0, s. split; [reflexivity|]. split; [apply grows_refl | reflexivity].
    - eexists _, _. split; [reflexivity|]. split; [apply grows_alloc|].
      eexists. split; [reflexivity|].
      split; [apply is_fresh | apply lookup_insert_eq]. }
  rewrite (bind_ok _ _ _ _ _ HrunI).
  (* W *)
  assert (exists w s2,
            match w0 with
            | None =>
                let W_bound := W_bound fs in
                match nrng with
                | None => raise AttributeError
                | Some g =>
                    u <- lift (uniform g (NpNeg W_bound) W_bound
                                 (shape4_list fs)) ;;
                    theano_shared (np_asarray u floatX) "W"
                end
            | Some w => ret w
            end s1 = Ok (w, s2)
            /\ grows s1 s2
            /\ forall w1, w0 = Some w1 -> w = w1) as (w & s2 & HrunW & G2 & Hw).
  { destruct w0 as [w1|].
    - exists w1, s1. split; [reflexivity|].
      split; [apply grows_refl | congruence].
    - destruct (HW eq_refl) as (g & u & -> & Hu). cbv zeta.
      eexists _, _. split; [|split; [apply grows_alloc | discriminate]].
      unfold bind, lift. rewrite Hu. reflexivity. }
  rewrite (bind_ok _ _ _ _ _ HrunW).
  (* hbias *)
  assert (exists b s3,
            match hb with
            | None => z <- lift (np_zeros (sh0 fs) floatX) ;;
                      theano_shared z "hbias"
            | Some b => ret b
            end s2 = Ok (b, s3)
            /\ grows s2 s3
            /\ match hb with
               | Some b0 => b = b0
               | None =>
                   (b ∉ dom s2)
                   /\ s3 !! b
                      = Some (SharedVariable "hbias"
                                (mk_ndarray floatX [sh0 fs]
                                   (replicate (Z.to_nat (sh0 fs)) (NpDec 0 0))))
               end) as (b & s3 & HrunB & G3 & Hb).
  { destruct hb as [b0|].
    - exists b0, s2. split; [reflexivity|].
      split; [apply grows_refl | reflexivity].
    - eexists _, _. split; [|split; [apply grows_alloc|]].
      + unfold bind, lift. rewrite np_zeros_ok by auto. reflexivity.
      + split; [apply is_fresh | apply lookup_insert_eq]. }
  rewrite (bind_ok _ _ _ _ _ HrunB).
  (* vbias *)
  assert (exists c s4,
            match vb with
            | None => z <- lift (np_zeros (sh1 fs) floatX) ;;
                      theano_shared z "vbias"
            | Some b => ret b
            end s3 = Ok (c, s4)
            /\ grows s3 s4
            /\ match vb with
               | Some c0 => c = c0
               | None =>
                   (c ∉ dom s3)
                   /\ s4 !! c
                      = Some (SharedVariable "vbias"
                                (mk_ndarray floatX [sh1 fs]
                                   (replicate (Z.to_nat (sh1 fs)) (NpDec 0 0))))
               end) as (c & s4 & HrunC & G4 & Hc).
  { destruct vb as [c0|].
    - exists c0, s3. split; [reflexivity|].
      split; [apply grows_refl | reflexivity].
    - eexists _, _. split; [|split; [apply grows_alloc|]].
      + unfold bind, lift. rewrite np_zeros_ok by auto. reflexivity.
      + split; [apply is_fresh | apply lookup_insert_eq]. }
  rewrite (bind_ok _ _ _ _ _ HrunC).
  eexists _, s4. split; [reflexivity|].
  pose proof (grows_trans _ _ _ G1 G2) as G12.
  pose proof (grows_trans _ _ _ G12 G3) as G13.
  pose proof (grows_trans _ _ _ G13 G4) as G14.
  cbn [FS IS theano_rng input W hbias vbias].
  split; [exact G14|]. do 3 (split; [reflexivity|]).
  split; [repeat split; exact Hassert|].
  split.
  { destruct inp; [exact Hi|].
    destruct Hi as (id & -> & Hfresh & Hlook). exists id.
    split; [reflexivity|]. split; [exact Hfresh|].
    apply G4, G3, G2, Hlook. }
  split; [exact Hw|]. split.
  - destruct hb; [exact Hb|]. destruct Hb as [Hfresh Hlook]. split.
    + intros Hin. apply Hfresh. apply G12, Hin.
    + apply G4, Hlook.
  - destruct vb; [exact Hc|]. destruct Hc as [Hfresh Hlook]. split.
    + intros Hin. apply Hfresh. apply G13, Hin.
    + exact Hlook.
Qed.

(** * Properties of the tensor layer *)

Section TensorOps.

Variable F : arith.

Lemma dimshuffle_bias (t : tensor F) n :
  t_dims t = plain [n] ->
  dimshuffle F t [DX; DAxis 0; DX; DX]
  = Some (mk_tensor
            [mk_dim 1 true; mk_dim n false; mk_dim 1 true; mk_dim 1 true]
            (fun idx => t_at t [default 0 (idx !! 1%nat)])).
Proof. intros Hd. unfold dimshuffle. rewrite Hd. reflexivity. Qed.

Lemma dimshuffle_swap (t : tensor F) a b c d :
  t_dims t = plain [a; b; c; d] ->
  dimshuffle F t [DAxis 1; DAxis 0; DAxis 2; DAxis 3]
  = Some (mk_tensor (plain [b; a; c; d])
            (fun idx => t_at t [default 0 (idx !! 1%nat);
                                default 0 (idx !! 0%nat);
                                default 0 (idx !! 2%nat);
                                default 0 (idx !! 3%nat)])).
Proof. intros Hd. unfold dimshuffle. rewrite Hd. reflexivity. Qed.

Lemma subtensor_flip (t : tensor F) a b c d :
  t_dims t = plain [a; b; c; d] ->
  subtensor F t [IAll; IAll; IRev; IRev]
  = Some (mk_tensor (plain [a; b; c; d])
            (fun idx => t_at t (slice_idx (plain [a; b; c; d])
                                  [IAll; IAll; IRev; IRev] idx))).
Proof. intros Hd. unfold subtensor. rewrite Hd. reflexivity. Qed.

(** Adding a bias that was shuffled to [('x', 0, 'x', 'x')] keeps the shape
    of the four-dimensional operand. *)
Lemma binop_bias op (ta tb : tensor F) b f h w :
  t_dims ta = plain [b; f; h; w] ->
  t_dims tb = [mk_dim 1 true; mk_dim f false; mk_dim 1 true; mk_dim 1 true] ->
  exists t, binop F op ta tb = Some t
            /\ t_dims t = plain [b; f; h; w]
            /\ forall n o i j,
                 t_at t [n; o; i; j]
                 = op (t_at ta [n; o; i; j]) (t_at tb [0; o; 0; 0]).
Proof.
  intros Ha Hb. unfold binop. rewrite Ha, Hb.
  cbn [plain fmap list_fmap length Nat.max pad_left Nat.sub replicate app
       bc_dims bc_dim bcast size].
  rewrite decide_True by reflexivity.
  eexists. split; [reflexivity|]. split; reflexivity.
Qed.

Lemma binop_same4 op (ta tb : tensor F) a b c d :
  t_dims ta = plain [a; b; c; d] ->
  t_dims tb = plain [a; b; c; d] ->
  exists t, binop F op ta tb = Some t
            /\ t_dims t = plain [a; b; c; d]
            /\ forall n o i j,
                 t_at t [n; o; i; j]
                 = op (t_at ta [n; o; i; j]) (t_at tb [n; o; i; j]).
Proof.
  intros Ha Hb. unfold binop. rewrite Ha, Hb.
  cbn [plain fmap list_fmap length Nat.max pad_left Nat.sub replicate app
       bc_dims bc_dim bcast size].
  rewrite !decide_True by reflexivity.
  eexists. split; [reflexivity|]. split; reflexivity.
Qed.

Lemma binop_const4 op (ta tb : tensor F) a b c d :
  t_dims ta = [] ->
  t_dims tb = plain [a; b; c; d] ->
  exists t, binop F op ta tb = Some t
            /\ t_dims t = plain [a; b; c; d]
            /\ forall n o i j,
                 t_at t [n; o; i; j] = op (t_at ta []) (t_at tb [n; o; i; j]).
Proof.
  intros Ha Hb. unfold binop. rewrite Ha, Hb.
  eexists. split; [reflexivity|]. split; reflexivity.
Qed.

Lemma sumZ_ext n (f g : Z -> F) :
  (forall i, f i = g i) -> sumZ n f = sumZ n g.
Proof.
  intros Hfg. unfold sumZ. induction (seq 0 (Z.to_nat n)) as [|i l IH].
  - reflexivity.
  - simpl. rewrite Hfg, IH. reflexivity.
Qed.

Lemma conv2d_dims (ta tk : tensor F) fs ims mode :
  t_dims ta = plain (shape4_list ims) ->
  t_dims tk = plain (shape4_list fs) ->
  sh1 ims = sh1 fs ->
  0 < out_size mode (sh2 ims) (sh2 fs) ->
  0 < out_size mode (sh3 ims) (sh3 fs) ->
  exists t, conv2d F ta tk fs ims mode = Some t
            /\ t_dims t = plain [sh0 ims; sh0 fs;
                                 out_size mode (sh2 ims) (sh2 fs);
                                 out_size mode (sh3 ims) (sh3 fs)]
            /\ forall n o i j,
                 t_at t [n; o; i; j]
                 = sumZ (sh1 ims) (fun ch =>
                     sumZ (sh2 fs) (fun p =>
                       sumZ (sh3 fs) (fun q =>
                         rmul F (t_at tk [o; ch; p; q])
                           (padded F ta (sh2 ims) (sh3 ims)
                              [n; ch; i + offset mode (sh2 fs) - p;
                               j + offset mode (sh3 fs) - q])))).
Proof.
  intros Ha Hk Hc Hh Hw. unfold conv2d, shape_of. rewrite Ha, Hk.
  cbn [plain shape4_list fmap list_fmap size bcast].
  rewrite decide_True by (repeat split; assumption).
  eexists. split; [reflexivity|]. split; reflexivity.
Qed.

End TensorOps.

(** ** The number of dimensions of a value

    A graph that has a value has the number of dimensions of the value. *)

Section Typing.

Variable F : arith.

Lemma length_pad_left n (ds : list dim) :
  (length ds <= n)%nat -> length (pad_left n ds) = n.
Proof.
  intros H. unfold pad_left. rewrite length_app, length_replicate. lia.
Qed.

Lemma length_bc_dims (a : list dim) :
  forall b ds, bc_dims a b = Some ds -> length ds = length a.
Proof.
  induction a as [|da a IH]; intros [|db b] ds; cbn [bc_dims];
    try discriminate.
  - intros [= <-]. reflexivity.
  - destruct (bc_dim da db); [|discriminate].
    destruct (bc_dims a b) as [ds'|] eqn:E; [|discriminate].
    intros [= <-]. cbn [length]. rewrite (IH _ _ E). reflexivity.
Qed.

Lemma length_binop op (ta tb t : tensor F) :
  binop F op ta tb = Some t ->
  length (t_dims t) = Nat.max (length (t_dims ta)) (length (t_dims tb)).
Proof.
  unfold binop.
  destruct (bc_dims _ _) as [ds|] eqn:E; [|discriminate].
  intros [= <-]. cbn [t_dims].
  rewrite (length_bc_dims _ _ _ E). apply length_pad_left. lia.
Qed.

Lemma length_keep_dims axes (ds : list dim) :
  forall pos,
    length (keep_dims ds pos axes)
    = length (filter (fun i => in_axes axes i = false)
                     (seq pos (length ds))).
Proof.
  induction ds as [|d ds IH]; intros pos; [reflexivity|].
  cbn [keep_dims length seq]. rewrite filter_cons.
  destruct (in_axes axes pos) eqn:E.
  - rewrite decide_False by discriminate. apply IH.
  - rewrite decide_True by reflexivity. cbn [length]. rewrite IH.
    reflexivity.
Qed.

Lemma length_dimshuffle (ta t : tensor F) pattern :
  dimshuffle F ta pattern = Some t -> length (t_dims t) = length pattern.
Proof.
  unfold dimshuffle.
  destruct (mapM _ pattern) as [ds|] eqn:E; [|discriminate].
  destruct (_ && _); [|discriminate].
  intros [= <-]. cbn [t_dims]. symmetry. eapply length_mapM, E.
Qed.

Lemma subtensor_slices (ta t : tensor F) sl :
  subtensor F ta sl = Some t ->
  t_dims t = t_dims ta
  /\ (length sl <= length (t_dims ta))%nat
  /\ filter (fun i => drops_axis i = true) sl = [].
Proof.
  unfold subtensor. destruct (forallb _ sl) eqn:Ea; [|discriminate].
  cbn [andb]. case_bool_decide as Hl; [|discriminate].
  intros [= <-]. split; [reflexivity|]. split; [exact Hl|].
  clear Hl. induction sl as [|i sl IH]; [reflexivity|].
  cbn [forallb] in Ea. apply andb_true_iff in Ea as [Hi Ea].
  rewrite filter_cons.
  destruct i; try discriminate; (rewrite decide_False by discriminate);
    apply IH, Ea.
Qed.

Lemma eval_ndim (s : gmap positive vobj) (env : gmap positive (tensor F)) :
  typed s env ->
  forall e t, eval env e = Some t -> ndim_of s e = Some (length (t_dims t)).
Proof.
  intros Hty.
  induction e as
    [id | z | m x | a IHa b IHb fs ims mode | a IHa pattern | a IHa idx
    | a IHa idx v IHv
    | a IHa b IHb | a IHa b IHb | a IHa b IHb | a IHa b IHb
    | a IHa | a IHa | a IHa | a IHa | a IHa | a IHa axes | a IHa
    | a IHa b IHb | a IHa | a IHa dt
    | st size IHsize k p IHp dt | a IHa | a IHa axis
    | k args initial outs feedback r
    | c IHc wrt cc];
    intros t; cbn [eval]; try discriminate.
  - apply Hty.
  - intros [= <-]. reflexivity.
  - destruct (eval env a) as [ta|]; [|discriminate].
    destruct (eval env b) as [tb|]; [|discriminate].
    unfold conv2d.
    destruct (t_dims ta) as [|? [|? [|? [|? [|? ?]]]]]; try discriminate.
    destruct (t_dims tb) as [|? [|? [|? [|? [|? ?]]]]]; try discriminate.
    case_decide; [|discriminate]. intros [= <-]. reflexivity.
  - destruct (eval env a) as [ta|] eqn:Ea; [|discriminate].
    intros Hd. cbn [ndim_of]. rewrite (IHa _ eq_refl).
    rewrite (length_dimshuffle _ _ _ Hd). reflexivity.
  - destruct (eval env a) as [ta|] eqn:Ea; [|discriminate].
    intros Hs. cbn [ndim_of]. rewrite (IHa _ eq_refl).
    destruct (subtensor_slices _ _ _ Hs) as (-> & Hl & ->).
    rewrite (proj2 (Nat.leb_le _ _) Hl). cbn [length].
    rewrite Nat.sub_0_r. reflexivity.
  - destruct (eval env a) as [ta|] eqn:Ea; [|discriminate].
    destruct (eval env b) as [tb|] eqn:Eb; [|discriminate].
    intros Hb. cbn [ndim_of]. rewrite (IHa _ eq_refl), (IHb _ eq_refl).
    rewrite (length_binop _ _ _ _ Hb). reflexivity.
  - destruct (eval env a) as [ta|] eqn:Ea; [|discriminate].
    destruct (eval env b) as [tb|] eqn:Eb; [|discriminate].
    intros Hb. cbn [ndim_of]. rewrite (IHa _ eq_refl), (IHb _ eq_refl).
    rewrite (length_binop _ _ _ _ Hb). reflexivity.
  - destruct (eval env a) as [ta|] eqn:Ea; [|discriminate].
    destruct (eval env b) as [tb|] eqn:Eb; [|discriminate].
    intros Hb. cbn [ndim_of]. rewrite (IHa _ eq_refl), (IHb _ eq_refl).
    rewrite (length_binop _ _ _ _ Hb). reflexivity.
  - destruct (eval env a) as [ta|] eqn:Ea; [|discriminate].
    intros [= <-]. cbn [ndim_of]. apply (IHa _ eq_refl).
  - destruct (eval env a) as [ta|] eqn:Ea; [|discriminate].
    intros [= <-]. cbn [ndim_of]. apply (IHa _ eq_refl).
  - destruct (eval env a) as [ta|] eqn:Ea; [|discriminate].
    intros [= <-]. cbn [ndim_of]. apply (IHa _ eq_refl).
  - destruct (eval env a) as [ta|] eqn:Ea; [|discriminate].
    intros [= <-]. cbn [ndim_of]. apply (IHa _ eq_refl).
  - destruct (eval env a) as [ta|] eqn:Ea; [|discriminate].
    unfold tsum. destruct (forallb _ axes); [|discriminate].
    intros [= <-]. cbn [ndim_of t_dims]. rewrite (IHa _ eq_refl).
    rewrite length_keep_dims. reflexivity.
  - destruct (eval env a) as [ta|] eqn:Ea; [|discriminate].
    intros [= <-]. cbn [ndim_of]. rewrite (IHa _ eq_refl). reflexivity.
  - destruct (eval env a) as [ta|] eqn:Ea; [|discriminate].
    destruct (eval env b) as [tb|] eqn:Eb; [|discriminate].
    unfold dot.
    destruct (t_dims ta) as [|m [|n [|? ?]]] eqn:Da; try discriminate.
    destruct (t_dims tb) as [|n' [|? ?]] eqn:Db; try discriminate.
    case_decide; [|discriminate]. intros [= <-].
    cbn [ndim_of]. rewrite (IHa _ eq_refl), (IHb _ eq_refl), Da, Db.
    reflexivity.
Qed.

End Typing.

Section TensorFacts.

Variable F : arith.
Variable env : gmap positive (tensor F).
Variable self : CRBM.
Variables tW thb tvb : tensor F.

Hypothesis Hinv : crbm_inv self.
Hypothesis HW : env !! W self = Some tW.
Hypothesis HWd : t_dims tW = plain (shape4_list (FS self)).
Hypothesis Hhb : env !! hbias self = Some thb.
Hypothesis Hhbd : t_dims thb = plain [sh0 (FS self)].
Hypothesis Hvb : env !! vbias self = Some tvb.
Hypothesis Hvbd : t_dims tvb = plain [sh1 (FS self)].
Hypothesis Hfh : 0 < sh2 (FS self) <= sh2 (IS self).
Hypothesis Hfw : 0 < sh3 (FS self) <= sh3 (IS self).

(** The store in which the graphs are built: its variables have the numbers
    of dimensions of their values. *)
Variable s : gmap positive vobj.
Hypothesis Htyped : typed s env.

Lemma tensor_params_typed : params_typed s self.
Proof.
  unfold params_typed.
  rewrite (Htyped _ _ HW), HWd, (Htyped _ _ Hhb), Hhbd, (Htyped _ _ Hvb), Hvbd.
  repeat split.
Qed.

Lemma tensor_filter_fits : filter_fits self.
Proof. split; assumption. Qed.

(** The checks of the propagation pass on a graph that has a
    four-dimensional value. *)
Lemma tensor_ndim4 v tv a b c d :
  eval env v = Some tv ->
  t_dims tv = plain [a; b; c; d] ->
  ndim_of s v = Some 4%nat.
Proof.
  intros Hv Hvd. rewrite (eval_ndim F s env Htyped v tv Hv), Hvd.
  reflexivity.
Qed.

Lemma tensor_conv_upward_run v :
  ndim_of s v = Some 4%nat ->
  conv_upward self v s = Ok (upward_graph self v, s).
Proof.
  exact (conv_upward_run self s Hinv tensor_filter_fits tensor_params_typed
           v s (grows_refl s)).
Qed.

Lemma tensor_conv_downward_run h :
  ndim_of s h = Some 4%nat ->
  conv_downward self h s = Ok (downward_graph self h, s).
Proof.
  exact (conv_downward_run self s Hinv tensor_filter_fits tensor_params_typed
           h s (grows_refl s)).
Qed.

Lemma tensor_free_energy_run v :
  ndim_of s v = Some 4%nat ->
  free_energy self v s = Ok (free_energy_graph self v, s).
Proof.
  exact (free_energy_run self s Hinv tensor_filter_fits tensor_params_typed
           v s (grows_refl s)).
Qed.

Lemma eval_conv_upward v tv :
  eval env v = Some tv ->
  t_dims tv = plain (shape4_list (IS self)) ->
  exists up,
    eval env (upward_graph self v) = Some up
    /\ t_dims up
       = plain [sh0 (IS self); sh0 (FS self);
                sh2 (IS self) - sh2 (FS self) + 1;
                sh3 (IS self) - sh3 (FS self) + 1]
    /\ forall n o i j,
         t_at up [n; o; i; j]
         = radd F
             (sumZ (sh1 (IS self)) (fun ch =>
                sumZ (sh2 (FS self)) (fun p =>
                  sumZ (sh3 (FS self)) (fun q =>
                    rmul F (t_at tW [o; ch; p; q])
                      (padded F tv (sh2 (IS self)) (sh3 (IS self))
                         [n; ch; i + (sh2 (FS self) - 1) - p;
                          j + (sh3 (FS self) - 1) - q])))))
             (t_at thb [o]).
Proof.
  intros Hv Hvd. destruct Hinv as (_ & Hch & _ & _).
  unfold upward_graph. cbn [eval]. rewrite Hv, HW, Hhb.
  destruct (conv2d_dims F tv tW (FS self) (IS self) valid Hvd HWd Hch)
    as (tc & -> & Hcd & Hcv); [simpl; lia | simpl; lia |].
  rewrite (dimshuffle_bias F thb _ Hhbd).
  match goal with
  | |- context [binop F ?op tc ?tb] =>
      destruct (binop_bias F op tc tb _ _ _ _ Hcd eq_refl)
        as (t & -> & Htd & Htv)
  end.
  exists t. split; [reflexivity|]. split; [exact Htd|].
  intros n o i j. rewrite Htv, Hcv. reflexivity.
Qed.

Lemma eval_conv_downward h th :
  eval env h = Some th ->
  t_dims th = plain [sh0 (IS self); sh0 (FS self);
                     sh2 (IS self) - sh2 (FS self) + 1;
                     sh3 (IS self) - sh3 (FS self) + 1] ->
  exists down,
    eval env (downward_graph self h) = Some down
    /\ t_dims down = plain (shape4_list (IS self))
    /\ forall n c y x,
         t_at down [n; c; y; x]
         = radd F
             (sumZ (sh0 (FS self)) (fun o =>
                sumZ (sh2 (FS self)) (fun p =>
                  sumZ (sh3 (FS self)) (fun q =>
                    rmul F
                      (t_at tW [o; c; sh2 (FS self) - 1 - p;
                                sh3 (FS self) - 1 - q])
                      (padded F th (sh2 (IS self) - sh2 (FS self) + 1)
                         (sh3 (IS self) - sh3 (FS self) + 1)
                         [n; o; y + 0 - p; x + 0 - q])))))
             (t_at tvb [c]).
Proof.
  intros Hh Hhd. destruct Hinv as (_ & Hch & HFSinv & HISinv).
  unfold downward_graph. cbn [eval]. rewrite Hh, HW, Hvb.
  rewrite (dimshuffle_swap F tW _ _ _ _ HWd).
  match goal with
  | |- context [subtensor F ?t _] =>
      rewrite (subtensor_flip F t _ _ _ _ eq_refl)
  end.
  match goal with
  | |- context [conv2d F th ?k _ _ _] =>
      destruct (conv2d_dims F th k (FSinv self) (ISinv self) full)
        as (tc & -> & Hcd & Hcv)
  end.
  - rewrite HISinv. exact Hhd.
  - rewrite HFSinv. reflexivity.
  - rewrite HISinv, HFSinv. reflexivity.
  - rewrite HISinv, HFSinv.
    change (0 < sh2 (IS self) - sh2 (FS self) + 1 + sh2 (FS self) - 1). lia.
  - rewrite HISinv, HFSinv.
    change (0 < sh3 (IS self) - sh3 (FS self) + 1 + sh3 (FS self) - 1). lia.
  - rewrite (dimshuffle_bias F tvb _ Hvbd).
    rewrite HISinv, HFSinv in Hcd.
    change (t_dims tc
            = plain [sh0 (IS self); sh1 (FS self);
                     sh2 (IS self) - sh2 (FS self) + 1 + sh2 (FS self) - 1;
                     sh3 (IS self) - sh3 (FS self) + 1 + sh3 (FS self) - 1])
      in Hcd.
    match goal with
    | |- context [binop F ?op tc ?tb] =>
        destruct (binop_bias F op tc tb _ _ _ _ Hcd eq_refl)
          as (t & -> & Htd & Htv)
    end.
    exists t. split; [reflexivity|]. split.
    + rewrite Htd. unfold shape4_list. rewrite Hch. repeat f_equal; lia.
    + intros n c y x. rewrite Htv, Hcv, HISinv, HFSinv. reflexivity.
Qed.

(** C2.  For a visible batch [v] of the declared image shape
    [[batch_size, in_channels, H, W]], [free_energy(v)] returns a graph whose
    value has one scalar per element of the batch, and that scalar is minus
    the sum, over the output maps and the height and width of the hidden
    layer, of the softplus of [conv_upward(v)], minus the dot product with
    [vbias] of the sums of [v] over height and width, channel by channel. *)
Theorem free_energy_value v tv :
  eval env v = Some tv ->
  t_dims tv = plain (shape4_list (IS self)) ->
  exists e_up e_fe up fe,
    conv_upward self v s = Ok (e_up, s)
    /\ free_energy self v s = Ok (e_fe, s)
    /\ eval env e_up = Some up
    /\ eval env e_fe = Some fe
    /\ shape_of fe = [sh0 (IS self)]
    /\ forall n,
         t_at fe [n]
         = rsub F
             (rneg F
                (sumZ (sh0 (FS self)) (fun o =>
                   sumZ (sh2 (IS self) - sh2 (FS self) + 1) (fun i =>
                     sumZ (sh3 (IS self) - sh3 (FS self) + 1) (fun j =>
                       rsoftplus F (t_at up [n; o; i; j]))))))
             (sumZ (sh1 (IS self)) (fun c =>
                rmul F
                  (sumZ (sh2 (IS self)) (fun y =>
                     sumZ (sh3 (IS self)) (fun x => t_at tv [n; c; y; x])))
                  (t_at tvb [c]))).
Proof.
  intros Hv Hvd.
  pose proof (tensor_ndim4 v tv _ _ _ _ Hv Hvd) as Hnd.
  destruct (eval_conv_upward v tv Hv Hvd) as (up & Hup & Hupd & _).
  destruct Hinv as (_ & Hch & _ & _).
  exists (upward_graph self v), (free_energy_graph self v), up.
  unfold free_energy_graph. cbn [eval]. rewrite Hup, Hv, Hvb.
  cbn [fmap option_fmap option_map].
  unfold tsum, map_tensor. cbn [t_dims]. rewrite Hupd, Hvd.
  cbn [plain shape4_list fmap list_fmap length forallb Nat.ltb Nat.leb andb
       option_fmap option_map keep_dims in_axes existsb Nat.eqb orb].
  unfold dot. cbn [t_dims]. rewrite Hvbd.
  cbn [plain fmap list_fmap size]. rewrite decide_True by exact Hch.
  unfold binop. cbn [t_dims length Nat.max pad_left Nat.sub replicate app
                     bc_dims bc_dim bcast size].
  rewrite decide_True by reflexivity.
  eexists. split; [exact (tensor_conv_upward_run v Hnd)|].
  split; [exact (tensor_free_energy_run v Hnd)|].
  split; [reflexivity|]. split; [reflexivity|].
  split; [reflexivity|]. intros n. reflexivity.
Qed.

(** C6.  Upward and downward propagation are inverse on shapes.  For an
    input of the declared image shape [IS = [batch, in_channels, H, W]],
    [conv_upward] returns the valid convolution with the filter bank plus,
    on every map, the hidden bias of the map, and its value has the shape
    [[batch, FS[0], H - FS[2] + 1, W - FS[3] + 1]].  For every graph with a
    value of that shape, [conv_downward] returns the full convolution with
    the filter bank whose first two axes are swapped and whose last two axes
    are reversed, plus, on every channel, the visible bias of the channel,
    and its value has the shape [IS]; this holds in particular for the graph
    that [conv_upward] returned. *)
Theorem conv_shapes_inverse v tv :
  eval env v = Some tv ->
  t_dims tv = plain (shape4_list (IS self)) ->
  conv_upward self v s
  = Ok (Add (Conv2d v (Var (W self)) (FS self) (IS self) valid)
            (DimShuffle (Var (hbias self)) [DX; DAxis 0; DX; DX]), s)
  /\ (forall h,
        ndim_of s h = Some 4%nat ->
        conv_downward self h s
        = Ok (Add (Conv2d h
                     (Subtensor
                        (DimShuffle (Var (W self))
                           [DAxis 1; DAxis 0; DAxis 2; DAxis 3])
                        [IAll; IAll; IRev; IRev])
                     (FSinv self) (ISinv self) full)
                  (DimShuffle (Var (vbias self)) [DX; DAxis 0; DX; DX]), s))
  /\ exists e_up up,
       conv_upward self v s = Ok (e_up, s)
       /\ eval env e_up = Some up
       /\ shape_of up = [sh0 (IS self); sh0 (FS self);
                         sh2 (IS self) - sh2 (FS self) + 1;
                         sh3 (IS self) - sh3 (FS self) + 1]
       /\ (forall n o i j,
             t_at up [n; o; i; j]
             = radd F
                 (sumZ (sh1 (IS self)) (fun ch =>
                    sumZ (sh2 (FS self)) (fun p =>
                      sumZ (sh3 (FS self)) (fun q =>
                        rmul F (t_at tW [o; ch; p; q])
                          (padded F tv (sh2 (IS self)) (sh3 (IS self))
                             [n; ch; i + (sh2 (FS self) - 1) - p;
                              j + (sh3 (FS self) - 1) - q])))))
                 (t_at thb [o]))
       /\ (forall h th,
             eval env h = Some th ->
             t_dims th = plain [sh0 (IS self); sh0 (FS self);
                                sh2 (IS self) - sh2 (FS self) + 1;
                                sh3 (IS self) - sh3 (FS self) + 1] ->
             exists e_down down,
               conv_downward self h s = Ok (e_down, s)
               /\ eval env e_down = Some down
               /\ shape_of down = shape4_list (IS self)
               /\ t_dims down = t_dims tv
               /\ forall n c y x,
                    t_at down [n; c; y; x]
                    = radd F
                        (sumZ (sh0 (FS self)) (fun o =>
                           sumZ (sh2 (FS self)) (fun p =>
                             sumZ (sh3 (FS self)) (fun q =>
                               rmul F
                                 (t_at tW [o; c; sh2 (FS self) - 1 - p;
                                           sh3 (FS self) - 1 - q])
                                 (padded F th
                                    (sh2 (IS self) - sh2 (FS self) + 1)
                                    (sh3 (IS self) - sh3 (FS self) + 1)
                                    [n; o; y + 0 - p; x + 0 - q])))))
                        (t_at tvb [c]))
       /\ exists e_down down,
            conv_downward self e_up s = Ok (e_down, s)
            /\ eval env e_down = Some down
            /\ shape_of down = shape4_list (IS self).
Proof.
  intros Hv Hvd.
  pose proof (tensor_ndim4 v tv _ _ _ _ Hv Hvd) as Hnd.
  split; [exact (tensor_conv_upward_run v Hnd)|].
  split; [exact tensor_conv_downward_run|].
  destruct (eval_conv_upward v tv Hv Hvd) as (up & Hup & Hupd & Hupv).
  assert (forall h th,
            eval env h = Some th ->
            t_dims th = plain [sh0 (IS self); sh0 (FS self);
                               sh2 (IS self) - sh2 (FS self) + 1;
                               sh3 (IS self) - sh3 (FS self) + 1] ->
            exists e_down down,
              conv_downward self h s = Ok (e_down, s)
              /\ eval env e_down = Some down
              /\ shape_of down = shape4_list (IS self)
              /\ t_dims down = t_dims tv
              /\ forall n c y x,
                   t_at down [n; c; y; x]
                   = radd F
                       (sumZ (sh0 (FS self)) (fun o =>
                          sumZ (sh2 (FS self)) (fun p =>
                            sumZ (sh3 (FS self)) (fun q =>
                              rmul F
                                (t_at tW [o; c; sh2 (FS self) - 1 - p;
                                          sh3 (FS self) - 1 - q])
                                (padded F th
                                   (sh2 (IS self) - sh2 (FS self) + 1)
                                   (sh3 (IS self) - sh3 (FS self) + 1)
                                   [n; o; y + 0 - p; x + 0 - q])))))
                       (t_at tvb [c])) as Hdown.
  { intros h th Hh Hhd.
    destruct (eval_conv_downward h th Hh Hhd) as (down & Hd & Hdd & Hdv).
    exists (downward_graph self h), down.
    split; [exact (tensor_conv_downward_run h
                     (tensor_ndim4 h th _ _ _ _ Hh Hhd))|].
    split; [exact Hd|]. unfold shape_of. rewrite Hdd, Hvd.
    split; [reflexivity|]. split; [reflexivity | exact Hdv]. }
  exists (upward_graph self v), up.
  split; [exact (tensor_conv_upward_run v Hnd)|]. split; [exact Hup|].
  split; [unfold shape_of; rewrite Hupd; reflexivity|].
  split; [exact Hupv|]. split; [exact Hdown|].
  destruct (Hdown _ up Hup Hupd) as (e_down & down & Hr & Hd & Hds & _).
  exists e_down, down. split; [exact Hr|]. split; assumption.
Qed.

Lemma eval_reconstruction_cost pre tin tp :
  eval env (input self) = Some tin ->
  t_dims tin = plain (shape4_list (IS self)) ->
  eval env pre = Some tp ->
  t_dims tp = plain (shape4_list (IS self)) ->
  exists t,
    eval env (reconstruction_graph self pre) = Some t
    /\ t_dims t = []
    /\ t_at t []
       = rdivZ F
           (sumZ (sh0 (IS self)) (fun n =>
              sumZ (sh1 (IS self)) (fun c =>
                sumZ (sh2 (IS self)) (fun y =>
                  sumZ (sh3 (IS self)) (fun x =>
                    radd F
                      (rmul F (t_at tin [n; c; y; x])
                         (rlog F (rsigmoid F (t_at tp [n; c; y; x]))))
                      (rmul F (rsub F (rofZ F 1) (t_at tin [n; c; y; x]))
                         (rlog F (rsub F (rofZ F 1)
                                    (rsigmoid F (t_at tp [n; c; y; x]))))))))))
           (sh0 (IS self)).
Proof.
  intros Hin Hind Hp Hpd.
  unfold reconstruction_graph. cbn [eval]. rewrite Hin, Hp.
  cbn [fmap option_fmap option_map].
  set (lg := map_tensor F (rlog F) (map_tensor F (rsigmoid F) tp)).
  set (one := mk_tensor [] (fun _ : list Z => rofZ F 1)).
  destruct (binop_same4 F (rmul F) tin lg _ _ _ _ Hind Hpd)
    as (m1 & -> & Hm1d & Hm1v).
  destruct (binop_const4 F (rsub F) one tin _ _ _ _ eq_refl Hind)
    as (om & -> & Homd & Homv).
  destruct (binop_const4 F (rsub F) one (map_tensor F (rsigmoid F) tp)
              _ _ _ _ eq_refl Hpd) as (os & -> & Hosd & Hosv).
  cbn [fmap option_fmap option_map].
  destruct (binop_same4 F (rmul F) om (map_tensor F (rlog F) os)
              _ _ _ _ Homd Hosd) as (m2 & -> & Hm2d & Hm2v).
  destruct (binop_same4 F (radd F) m1 m2 _ _ _ _ Hm1d Hm2d)
    as (ad & -> & Hadd & Hadv).
  unfold tsum, tmean, shape_of. rewrite Hadd.
  cbn [plain shape4_list t_dims length forallb Nat.ltb Nat.leb andb keep_dims
       in_axes existsb Nat.eqb orb fmap option_fmap option_map list_fmap size
       n_elements foldr seq sum_axes].
  eexists. split; [reflexivity|]. split; [reflexivity|].
  cbn [t_at]. rewrite Z.mul_1_r. f_equal.
  apply sumZ_ext; intros n. apply sumZ_ext; intros c.
  apply sumZ_ext; intros y. apply sumZ_ext; intros x.
  rewrite Hadv, Hm1v, Hm2v, Homv. cbn [map_tensor t_at].
  rewrite Hosv. reflexivity.
Qed.

End TensorFacts.

(** * The remaining claims *)

(** C7.  The scan returns the pre-sigmoid activations of every step next to
    the means, which are their sigmoids.  In a call without a persistent
    chain and with [k >= 1] (on a CRBM with a random stream, variables of
    the documented numbers of dimensions and filters that fit; otherwise the
    call raises), the monitoring cost is [get_reconstruction_cost] at
    [pre_sigmoid_nvs[-1]], whose value is the pre-sigmoid visible activation
    of the last step of the chain: the mean of the sum over the axes 1, 2
    and 3 of [input * log(sigmoid(p)) + (1 - input) * log(1 - sigmoid(p))],
    with the sigmoid and the logarithm applied to the result of the scan,
    outside the loop.  On tensors of the image shape the value of that graph
    is the sum over the whole batch, divided by the batch size, of the sums
    over channels, height and width of that expression. *)
Theorem cd_reconstruction_cost self rng lr k s :
  theano_rng self = Some rng ->
  crbm_inv self ->
  filter_fits self ->
  well_typed s self ->
  (1 <= k)%nat ->
  (exists l s' st_v st_h g,
    cd_graph self lr k None s = Ok (l, s')
    /\ steps_of (pre_sigmoid_nvs l)
       = Some (pre_sigmoid_v <$> gibbs_chain self st_v st_h (chain_start l) k)
    /\ steps_of (pre_sigmoid_nhs l)
       = Some (pre_sigmoid_h <$> gibbs_chain self st_v st_h (chain_start l) k)
    /\ steps_of (nv_means l)
       = Some (v_mean <$> gibbs_chain self st_v st_h (chain_start l) k)
    /\ steps_of (nh_means l)
       = Some (h_mean <$> gibbs_chain self st_v st_h (chain_start l) k)
    /\ length (gibbs_chain self st_v st_h (chain_start l) k) = k
    /\ Forall (fun g => v_mean g = Sigmoid (pre_sigmoid_v g)
                        /\ h_mean g = Sigmoid (pre_sigmoid_h g)
                        /\ pre_sigmoid_h g = upward_graph self (v_sample g))
              (gibbs_chain self st_v st_h (chain_start l) k)
    /\ last (gibbs_chain self st_v st_h (chain_start l) k) = Some g
    /\ last_value (last_step (pre_sigmoid_nvs l)) = Some (pre_sigmoid_v g)
    /\ (k <> 1%nat ->
        exists h,
          pre_sigmoid_nvs l
          = Scan k [h] [chain_start l]
              (step_outputs (hvh_step self st_v st_h (Var h))) [5%nat]
              (SOut 0))
    /\ get_reconstruction_cost self (updates l)
         (last_step (pre_sigmoid_nvs l)) s'
       = Ok (reconstruction_graph self (last_step (pre_sigmoid_nvs l)), s')
    /\ get_cost_updates self lr k None s
       = Ok ((reconstruction_graph self (last_step (pre_sigmoid_nvs l)),
              updates l), s'))
  /\ (forall u p t,
        ndim_of t (input self) = Some 4%nat ->
        ndim_of t p = Some 4%nat ->
        get_reconstruction_cost self u p t
        = Ok (Mean (Sum (Add (Mul (input self) (Log (Sigmoid p)))
                             (Mul (Sub (IntConst 1) (input self))
                                  (Log (Sub (IntConst 1) (Sigmoid p)))))
                        [1; 2; 3]%nat), t))
  /\ (forall (F : arith) (env : gmap positive (tensor F)) u p tin tp t0,
        typed t0 env ->
        eval env (input self) = Some tin ->
        t_dims tin = plain (shape4_list (IS self)) ->
        eval env p = Some tp ->
        t_dims tp = plain (shape4_list (IS self)) ->
        exists e t,
          get_reconstruction_cost self u p t0 = Ok (e, t0)
          /\ eval env e = Some t
          /\ t_dims t = []
          /\ t_at t []
             = rdivZ F
                 (sumZ (sh0 (IS self)) (fun n =>
                    sumZ (sh1 (IS self)) (fun c =>
                      sumZ (sh2 (IS self)) (fun y =>
                        sumZ (sh3 (IS self)) (fun x =>
                          radd F
                            (rmul F (t_at tin [n; c; y; x])
                               (rlog F (rsigmoid F (t_at tp [n; c; y; x]))))
                            (rmul F
                               (rsub F (rofZ F 1) (t_at tin [n; c; y; x]))
                               (rlog F
                                  (rsub F (rofZ F 1)
                                     (rsigmoid F (t_at tp [n; c; y; x]))))))))))
                 (sh0 (IS self))).
Proof.
  intros Hrng Hinv Hfit Hty Hk. split; [|split].
  - destruct (cd_graph_run self rng s Hrng Hinv Hfit Hty lr k None
                ltac:(discriminate)) as (_ & _ & Hcd).
    pose proof (get_cost_updates_run self rng s Hrng Hinv Hfit Hty lr k)
      as Hrun.
    pose proof (cd_result_steps self rng s Hty lr k None) as Hsteps.
    cbv zeta in Hsteps. unfold step_fields in Hsteps.
    set (l := cd_result self rng lr k None s) in *.
    set (s' := cd_store self rng None s) in *.
    set (st_v := chain_st_v (ph_store rng s) (chain_start l)) in *.
    set (st_h := chain_st_h rng (ph_store rng s) (chain_start l)) in *.
    repeat match goal with
           | H : Forall2 _ (_ :: _) (_ :: _) |- _ =>
               apply Forall2_cons in H; destruct H as [? H]
           end.
    destruct (last_gibbs_chain self st_v st_h k (chain_start l) Hk)
      as [g Hg].
    assert (grows s s') as G by apply grows_cd_store.
    assert (ndim_of s' (last_step (pre_sigmoid_nvs l)) = Some 4%nat) as Hnd.
    { pose proof (ndim_chain_outputs self s Hty k
                    (fresh (dom (ph_store rng s))) st_v st_h (chain_start l)
                    s' G) as Hn.
      rewrite chain_outputs_six in Hn. cbn [fmap list_fmap seq] in Hn.
      apply Forall_cons in Hn as [Hn _]. exact Hn. }
    exists l, s', st_v, st_h, g.
    split; [exact Hcd|]. do 4 (split; [assumption|]).
    split; [apply length_gibbs_chain|].
    split.
    { eapply Forall_impl; [apply gibbs_chain_activations|].
      intros g' (Ha1 & Ha2 & _ & _ & Ha3). auto. }
    split; [exact Hg|].
    split.
    { unfold last_step, last_value.
      match goal with H : steps_of (pre_sigmoid_nvs l) = _ |- _ => rewrite H end.
      cbn [mbind option_bind]. rewrite fmap_last, Hg. reflexivity. }
    split.
    { intros Hk1. exists (fresh (dom (ph_store rng s))).
      unfold l, cd_result. cbn [pre_sigmoid_nvs chain_start].
      unfold chain_outputs. rewrite decide_False by exact Hk1.
      reflexivity. }
    split; [|exact Hrun].
    apply get_reconstruction_cost_run; [|exact Hnd].
    apply (input_typed self s s' Hty G).
  - intros u p t Hin Hp. apply (get_reconstruction_cost_run self u p t Hin Hp).
  - intros F env u p tin tp t0 Htyped Hin Hind Hp Hpd.
    destruct (eval_reconstruction_cost F env self p tin tp Hin Hind Hp Hpd)
      as (t & Ht & Htd & Htv).
    exists (reconstruction_graph self p), t.
    split; [|split; [exact Ht|split; [exact Htd | exact Htv]]].
    apply get_reconstruction_cost_run.
    + rewrite (eval_ndim F t0 env Htyped _ _ Hin), Hind. reflexivity.
    + rewrite (eval_ndim F t0 env Htyped _ _ Hp), Hpd. reflexivity.
Qed.

(** C8.  After construction the parameters are exactly [W], [hbias] and
    [vbias], in this order.  When [hbias] is not given it is a new shared
    variable whose value is the zero vector of length [FS[0]]; when [vbias]
    is not given it is a new shared variable whose value is the zero vector
    of length [FS[1]]; when [input] is not given the input is a new symbolic
    matrix. *)
Theorem init_parameters inp fs ims w0 hb vb nrng trng s :
  sh1 ims = sh1 fs ->
  (w0 = None -> exists g u,
     nrng = Some g
     /\ uniform g (NpNeg (W_bound fs)) (W_bound fs) (shape4_list fs) = Ok u) ->
  (hb = None -> 0 <= sh0 fs) ->
  (vb = None -> 0 <= sh1 fs) ->
  exists self s',
    __init__ inp fs ims w0 hb vb nrng trng s = Ok (self, s')
    /\ params self = [W self; hbias self; vbias self]
    /\ (hb = None ->
        (hbias self ∉ dom s)
        /\ s' !! hbias self
           = Some (SharedVariable "hbias"
                     (mk_ndarray floatX [sh0 fs]
                        (replicate (Z.to_nat (sh0 fs)) (NpDec 0 0)))))
    /\ (vb = None ->
        (vbias self ∉ dom s)
        /\ s' !! vbias self
           = Some (SharedVariable "vbias"
                     (mk_ndarray floatX [sh1 fs]
                        (replicate (Z.to_nat (sh1 fs)) (NpDec 0 0)))))
    /\ (inp = None ->
        exists id, input self = Var id
                   /\ (id ∉ dom s)
                   /\ s' !! id = Some (TensorVariable "input" 2))
    /\ (forall i, inp = Some i -> input self = i)
    /\ (forall w, w0 = Some w -> W self = w)
    /\ (forall b, hb = Some b -> hbias self = b)
    /\ (forall b, vb = Some b -> vbias self = b).
Proof.
  intros Hassert HW Hhb Hvb.
  destruct (init_run inp fs ims w0 hb vb nrng trng s Hassert HW Hhb Hvb)
    as (self & s' & Hrun & _ & _ & _ & _ & Hinv & Hi & Hw & Hb & Hc).
  exists self, s'. split; [exact Hrun|]. split; [apply Hinv|].
  split; [intros ->; exact Hb|]. split; [intros ->; exact Hc|].
  split; [intros ->; exact Hi|]. split; [intros i ->; exact Hi|].
  split; [exact Hw|]. split; intros b ->; assumption.
Qed.

(** C9.  The constructor asserts [IS[1] == FS[1]].  For all shape tuples
    with [IS[1] != FS[1]] it raises AssertionError, whatever the other
    arguments are.  For all shape tuples with [IS[1] == FS[1]] it checks
    nothing else about them: when the three parameters are given it succeeds
    and stores the tuples as they are, with [FSinv] and [ISinv] computed from
    them; when a parameter is not given it succeeds as soon as the numpy call
    that creates the initial value does. *)
Theorem init_shape_precondition inp fs ims w0 hb vb nrng trng s :
  (sh1 ims <> sh1 fs ->
   __init__ inp fs ims w0 hb vb nrng trng s = Raise AssertionError)
  /\ (sh1 ims = sh1 fs ->
      forall w b c,
      exists self s',
        __init__ inp fs ims (Some w) (Some b) (Some c) nrng trng s
        = Ok (self, s')
        /\ FS self = fs /\ IS self = ims
        /\ FSinv self = (sh1 fs, sh0 fs, sh2 fs, sh3 fs)
        /\ ISinv self = (sh0 ims, sh0 fs,
                         sh2 ims - sh2 fs + 1, sh3 ims - sh3 fs + 1))
  /\ (sh1 ims = sh1 fs ->
      (w0 = None -> exists g u,
         nrng = Some g
         /\ uniform g (NpNeg (W_bound fs)) (W_bound fs) (shape4_list fs)
            = Ok u) ->
      (hb = None -> exists z, np_zeros (sh0 fs) floatX = Ok z) ->
      (vb = None -> exists z, np_zeros (sh1 fs) floatX = Ok z) ->
      exists self s',
        __init__ inp fs ims w0 hb vb nrng trng s = Ok (self, s')
        /\ FS self = fs /\ IS self = ims).
Proof.
  split; [|split].
  - intros Hne. unfold __init__. rewrite decide_False by exact Hne.
    reflexivity.
  - intros Heq w b c.
    destruct (init_run inp fs ims (Some w) (Some b) (Some c) nrng trng s Heq)
      as (self & s' & Hrun & _ & HFS & HIS & _ & Hinv & _);
      try discriminate.
    exists self, s'. split; [exact Hrun|].
    destruct Hinv as (_ & _ & HFSinv & HISinv).
    rewrite HFS in HFSinv. rewrite HFS, HIS in HISinv. auto.
  - intros Heq HW Hhb Hvb.
    destruct (init_run inp fs ims w0 hb vb nrng trng s Heq HW)
      as (self & s' & Hrun & _ & HFS & HIS & _).
    + intros E. destruct (Hhb E) as [z Hz]. exact (np_zeros_inv _ _ _ Hz).
    + intros E. destruct (Hvb E) as [z Hz]. exact (np_zeros_inv _ _ _ Hz).
    + exists self, s'. auto.
Qed.

(** * The small model *)

Lemma ex_crbm_inv : crbm_inv ex_crbm.
Proof. repeat split. Qed.

Lemma ex_filter_fits : filter_fits ex_crbm.
Proof. vm_compute. repeat split; discriminate. Qed.

Lemma ex_well_typed : well_typed ex_store ex_crbm.
Proof. vm_compute. repeat split. Qed.

Lemma ex_chain_typed p :
  Some 5%positive = Some p -> ndim_of ex_store (Var p) = Some 4%nat.
Proof. intros [= <-]. reflexivity. Qed.

Lemma ex_typed_of (env : gmap positive (tensor Zarith)) t1 t2 t3 t4 t5 :
  env = list_to_map [(1%positive, t1); (2%positive, t2); (3%positive, t3);
                     (4%positive, t4); (5%positive, t5)] ->
  length (t_dims t1) = 4%nat -> length (t_dims t2) = 4%nat ->
  length (t_dims t3) = 1%nat -> length (t_dims t4) = 1%nat ->
  length (t_dims t5) = 4%nat ->
  typed ex_store env.
Proof.
  intros -> H1 H2 H3 H4 H5 id t Hid. cbn [list_to_map foldr fst snd] in Hid.
  repeat (apply lookup_insert_Some in Hid as [[<- <-]|[_ Hid]];
          [cbn [ndim_of]; first [rewrite H1 | rewrite H2 | rewrite H3
                                 | rewrite H4 | rewrite H5]; reflexivity|]).
  rewrite lookup_empty in Hid. discriminate.
Qed.

Lemma ex_typed : typed ex_store ex_env.
Proof.
  apply (ex_typed_of _ ex_v ex_W ex_hbias ex_vbias ex_h); reflexivity.
Qed.

Lemma ex_typed0 : typed ex_store ex_env0.
Proof.
  apply (ex_typed_of _ ex_v ex_W ex_zero_hbias ex_zero_vbias ex_h);
    reflexivity.
Qed.

Lemma Zarith_semiring : semiring_laws Zarith.
Proof.
  split; intros; cbn.
  - apply Z.add_comm.
  - apply Z.add_assoc.
  - apply Z.add_0_r.
  - apply Z.mul_comm.
  - apply Z.mul_assoc.
  - apply Z.mul_0_r.
  - apply Z.mul_add_distr_l.
Qed.

(** * The persistent chain *)

(** C5 (what the code does at a call with a persistent chain).  On the small
    model with the persistent variable 5, the body reaches the assignment
    [updates[persistent] = nh_samples[-1]], and the call then raises
    AttributeError instead of returning the dictionary. *)
Theorem pcd_updates_not_returned :
  exists l s',
    cd_graph ex_crbm default_lr 1 (Some 5%positive) ex_store = Ok (l, s')
    /\ get_cost_updates ex_crbm default_lr 1 (Some 5%positive) ex_store
       = get_pseudo_likelihood_cost ex_crbm
           (<[5%positive := last_step (nh_samples l)]> (updates l)) s'
    /\ get_cost_updates ex_crbm default_lr 1 (Some 5%positive) ex_store
       = Raise AttributeError.
Proof.
  destruct (cd_graph_run ex_crbm ex_rng ex_store eq_refl ex_crbm_inv
              ex_filter_fits ex_well_typed default_lr 1 (Some 5%positive)
              ex_chain_typed) as (_ & _ & Hrun).
  eexists _, _. split; [exact Hrun|].
  rewrite get_cost_updates_split, (bind_ok _ _ _ _ _ Hrun).
  split; [reflexivity|].
  apply (get_pseudo_likelihood_cost_AttributeError ex_crbm ex_store _ _
           ex_crbm_inv ex_filter_fits ex_well_typed).
  apply grows_cd_store.
Qed.

(** C10 as it was stated fails on the stand-alone CRBM: the constructor
    creates the input with [TT.matrix], and the positive phase of
    [get_cost_updates] raises TypeError in [conv.conv2d], with a persistent
    chain of the size of the hidden layer as with one of the documented
    two-dimensional size, before the pseudo-likelihood cost is reached. *)
Lemma pcd_standalone_TypeError :
  (exists self p4 p2 s,
     ex_standalone ∅ = Ok ((self, p4, p2), s)
     /\ get_cost_updates self default_lr 1 (Some p4) s = Raise TypeError
     /\ get_cost_updates self default_lr 1 (Some p2) s = Raise TypeError)
  /\ ~ (forall self lr k p s,
          get_cost_updates self lr k (Some p) s = Raise AttributeError).
Proof.
  assert (exists self p4 p2 s,
            ex_standalone ∅ = Ok ((self, p4, p2), s)
            /\ get_cost_updates self default_lr 1 (Some p4) s
               = Raise TypeError
            /\ get_cost_updates self default_lr 1 (Some p2) s
               = Raise TypeError) as Hex.
  { eexists _, _, _, _. split; [vm_compute; reflexivity|].
    split; vm_compute; reflexivity. }
  split; [exact Hex|].
  destruct Hex as (self & p4 & p2 & s & _ & Hraise & _).
  intros Hall. rewrite Hall in Hraise. discriminate.
Qed.

(** * The theorems on the small model *)

Lemma cd_cost_and_gradients_witness :
  exists l s',
    cd_graph ex_crbm default_lr 1 None ex_store = Ok (l, s')
    /\ cost l = Sub (Mean (free_energy_graph ex_crbm (Var 1)))
                    (Mean (free_energy_graph ex_crbm (chain_end l)))
    /\ gparams l
       = [Grad (cost l) 2 [chain_end l]; Grad (cost l) 3 [chain_end l];
          Grad (cost l) 4 [chain_end l]].
Proof.
  destruct (cd_cost_and_gradients ex_crbm ex_rng default_lr 1 None ex_store
              eq_refl ex_crbm_inv ex_filter_fits ex_well_typed
              ltac:(discriminate) (le_n 1))
    as (l & s' & st_v & st_h & g & Hrun & _ & _ & _ & _ & _ & _ & _ & Hc
        & Hg & _).
  exists l, s'. split; [exact Hrun|]. split; [exact Hc | exact Hg].
Defined.

Lemma free_energy_value_witness :
  exists e_fe fe,
    free_energy ex_crbm (Var 1) ex_store = Ok (e_fe, ex_store)
    /\ eval ex_env e_fe = Some fe
    /\ shape_of fe = [1].
Proof.
  destruct (free_energy_value Zarith ex_env ex_crbm ex_W ex_hbias ex_vbias
              ex_crbm_inv eq_refl eq_refl eq_refl eq_refl eq_refl eq_refl
              ltac:(vm_compute; split; [reflexivity | discriminate])
              ltac:(vm_compute; split; [reflexivity | discriminate])
              ex_store ex_typed (Var 1) ex_v eq_refl eq_refl)
    as (e_up & e_fe & up & fe & _ & Hrun & _ & Hfe & Hs & _).
  exists e_fe, fe. split; [exact Hrun|]. split; [exact Hfe | exact Hs].
Defined.

Lemma cd_gibbs_chain_witness :
  exists l s' st_v st_h,
    cd_graph ex_crbm default_lr 2 (Some 5%positive) ex_store = Ok (l, s')
    /\ chain_start l = Var 5
    /\ length (gibbs_chain ex_crbm st_v st_h (chain_start l) 2) = 2%nat
    /\ steps_of (nh_samples l)
       = Some (h_sample <$> gibbs_chain ex_crbm st_v st_h (chain_start l) 2).
Proof.
  destruct (cd_gibbs_chain ex_crbm ex_rng default_lr 2 (Some 5%positive)
              ex_store eq_refl ex_crbm_inv ex_filter_fits ex_well_typed
              ex_chain_typed)
    as (p & m & l & s1 & s' & st_v & st_h & _ & Hstart & _ & Hrun & _ & Hlen
        & _ & _ & _ & _ & _ & Hnh & _).
  exists l, s', st_v, st_h. split; [exact Hrun|]. split; [exact Hstart|].
  split; [exact Hlen | exact Hnh].
Defined.

Lemma cd_parameter_updates_witness :
  exists l monitoring_cost s',
    get_cost_updates ex_crbm default_lr 1 None ex_store
    = Ok ((monitoring_cost, updates l), s')
    /\ updates l !! 2%positive
       = Some (Sub (Var 2)
                   (Mul (Grad (cost l) 2 [chain_end l])
                        (Cast default_lr floatX))).
Proof.
  destruct (cd_parameter_updates ex_crbm ex_rng default_lr 1 ex_store
              eq_refl ex_crbm_inv ex_filter_fits ex_well_typed)
    as (l & mc & s' & _ & Hret & _ & _ & _ & Hp & _).
  exists l, mc, s'. split; [exact Hret|].
  apply Hp. apply elem_of_cons. left. reflexivity.
Defined.

Lemma conv_shapes_inverse_witness :
  exists e_up up e_down down,
    conv_upward ex_crbm (Var 1) ex_store = Ok (e_up, ex_store)
    /\ eval ex_env e_up = Some up
    /\ shape_of up = [1; 2; 2; 2]
    /\ conv_downward ex_crbm (Var 5) ex_store = Ok (e_down, ex_store)
    /\ eval ex_env e_down = Some down
    /\ shape_of down = [1; 1; 3; 3].
Proof.
  destruct (conv_shapes_inverse Zarith ex_env ex_crbm ex_W ex_hbias ex_vbias
              ex_crbm_inv eq_refl eq_refl eq_refl eq_refl eq_refl eq_refl
              ltac:(vm_compute; split; [reflexivity | discriminate])
              ltac:(vm_compute; split; [reflexivity | discriminate])
              ex_store ex_typed (Var 1) ex_v eq_refl eq_refl)
    as (_ & _ & e_up & up & Hr & Hup & Hs & _ & Hdown & _).
  destruct (Hdown (Var 5) ex_h eq_refl eq_refl)
    as (e_down & down & Hrd & Hd & Hds & _).
  exists e_up, up, e_down, down.
  split; [exact Hr|]. split; [exact Hup|]. split; [exact Hs|].
  split; [exact Hrd|]. split; [exact Hd | exact Hds].
Defined.

Lemma cd_reconstruction_cost_witness :
  exists l s' g,
    get_cost_updates ex_crbm default_lr 1 None ex_store
    = Ok ((reconstruction_graph ex_crbm (last_step (pre_sigmoid_nvs l)),
           updates l), s')
    /\ last_value (last_step (pre_sigmoid_nvs l)) = Some (pre_sigmoid_v g)
    /\ v_mean g = Sigmoid (pre_sigmoid_v g).
Proof.
  destruct (cd_reconstruction_cost ex_crbm ex_rng default_lr 1 ex_store
              eq_refl ex_crbm_inv ex_filter_fits ex_well_typed (le_n 1))
    as ((l & s' & st_v & st_h & g & _ & _ & _ & _ & _ & _ & Hall & Hg & Hlast
         & _ & _ & Hret) & _).
  exists l, s', g. split; [exact Hret|]. split; [exact Hlast|].
  apply last_Some_elem_of in Hg.
  rewrite Forall_forall in Hall. apply (Hall g Hg).
Defined.

Lemma init_parameters_witness :
  exists self s',
    __init__ None ex_FS ex_IS (Some 2%positive) None None None None ex_store
    = Ok (self, s')
    /\ params self = [W self; hbias self; vbias self]
    /\ s' !! hbias self
       = Some (SharedVariable "hbias"
                 (mk_ndarray floatX [2] [NpDec 0 0; NpDec 0 0]))
    /\ s' !! vbias self
       = Some (SharedVariable "vbias" (mk_ndarray floatX [1] [NpDec 0 0])).
Proof.
  destruct (init_parameters None ex_FS ex_IS (Some 2%positive) None None
              None None ex_store eq_refl
              ltac:(discriminate)
              ltac:(intros _; vm_compute; discriminate)
              ltac:(intros _; vm_compute; discriminate))
    as (self & s' & Hrun & Hp & Hb & Hc & _).
  exists self, s'. split; [exact Hrun|]. split; [exact Hp|].
  split; [apply (Hb eq_refl) | apply (Hc eq_refl)].
Defined.

Lemma init_shape_precondition_witness :
  __init__ None ex_FS (1, 3, 3, 3) None None None None None ex_store
  = Raise AssertionError.
Proof.
  apply (proj1 (init_shape_precondition None ex_FS (1, 3, 3, 3) None None
                  None None None ex_store)).
  vm_compute. discriminate.
Defined.

Lemma pcd_never_returns_witness :
  get_cost_updates ex_crbm default_lr 2 (Some 5%positive) ex_store
  = Raise AttributeError.
Proof.
  destruct (pcd_never_returns ex_crbm default_lr 2 5%positive ex_store)
    as (_ & _ & _ & Hattr).
  apply (Hattr ex_rng eq_refl ex_crbm_inv ex_filter_fits ex_well_typed
           eq_refl).
Defined.

(** * More about the constructor *)

(** X1.  The constructor returns exactly when the assertion holds and each numpy
    call that it makes returns; otherwise the first failing step decides the
    exception: the assertion, then the creation of [W], then the zero vector
    of [hbias], then the zero vector of [vbias]. *)
Theorem init_outcome inp fs ims w0 hb vb nrng trng s :
  ((exists self s',
      __init__ inp fs ims w0 hb vb nrng trng s = Ok (self, s'))
   <-> sh1 ims = sh1 fs
       /\ (w0 = None -> exists g u,
             nrng = Some g
             /\ uniform g (NpNeg (W_bound fs)) (W_bound fs) (shape4_list fs)
                = Ok u)
       /\ (hb = None -> 0 <= sh0 fs)
       /\ (vb = None -> 0 <= sh1 fs))
  /\ (sh1 ims = sh1 fs -> w0 = None -> nrng = None ->
      __init__ inp fs ims w0 hb vb nrng trng s = Raise AttributeError)
  /\ (forall g e,
        sh1 ims = sh1 fs -> w0 = None -> nrng = Some g ->
        uniform g (NpNeg (W_bound fs)) (W_bound fs) (shape4_list fs) = Raise e ->
        __init__ inp fs ims w0 hb vb nrng trng s = Raise e)
  /\ (sh1 ims = sh1 fs ->
      (w0 = None -> exists g u,
         nrng = Some g
         /\ uniform g (NpNeg (W_bound fs)) (W_bound fs) (shape4_list fs)
            = Ok u) ->
      (hb = None /\ sh0 fs < 0) \/ (vb = None /\ sh1 fs < 0) ->
      __init__ inp fs ims w0 hb vb nrng trng s = Raise ValueError).
Proof.
  assert (forall s0, exists i s1,
            match inp with None => TT_matrix "input" | Some i => ret i end s0
            = Ok (i, s1)) as Hinp.
  { intros s0. destruct inp; eexists _, _; reflexivity. }
  assert (sh1 ims = sh1 fs -> w0 = None -> nrng = None ->
          __init__ inp fs ims w0 hb vb nrng trng s = Raise AttributeError)
    as E1.
  { intros Heq -> ->. unfold __init__. rewrite decide_True by exact Heq.
    destruct (Hinp s) as (i & s1 & Hi). rewrite (bind_ok _ _ _ _ _ Hi).
    reflexivity. }
  assert (forall g e,
            sh1 ims = sh1 fs -> w0 = None -> nrng = Some g ->
            uniform g (NpNeg (W_bound fs)) (W_bound fs) (shape4_list fs)
            = Raise e ->
            __init__ inp fs ims w0 hb vb nrng trng s = Raise e) as E2.
  { intros g e Heq -> -> Hu. unfold __init__. rewrite decide_True by exact Heq.
    destruct (Hinp s) as (i & s1 & Hi). rewrite (bind_ok _ _ _ _ _ Hi).
    unfold bind, lift. cbv zeta. rewrite Hu. reflexivity. }
  assert (sh1 ims = sh1 fs ->
          (w0 = None -> exists g u,
             nrng = Some g
             /\ uniform g (NpNeg (W_bound fs)) (W_bound fs) (shape4_list fs)
                = Ok u) ->
          (hb = None /\ sh0 fs < 0) \/ (vb = None /\ sh1 fs < 0) ->
          __init__ inp fs ims w0 hb vb nrng trng s = Raise ValueError) as E3.
  { intros Heq HW Hneg. unfold __init__. rewrite decide_True by exact Heq.
    destruct (Hinp s) as (i & s1 & Hi). rewrite (bind_ok _ _ _ _ _ Hi).
    assert (exists w s2,
              match w0 with
              | None =>
                  let W_bound := W_bound fs in
                  match nrng with
                  | None => raise AttributeError
                  | Some g =>
                      u <- lift (uniform g (NpNeg W_bound) W_bound
                                   (shape4_list fs)) ;;
                      theano_shared (np_asarray u floatX) "W"
                  end
              | Some w => ret w
              end s1 = Ok (w, s2)) as (w & s2 & Hw).
    { destruct w0 as [w1|]; [eexists _, _; reflexivity|].
      destruct (HW eq_refl) as (g & u & -> & Hu). cbv zeta.
      unfold bind, lift. rewrite Hu. eexists _, _. reflexivity. }
    rewrite (bind_ok _ _ _ _ _ Hw).
    destruct (decide (hb = None /\ sh0 fs < 0)) as [[-> Hn]|Hhb].
    - unfold bind at 1. unfold bind at 1. unfold lift, np_zeros.
      rewrite decide_True by exact Hn. reflexivity.
    - destruct Hneg as [Hbad|[-> Hn]]; [contradiction|].
      assert (exists b s3,
                match hb with
                | None => z <- lift (np_zeros (sh0 fs) floatX) ;;
                          theano_shared z "hbias"
                | Some b => ret b
                end s2 = Ok (b, s3)) as (b & s3 & Hb).
      { destruct hb as [b0|]; [eexists _, _; reflexivity|].
        unfold bind, lift. rewrite np_zeros_ok by (apply Z.nlt_ge; tauto).
        eexists _, _. reflexivity. }
      rewrite (bind_ok _ _ _ _ _ Hb).
      unfold bind at 1. unfold bind at 1. unfold lift, np_zeros.
      rewrite decide_True by exact Hn. reflexivity. }
  split; [|split; [exact E1|split; [exact E2 | exact E3]]].
  split.
  - intros (self & s' & Hrun).
    destruct (decide (sh1 ims = sh1 fs)) as [Heq|Hne].
    2:{ unfold __init__ in Hrun. rewrite decide_False in Hrun by exact Hne.
        discriminate. }
    split; [exact Heq|].
    assert (w0 = None -> exists g u,
              nrng = Some g
              /\ uniform g (NpNeg (W_bound fs)) (W_bound fs) (shape4_list fs)
                 = Ok u) as HW.
    { intros Hw0. destruct nrng as [g|].
      - destruct (uniform g (NpNeg (W_bound fs)) (W_bound fs)
                    (shape4_list fs)) as [u|e] eqn:Hu.
        + exists g, u. auto.
        + rewrite (E2 g e Heq Hw0 eq_refl Hu) in Hrun. discriminate.
      - rewrite (E1 Heq Hw0 eq_refl) in Hrun. discriminate. }
    split; [exact HW|]. split.
    + intros Hhb. destruct (decide (0 <= sh0 fs)) as [H0|H0]; [exact H0|].
      rewrite (E3 Heq HW) in Hrun; [discriminate|]. left. split; [exact Hhb|lia].
    + intros Hvb. destruct (decide (0 <= sh1 fs)) as [H0|H0]; [exact H0|].
      rewrite (E3 Heq HW) in Hrun; [discriminate|]. right. split; [exact Hvb|lia].
  - intros (Heq & HW & Hhb & Hvb).
    destruct (init_run inp fs ims w0 hb vb nrng trng s Heq HW Hhb Hvb)
      as (self & s' & Hrun & _). eauto.
Qed.

(** X2.  A stand-alone CRBM (no input, no parameter given): the constructor
    creates four objects, the input matrix and the three parameters, whose
    identities differ from each other and from every object that existed; it
    changes no existing object; [W] holds the array that the generator
    returned for the bounds [-W_bound], [W_bound] and the size [FS], with the
    dtype [floatX]. *)
Theorem init_standalone fs ims g u trng s :
  sh1 ims = sh1 fs ->
  0 <= sh0 fs ->
  0 <= sh1 fs ->
  uniform g (NpNeg (W_bound fs)) (W_bound fs) (shape4_list fs) = Ok u ->
  exists self s' i,
    __init__ None fs ims None None None (Some g) trng s = Ok (self, s')
    /\ input self = Var i
    /\ NoDup [i; W self; hbias self; vbias self]
    /\ (forall j, j ∈ [i; W self; hbias self; vbias self] -> j ∉ dom s)
    /\ dom s' = {[i; W self; hbias self; vbias self]} ∪ dom s
    /\ (forall j o, s !! j = Some o -> s' !! j = Some o)
    /\ s' !! i = Some (TensorVariable "input" 2)
    /\ s' !! W self
       = Some (SharedVariable "W" (mk_ndarray floatX (np_shape u) (np_data u)))
    /\ params self = [W self; hbias self; vbias self]
    /\ theano_rng self = trng.
Proof.
  intros Heq H0 H1 Hu.
  set (i := fresh (dom s)).
  set (s1 := <[i := TensorVariable "input" 2]> s).
  set (w := fresh (dom s1)).
  set (s2 := <[w := SharedVariable "W" (np_asarray u floatX)]> s1).
  set (b := fresh (dom s2)).
  set (s3 := <[b := SharedVariable "hbias"
                      (mk_ndarray floatX [sh0 fs]
                         (replicate (Z.to_nat (sh0 fs)) (NpDec 0 0)))]> s2).
  set (c := fresh (dom s3)).
  set (s4 := <[c := SharedVariable "vbias"
                      (mk_ndarray floatX [sh1 fs]
                         (replicate (Z.to_nat (sh1 fs)) (NpDec 0 0)))]> s3).
  assert (__init__ None fs ims None None None (Some g) trng s
          = Ok (mk_CRBM (Var i) w b c fs ims
                  (sh1 fs, sh0 fs, sh2 fs, sh3 fs)
                  (sh0 ims, sh0 fs, sh2 ims - sh2 fs + 1,
                   sh3 ims - sh3 fs + 1) trng [w; b; c], s4)) as Hrun.
  { unfold __init__. rewrite decide_True by exact Heq.
    unfold bind, lift, TT_matrix, theano_shared, alloc, ret, bind. cbv zeta.
    rewrite Hu, !np_zeros_ok by assumption. reflexivity. }
  pose proof (is_fresh (dom s)) as Fi. fold i in Fi.
  pose proof (is_fresh (dom s1)) as Fw. fold w in Fw.
  pose proof (is_fresh (dom s2)) as Fb. fold b in Fb.
  pose proof (is_fresh (dom s3)) as Fc. fold c in Fc.
  assert (dom s1 = {[i]} ∪ dom s) as D1 by apply dom_insert_L.
  assert (dom s2 = {[w]} ∪ dom s1) as D2 by apply dom_insert_L.
  assert (dom s3 = {[b]} ∪ dom s2) as D3 by apply dom_insert_L.
  assert (dom s4 = {[c]} ∪ dom s3) as D4 by apply dom_insert_L.
  rewrite D3, D2, D1 in Fc. rewrite D2, D1 in Fb. rewrite D1 in Fw.
  assert ((i ∉ dom s) /\ (w ∉ dom s) /\ (b ∉ dom s) /\ (c ∉ dom s)
          /\ w <> i /\ b <> i /\ b <> w /\ c <> i /\ c <> w /\ c <> b)
    as (Ni & Nw & Nb & Nc & Nwi & Nbi & Nbw & Nci & Ncw & Ncb).
  { clear - Fi Fw Fb Fc. clearbody i w b c.
    apply not_elem_of_union in Fw as [Fw1 Fw2].
    apply not_elem_of_union in Fb as [Fb1 Fb2].
    apply not_elem_of_union in Fb2 as [Fb2 Fb3].
    apply not_elem_of_union in Fc as [Fc1 Fc2].
    apply not_elem_of_union in Fc2 as [Fc2 Fc3].
    apply not_elem_of_union in Fc3 as [Fc3 Fc4].
    rewrite not_elem_of_singleton in Fw1, Fb1, Fb2, Fc1, Fc2, Fc3.
    repeat split; assumption. }
  eexists _, s4, i. split; [exact Hrun|].
  cbn [input W hbias vbias params theano_rng].
  split; [reflexivity|]. split.
  { clear - Nwi Nbi Nbw Nci Ncw Ncb. clearbody i w b c.
    repeat constructor; rewrite ?not_elem_of_cons; repeat split;
      try apply not_elem_of_nil; auto. }
  split.
  { intros j Hj. clear - Hj Ni Nw Nb Nc. clearbody i w b c.
    rewrite !elem_of_cons in Hj.
    destruct Hj as [->|[->|[->|[->|Hj]]]]; try assumption.
    apply elem_of_nil in Hj. contradiction. }
  split.
  { rewrite D4, D3, D2, D1. clear. clearbody i w b c.
    apply set_eq. intros j.
    repeat (rewrite elem_of_union || rewrite elem_of_singleton). tauto. }
  split.
  { intros j o Hj.
    assert (j ∈ dom s) as Hd by (apply elem_of_dom; eauto).
    unfold s4, s3, s2, s1.
    rewrite lookup_insert_ne by (intros <-; contradiction).
    rewrite lookup_insert_ne by (intros <-; contradiction).
    rewrite lookup_insert_ne by (intros <-; contradiction).
    rewrite lookup_insert_ne by (intros <-; contradiction).
    exact Hj. }
  split.
  { unfold s4, s3, s2, s1.
    rewrite lookup_insert_ne by exact Nci.
    rewrite lookup_insert_ne by exact Nbi.
    rewrite lookup_insert_ne by exact Nwi.
    apply lookup_insert_eq. }
  split.
  { unfold s4, s3, s2.
    rewrite lookup_insert_ne by exact Ncw.
    rewrite lookup_insert_ne by exact Nbw.
    apply lookup_insert_eq. }
  split; reflexivity.
Qed.

(** * More about the CRBM that the constructor returns *)

Lemma init_inv inp fs ims w0 hb vb nrng trng s self s' :
  __init__ inp fs ims w0 hb vb nrng trng s = Ok (self, s') ->
  theano_rng self = trng /\ FS self = fs /\ IS self = ims /\ crbm_inv self.
Proof.
  unfold __init__. case_decide as Heq; [|discriminate].
  unfold bind at 1.
  match goal with
  | |- match ?m with Ok _ => _ | Raise _ => _ end = _ -> _ =>
      destruct m as [[i s1]|]; [|discriminate]
  end.
  unfold bind at 1.
  match goal with
  | |- match ?m with Ok _ => _ | Raise _ => _ end = _ -> _ =>
      destruct m as [[w s2]|]; [|discriminate]
  end.
  unfold bind at 1.
  match goal with
  | |- match ?m with Ok _ => _ | Raise _ => _ end = _ -> _ =>
      destruct m as [[b s3]|]; [|discriminate]
  end.
  unfold bind at 1.
  match goal with
  | |- match ?m with Ok _ => _ | Raise _ => _ end = _ -> _ =>
      destruct m as [[c s4]|]; [|discriminate]
  end.
  unfold ret. intros [= <- _]. repeat split. exact Heq.
Qed.

Lemma shared_grows (x : option positive) (r : result ndarray) name s p s' :
  match x with
  | None => z <- lift r ;; theano_shared z name
  | Some b => ret b
  end s = Ok (p, s') ->
  grows s s'.
Proof.
  destruct x as [b|].
  - intros [= _ <-]. apply grows_refl.
  - unfold bind, lift, theano_shared, alloc. destruct r as [z|e]; [|discriminate].
    intros [= _ <-]. apply grows_alloc.
Qed.

(** The input of a CRBM that was constructed without one is a new matrix:
    a variable of two dimensions. *)
Lemma init_input_matrix fs ims w0 hb vb nrng trng s self s' :
  __init__ None fs ims w0 hb vb nrng trng s = Ok (self, s') ->
  exists i, input self = Var i
            /\ (i ∉ dom s)
            /\ s' !! i = Some (TensorVariable "input" 2).
Proof.
  unfold __init__. case_decide as Heq; [|discriminate].
  unfold bind at 1. unfold TT_matrix, bind at 1, alloc, ret at 1.
  set (i := fresh (dom s)).
  set (s1 := <[i := TensorVariable "input" 2]> s).
  unfold bind at 1.
  match goal with
  | |- match ?m with Ok _ => _ | Raise _ => _ end = _ -> _ =>
      destruct m as [[w s2]|] eqn:EW; [|discriminate]
  end.
  unfold bind at 1.
  match goal with
  | |- match ?m with Ok _ => _ | Raise _ => _ end = _ -> _ =>
      destruct m as [[b s3]|] eqn:Eb; [|discriminate]
  end.
  unfold bind at 1.
  match goal with
  | |- match ?m with Ok _ => _ | Raise _ => _ end = _ -> _ =>
      destruct m as [[c s4]|] eqn:Ec; [|discriminate]
  end.
  unfold ret. intros [= <- <-]. cbn [input].
  exists i. split; [reflexivity|]. split; [apply is_fresh|].
  assert (grows s1 s2) as G2.
  { destruct w0 as [w1|].
    - injection EW as _ <-. apply grows_refl.
    - cbv zeta in EW. destruct nrng as [g|]; [|discriminate].
      unfold bind, lift, theano_shared, alloc in EW.
      destruct (uniform g _ _ _) as [u|]; [|discriminate].
      injection EW as _ <-. apply grows_alloc. }
  pose proof (shared_grows _ _ _ _ _ _ Eb) as G3.
  pose proof (shared_grows _ _ _ _ _ _ Ec) as G4.
  apply G4, G3, G2. unfold s1. apply lookup_insert_eq.
Qed.

(** * The store and the update dictionary of a CD step *)




(** X4.  The dictionary that a CD step returns has an entry for each of
    [W], [hbias] and [vbias].  For one step it has no other entry: the scan
    returns no updates, and the random streams are not in the dictionary.
    Otherwise it has two more entries, for the two random-state variables of
    the chain, each mapped to its state after the loop.  The random state of
    the positive phase is never a key.  With three distinct parameters the
    dictionary has three entries for one step and five otherwise. *)
Theorem cd_updates_domain self rng lr k s :
  theano_rng self = Some rng ->
  crbm_inv self ->
  filter_fits self ->
  well_typed s self ->
  exists monitoring_cost u s' st0 st_v st_h,
    get_cost_updates self lr k None s = Ok ((monitoring_cost, u), s')
    /\ NoDup [st0; st_v; st_h]
    /\ Forall (fun st => (st ∉ dom s)
                         /\ s' !! st
                            = Some (RandomStateVariable (rs_seed rng)))
              [st0; st_v; st_h]
    /\ dom u
       = {[W self; hbias self; vbias self]}
         ∪ (if decide (k = 1%nat) then ∅ else {[st_v; st_h]})
    /\ (st0 ∉ dom u)
    /\ (forall st e,
          st ∈ [st_v; st_h] -> u !! st = Some e ->
          exists h start,
            e = Scan k [h] [start]
                  (step_outputs (hvh_step self st_v st_h (Var h))) [5%nat]
                  (SShared st))
    /\ (NoDup [W self; hbias self; vbias self] ->
        base.size u = if decide (k = 1%nat) then 3%nat else 5%nat).
Proof.
  intros Hrng Hinv Hfit Hty.
  pose proof (get_cost_updates_run self rng s Hrng Hinv Hfit Hty lr k) as Hrun.
  destruct (cd_store_streams self rng s None)
    as (H0 & Hv & Hh & H0v & H0h & Hvh & Hst).
  pose proof (proj1 Hinv) as Hparams.
  destruct Hty as (_ & HW & Hhb & Hvb).
  apply typed_in_dom in HW, Hhb, Hvb.
  set (s1 := ph_store rng s) in *.
  set (start := cd_start self None s) in *.
  set (st_v := chain_st_v s1 start) in *.
  set (st_h := chain_st_h rng s1 start) in *.
  set (l := cd_result self rng lr k None s) in *.
  assert (grows s s1) as G1 by apply grows_alloc.
  assert (dom (updates l)
          = {[W self; hbias self; vbias self]}
            ∪ (if decide (k = 1%nat) then ∅ else {[st_v; st_h]})) as Hdom.
  { unfold l, cd_result. cbn [updates]. rewrite param_updates_dom, Hparams.
    f_equal.
    - cbn [list_to_set]. apply set_eq. intros y.
      rewrite !elem_of_union, !elem_of_singleton, elem_of_empty. tauto.
    - unfold chain_updates. fold s1 start st_v st_h. case_decide.
      + apply dom_empty_L.
      + rewrite dom_insert_L, dom_singleton_L. reflexivity. }
  assert (forall p, p ∈ dom s -> p <> fresh (dom s)) as Hne0.
  { intros p Hp E. apply (is_fresh (dom s)). rewrite <- E. exact Hp. }
  assert (forall p, p ∈ dom s -> p <> st_v) as Hnev.
  { intros p Hp E. apply Hv. rewrite <- E. apply G1, Hp. }
  assert (forall p, p ∈ dom s -> p <> st_h) as Hneh.
  { intros p Hp E. apply Hh. rewrite <- E. apply G1, Hp. }
  eexists _, _, _, (fresh (dom s)), st_v, st_h.
  split; [exact Hrun|].
  split.
  { repeat constructor; rewrite ?not_elem_of_cons; repeat split;
      try apply not_elem_of_nil; assumption. }
  split.
  { apply Forall_cons in Hst as [Hs0 Hst].
    apply Forall_cons in Hst as [Hsv Hst].
    apply Forall_cons in Hst as [Hsh _].
    repeat constructor; try assumption.
    - intros Hin. apply Hv, G1, Hin.
    - intros Hin. apply Hh, G1, Hin. }
  split; [exact Hdom|].
  split.
  { rewrite Hdom. rewrite !elem_of_union, !elem_of_singleton.
    intros [[[E|E]|E]|Hin].
    - apply (Hne0 _ HW). auto.
    - apply (Hne0 _ Hhb). auto.
    - apply (Hne0 _ Hvb). auto.
    - case_decide; [apply elem_of_empty in Hin; exact Hin|].
      rewrite elem_of_union, !elem_of_singleton in Hin.
      destruct Hin as [E|E]; [apply H0v | apply H0h]; exact E. }
  split.
  { intros st e Hin He.
    pose proof (cd_result_updates self rng s lr k None st) as Hup.
    cbv zeta in Hup. fold l in Hup. rewrite Hparams in Hup.
    rewrite decide_False in Hup.
    2:{ rewrite !elem_of_cons in Hin. rewrite !elem_of_cons.
        intros [E|[E|[E|E]]]; [| | |apply elem_of_nil in E; exact E].
        - destruct Hin as [->|[->|[]%elem_of_nil]];
            [apply (Hnev _ HW) | apply (Hneh _ HW)]; auto.
        - destruct Hin as [->|[->|[]%elem_of_nil]];
            [apply (Hnev _ Hhb) | apply (Hneh _ Hhb)]; auto.
        - destruct Hin as [->|[->|[]%elem_of_nil]];
            [apply (Hnev _ Hvb) | apply (Hneh _ Hvb)]; auto. }
    rewrite Hup in He. unfold l, cd_result in He. cbn [scan_updates] in He.
    apply chain_updates_lookup in He as (Hk & _ & ->).
    unfold chain_loop. eexists _, _. reflexivity. }
  intros Hnd. rewrite <- size_dom, Hdom.
  assert (NoDup ([W self; hbias self; vbias self]
                 ++ (if decide (k = 1%nat) then [] else [st_v; st_h])))
    as Hall.
  { apply NoDup_app. split; [exact Hnd|]. split.
    - intros p Hp Hin. rewrite !elem_of_cons in Hp.
      assert (p ∈ dom s) as Hps.
      { destruct Hp as [->|[->|[->|[]%elem_of_nil]]]; assumption. }
      case_decide; [apply elem_of_nil in Hin; exact Hin|].
      rewrite !elem_of_cons in Hin.
      destruct Hin as [E|[E|[]%elem_of_nil]];
        [apply (Hnev _ Hps) | apply (Hneh _ Hps)]; exact E.
    - case_decide; [constructor|].
      repeat constructor; rewrite ?not_elem_of_cons; repeat split;
        try apply not_elem_of_nil; assumption. }
  assert (({[W self; hbias self; vbias self]}
           ∪ (if decide (k = 1%nat) then ∅ else {[st_v; st_h]}) : gset positive)
          = list_to_set ([W self; hbias self; vbias self]
                         ++ (if decide (k = 1%nat) then []
                             else [st_v; st_h]))) as ->.
  { rewrite list_to_set_app_L. f_equal.
    - cbn [list_to_set]. apply set_eq. intros y.
      rewrite !elem_of_union, !elem_of_singleton, elem_of_empty. tauto.
    - case_decide; [reflexivity|]. cbn [list_to_set]. apply set_eq. intros y.
      rewrite !elem_of_union, !elem_of_singleton, elem_of_empty. tauto. }
  rewrite (size_list_to_set _ Hall), length_app.
  case_decide; reflexivity.
Qed.

(** * The one-step Gibbs functions *)

(** X5.  On a four-dimensional visible state, [gibbs_vhv] draws the hidden
    units with the probabilities [sigmoid(conv_upward(v0))], then the visible
    units with the probabilities [sigmoid(conv_downward(h1))] of that hidden
    sample, from two new streams that differ, and returns the hidden triple
    first.  Its samples are four-dimensional again, so that the step can be
    iterated: [gibbs_vhv] on the visible sample succeeds, and [gibbs_hvh] on
    the hidden sample succeeds and builds the same visible activation and
    mean as the second half of [gibbs_vhv], with a draw of its own from
    another stream. *)
Theorem gibbs_vhv_steps self rng v0 s :
  theano_rng self = Some rng ->
  crbm_inv self ->
  filter_fits self ->
  params_typed s self ->
  ndim_of s v0 = Some 4%nat ->
  exists st_h st_v h1 v1 s2,
    gibbs_vhv self v0 s
    = Ok ([upward_graph self v0; Sigmoid (upward_graph self v0); h1;
           downward_graph self h1; Sigmoid (downward_graph self h1); v1], s2)
    /\ h1 = Binomial st_h (Shape (Sigmoid (upward_graph self v0))) 1
              (Sigmoid (upward_graph self v0)) floatX
    /\ v1 = Binomial st_v (Shape (Sigmoid (downward_graph self h1))) 1
              (Sigmoid (downward_graph self h1)) floatX
    /\ conv_upward self v0 s = Ok (upward_graph self v0, s)
    /\ conv_downward self h1 s2 = Ok (downward_graph self h1, s2)
    /\ st_h <> st_v
    /\ (st_h ∉ dom s) /\ (st_v ∉ dom s)
    /\ s2 !! st_h = Some (RandomStateVariable (rs_seed rng))
    /\ s2 !! st_v = Some (RandomStateVariable (rs_seed rng))
    /\ grows s s2
    /\ ndim_of s2 h1 = Some 4%nat
    /\ ndim_of s2 v1 = Some 4%nat
    /\ (exists outs s3, gibbs_vhv self v1 s2 = Ok (outs, s3))
    /\ (exists st_v' st_h' v1' rest s3,
          gibbs_hvh self h1 s2
          = Ok (downward_graph self h1 :: Sigmoid (downward_graph self h1)
                :: v1' :: rest, s3)
          /\ v1' = Binomial st_v' (Shape (Sigmoid (downward_graph self h1))) 1
                     (Sigmoid (downward_graph self h1)) floatX
          /\ rest = [upward_graph self v1'; Sigmoid (upward_graph self v1');
                     Binomial st_h' (Shape (Sigmoid (upward_graph self v1')))
                       1 (Sigmoid (upward_graph self v1')) floatX]
          /\ st_v' <> st_v /\ st_v' <> st_h
          /\ st_h' <> st_v /\ st_h' <> st_h /\ st_h' <> st_v').
Proof.
  intros Hrng Hinv Hfit Hpt Hv0.
  pose proof (gibbs_vhv_run self rng s Hrng Hinv Hfit Hpt v0 s (grows_refl s)
                Hv0) as Hrun.
  cbv zeta in Hrun.
  set (st_h := fresh (dom s)) in *.
  set (s1 := <[st_h := RandomStateVariable (rs_seed rng)]> s) in *.
  set (st_v := fresh (dom s1)) in *.
  set (s2 := <[st_v := RandomStateVariable (rs_seed rng)]> s1) in *.
  set (h1 := draw st_h (Sigmoid (upward_graph self v0))) in *.
  set (v1 := draw st_v (Sigmoid (downward_graph self h1))) in *.
  assert (grows s s1) as G1 by apply grows_alloc.
  assert (grows s1 s2) as G12 by apply grows_alloc.
  assert (grows s s2) as G2 by (eapply grows_trans; eassumption).
  assert (ndim_of s2 h1 = Some 4%nat) as Hh1.
  { apply (ndim_draw_upward self s Hpt _ _ _ G2). }
  assert (ndim_of s2 v1 = Some 4%nat) as Hv1.
  { apply (ndim_draw_downward self s Hpt _ _ _ G2). }
  assert (st_h ∈ dom s1) as Hin1.
  { unfold s1. rewrite dom_insert_L.
    apply elem_of_union_l, elem_of_singleton. reflexivity. }
  assert (st_v ∈ dom s2) as Hin2.
  { unfold s2. rewrite dom_insert_L.
    apply elem_of_union_l, elem_of_singleton. reflexivity. }
  assert (st_h <> st_v) as Hne.
  { intros E. apply (is_fresh (dom s1)). fold st_v. rewrite <- E.
    exact Hin1. }
  exists st_h, st_v, h1, v1, s2.
  split; [exact Hrun|]. split; [reflexivity|]. split; [reflexivity|].
  split; [apply (conv_upward_run self s Hinv Hfit Hpt v0 s (grows_refl s) Hv0)|].
  split; [apply (conv_downward_run self s Hinv Hfit Hpt h1 s2 G2 Hh1)|].
  split; [exact Hne|].
  split; [apply is_fresh|].
  split; [intros Hin; apply (is_fresh (dom s1)), G1, Hin|].
  split.
  { unfold s2. rewrite lookup_insert_ne by (intros E; apply Hne; auto).
    apply lookup_insert_eq. }
  split; [apply lookup_insert_eq|].
  split; [exact G2|]. split; [exact Hh1|]. split; [exact Hv1|].
  split.
  { eexists _, _.
    apply (gibbs_vhv_run self rng s Hrng Hinv Hfit Hpt v1 s2 G2 Hv1). }
  pose proof (gibbs_hvh_run self rng s Hrng Hinv Hfit Hpt h1 s2 G2 Hh1)
    as Hhvh.
  set (a := fresh (dom s2)) in *.
  set (s3 := <[a := RandomStateVariable (rs_seed rng)]> s2) in *.
  set (b := fresh (dom s3)) in *.
  assert (grows s2 s3) as G23 by apply grows_alloc.
  assert (forall x, x ∈ dom s2 -> a <> x) as Ha.
  { intros x Hx E. apply (is_fresh (dom s2)). fold a. rewrite E. exact Hx. }
  assert (forall x, x ∈ dom s3 -> b <> x) as Hb.
  { intros x Hx E. apply (is_fresh (dom s3)). fold b. rewrite E. exact Hx. }
  eexists a, b, _, _, _.
  split; [exact Hhvh|]. split; [reflexivity|]. split; [reflexivity|].
  split; [apply Ha, Hin2|].
  split; [apply Ha, G12, Hin1|].
  split; [apply Hb, G23, Hin2|].
  split; [apply Hb, G23, G12, Hin1|].
  apply Hb. unfold s3. rewrite dom_insert_L.
  apply elem_of_union_l, elem_of_singleton. reflexivity.
Qed.

(** X6.  A CRBM that was constructed without [theano_rng] cannot sample:
    the functions that draw from the random stream, and [get_cost_updates],
    return for no argument.  They raise AttributeError when the
    propagation that precedes the draw is built (a four-dimensional
    argument, parameters of the documented numbers of dimensions, filters
    that fit); otherwise they raise the exception of the propagation. *)
Theorem sampling_needs_rng inp fs ims w0 hb vb nrng s self s' :
  __init__ inp fs ims w0 hb vb nrng None s = Ok (self, s') ->
  forall x st,
    (exists e, sample_h_given_v self x st = Raise e)
    /\ (exists e, sample_v_given_h self x st = Raise e)
    /\ (exists e, gibbs_hvh self x st = Raise e)
    /\ (exists e, gibbs_vhv self x st = Raise e)
    /\ (forall lr k persistent,
          exists e, get_cost_updates self lr k persistent st = Raise e)
    /\ (filter_fits self -> params_typed st self ->
        ndim_of st x = Some 4%nat ->
        sample_h_given_v self x st = Raise AttributeError
        /\ sample_v_given_h self x st = Raise AttributeError
        /\ gibbs_hvh self x st = Raise AttributeError
        /\ gibbs_vhv self x st = Raise AttributeError)
    /\ (filter_fits self -> well_typed st self ->
        forall lr k persistent,
          get_cost_updates self lr k persistent st = Raise AttributeError).
Proof.
  intros Hrun.
  destruct (init_inv _ _ _ _ _ _ _ _ _ _ _ Hrun) as (Hrng & _ & _ & Hinv).
  assert (forall y t, exists e, sample_h_given_v self y t = Raise e) as Hh.
  { intros y t. unfold sample_h_given_v, bind.
    destruct (propup self y t) as [[[pre mean] t']|e]; [|eauto].
    unfold theano_rng_binomial. rewrite Hrng. eauto. }
  assert (forall y t, exists e, sample_v_given_h self y t = Raise e) as Hv.
  { intros y t. unfold sample_v_given_h, bind.
    destruct (propdown self y t) as [[[pre mean] t']|e]; [|eauto].
    unfold theano_rng_binomial. rewrite Hrng. eauto. }
  assert (forall y t, grows t t -> filter_fits self -> params_typed t self ->
            ndim_of t y = Some 4%nat ->
            sample_h_given_v self y t = Raise AttributeError) as HhA.
  { intros y t G Hfit Hpt Hy. unfold sample_h_given_v.
    rewrite (bind_ok _ _ _ _ _ (propup_run self t Hinv Hfit Hpt y t G Hy)).
    unfold theano_rng_binomial. rewrite Hrng. reflexivity. }
  assert (forall y t, grows t t -> filter_fits self -> params_typed t self ->
            ndim_of t y = Some 4%nat ->
            sample_v_given_h self y t = Raise AttributeError) as HvA.
  { intros y t G Hfit Hpt Hy. unfold sample_v_given_h.
    rewrite (bind_ok _ _ _ _ _ (propdown_run self t Hinv Hfit Hpt y t G Hy)).
    unfold theano_rng_binomial. rewrite Hrng. reflexivity. }
  intros x st.
  split; [apply Hh|]. split; [apply Hv|].
  split.
  { destruct (Hv x st) as [e He]. exists e. unfold gibbs_hvh.
    apply bind_raise, He. }
  split.
  { destruct (Hh x st) as [e He]. exists e. unfold gibbs_vhv.
    apply bind_raise, He. }
  split.
  { intros lr k persistent. destruct (Hh (input self) st) as [e He].
    exists e. unfold get_cost_updates. apply bind_raise, He. }
  split.
  { intros Hfit Hpt Hx.
    pose proof (HhA x st (grows_refl st) Hfit Hpt Hx) as H1.
    pose proof (HvA x st (grows_refl st) Hfit Hpt Hx) as H2.
    split; [exact H1|]. split; [exact H2|]. split.
    - unfold gibbs_hvh. apply bind_raise, H2.
    - unfold gibbs_vhv. apply bind_raise, H1. }
  intros Hfit [Hin Hpt] lr k persistent.
  unfold get_cost_updates.
  apply bind_raise, (HhA _ st (grows_refl st) Hfit Hpt Hin).
Qed.

(** X10.  A CRBM that was constructed without an input cannot propagate its
    own input: the constructor creates it with [TT.matrix], a variable of two
    dimensions, and [conv.conv2d] wants four.  With declared shapes that fit,
    [conv_upward], [free_energy], [propup], [sample_h_given_v] and
    [gibbs_vhv] on [self.input], [get_pseudo_likelihood_cost], and
    [get_cost_updates] for every learning rate, number of steps and
    persistent chain raise TypeError, in whatever store the call is made
    after the construction. *)
Theorem standalone_input_TypeError fs ims w0 hb vb nrng trng s self s' :
  __init__ None fs ims w0 hb vb nrng trng s = Ok (self, s') ->
  0 < sh2 ims - sh2 fs + 1 ->
  0 < sh3 ims - sh3 fs + 1 ->
  forall t,
    grows s' t ->
    ndim_of t (input self) = Some 2%nat
    /\ conv_upward self (input self) t = Raise TypeError
    /\ free_energy self (input self) t = Raise TypeError
    /\ propup self (input self) t = Raise TypeError
    /\ sample_h_given_v self (input self) t = Raise TypeError
    /\ gibbs_vhv self (input self) t = Raise TypeError
    /\ (forall u, get_pseudo_likelihood_cost self u t = Raise TypeError)
    /\ (forall lr k persistent,
          get_cost_updates self lr k persistent t = Raise TypeError).
Proof.
  intros Hrun Hh Hw t G.
  destruct (init_inv _ _ _ _ _ _ _ _ _ _ _ Hrun)
    as (_ & HFS & HIS & (_ & Hch & _)).
  destruct (init_input_matrix _ _ _ _ _ _ _ _ _ _ Hrun)
    as (i & Hi & _ & Hlook).
  assert (forall t', grows s' t' ->
            ndim_of t' (input self) = Some 2%nat) as Hnd.
  { intros t' G'. rewrite Hi. cbn [ndim_of].
    rewrite (proj2 G' _ _ Hlook). reflexivity. }
  assert (forall v t', ndim_of t' v = Some 2%nat ->
            conv_upward self v t' = Raise TypeError) as Hup.
  { intros v t' Hv. unfold conv_upward. apply bind_raise.
    apply conv_conv2d_TypeError.
    - exact Hch.
    - rewrite HFS, HIS. exact Hh.
    - rewrite HFS, HIS. exact Hw.
    - rewrite Hv. discriminate. }
  assert (forall v t', ndim_of t' v = Some 2%nat ->
            free_energy self v t' = Raise TypeError) as Hfe.
  { intros v t' Hv. unfold free_energy. apply bind_raise, Hup, Hv. }
  assert (propup self (input self) t = Raise TypeError) as Hpu.
  { unfold propup. apply bind_raise, Hup, Hnd, G. }
  assert (sample_h_given_v self (input self) t = Raise TypeError) as Hsh.
  { unfold sample_h_given_v. apply bind_raise, Hpu. }
  split; [apply Hnd, G|]. split; [apply Hup, Hnd, G|].
  split; [apply Hfe, Hnd, G|]. split; [exact Hpu|]. split; [exact Hsh|].
  split; [unfold gibbs_vhv; apply bind_raise, Hsh|].
  split.
  - intros u. unfold get_pseudo_likelihood_cost.
    unfold theano_shared at 1. unfold alloc at 1. unfold bind at 1.
    apply bind_raise, Hfe.
    change (ndim_of ?a (Round ?b)) with (ndim_of a b).
    apply Hnd. eapply grows_trans; [exact G | apply grows_alloc].
  - intros lr k persistent. unfold get_cost_updates.
    apply bind_raise, Hsh.
Qed.

(** * The recurrences between the outputs of the scan *)

(** X9.  The sequences that the scan of a CD or PCD step returns have [k]
    steps each, tied by the recurrences of the chain: the first pre-sigmoid
    visible activation is the downward propagation of [chain_start]
    ([ph_sample], or the persistent variable), every later one is the
    downward propagation of the hidden sample of the step before, the
    pre-sigmoid hidden activation of a step is the upward propagation of its
    visible sample, the means are the sigmoids of the activations, and every
    sample is a draw with one trial and the mean as probabilities, the
    visible ones from one stream and the hidden ones from another. *)
Theorem cd_chain_recurrences self rng lr k persistent s :
  theano_rng self = Some rng ->
  crbm_inv self ->
  filter_fits self ->
  well_typed s self ->
  (forall p, persistent = Some p -> ndim_of s (Var p) = Some 4%nat) ->
  exists l s' st_v st_h pvs vms vss phs hms hss,
    cd_graph self lr k persistent s = Ok (l, s')
    /\ st_v <> st_h
    /\ steps_of (pre_sigmoid_nvs l) = Some pvs
    /\ steps_of (nv_means l) = Some vms
    /\ steps_of (nv_samples l) = Some vss
    /\ steps_of (pre_sigmoid_nhs l) = Some phs
    /\ steps_of (nh_means l) = Some hms
    /\ steps_of (nh_samples l) = Some hss
    /\ Forall (fun seq : list expr => length seq = k)
              [pvs; vms; vss; phs; hms; hss]
    /\ (forall x, pvs !! 0%nat = Some x ->
          x = downward_graph self (chain_start l))
    /\ (forall i x hprev,
          pvs !! S i = Some x -> hss !! i = Some hprev ->
          x = downward_graph self hprev)
    /\ (forall i x v,
          phs !! i = Some x -> vss !! i = Some v ->
          x = upward_graph self v)
    /\ (forall i m x,
          vms !! i = Some m -> pvs !! i = Some x -> m = Sigmoid x)
    /\ (forall i m x,
          hms !! i = Some m -> phs !! i = Some x -> m = Sigmoid x)
    /\ (forall i v m,
          vss !! i = Some v -> vms !! i = Some m ->
          v = Binomial st_v (Shape m) 1 m floatX)
    /\ (forall i h m,
          hss !! i = Some h -> hms !! i = Some m ->
          h = Binomial st_h (Shape m) 1 m floatX).
Proof.
  intros Hrng Hinv Hfit Hty Hp.
  destruct (cd_graph_run self rng s Hrng Hinv Hfit Hty lr k persistent Hp)
    as (_ & _ & Hcd).
  pose proof (cd_result_steps self rng s Hty lr k persistent) as Hsteps.
  cbv zeta in Hsteps. unfold step_fields in Hsteps.
  destruct (cd_store_streams self rng s persistent)
    as (_ & _ & _ & _ & _ & Hvh & _).
  set (l := cd_result self rng lr k persistent s) in *.
  change (cd_start self persistent s) with (chain_start l) in Hvh.
  set (st_v := chain_st_v (ph_store rng s) (chain_start l)) in *.
  set (st_h := chain_st_h rng (ph_store rng s) (chain_start l)) in *.
  set (chain := gibbs_chain self st_v st_h (chain_start l) k) in *.
  repeat match goal with
         | H : Forall2 _ (_ :: _) (_ :: _) |- _ =>
             apply Forall2_cons in H; destruct H as [? H]
         end.
  pose proof (gibbs_chain_lookup self st_v st_h k (chain_start l)) as Hlk.
  fold chain in Hlk.
  assert (forall (f : gibbs_step -> expr) i x,
            (f <$> chain) !! i = Some x ->
            exists g, chain !! i = Some g /\ x = f g) as Hf.
  { intros f i x Hx. rewrite list_lookup_fmap in Hx.
    destruct (chain !! i) as [g|]; [|discriminate].
    injection Hx as <-. eauto. }
  exists l, (cd_store self rng persistent s), st_v, st_h,
    (pre_sigmoid_v <$> chain), (v_mean <$> chain), (v_sample <$> chain),
    (pre_sigmoid_h <$> chain), (h_mean <$> chain), (h_sample <$> chain).
  split; [exact Hcd|]. split; [exact Hvh|].
  do 6 (split; [assumption|]).
  split.
  { repeat constructor; rewrite length_fmap; apply length_gibbs_chain. }
  split.
  { intros x Hx. apply Hf in Hx as (g & Hg & ->).
    rewrite (Hlk _ _ Hg). reflexivity. }
  split.
  { intros i x hprev Hx Hh. apply Hf in Hx as (g & Hg & ->).
    apply Hf in Hh as (g' & Hg' & ->).
    rewrite (Hlk _ _ Hg). cbn. rewrite Hg'. reflexivity. }
  split.
  { intros i x v Hx Hv. apply Hf in Hx as (g & Hg & ->).
    apply Hf in Hv as (g' & Hg' & ->).
    rewrite Hg in Hg'. injection Hg' as <-.
    rewrite (Hlk _ _ Hg). reflexivity. }
  split.
  { intros i m x Hm Hx. apply Hf in Hm as (g & Hg & ->).
    apply Hf in Hx as (g' & Hg' & ->).
    rewrite Hg in Hg'. injection Hg' as <-.
    rewrite (Hlk _ _ Hg). reflexivity. }
  split.
  { intros i m x Hm Hx. apply Hf in Hm as (g & Hg & ->).
    apply Hf in Hx as (g' & Hg' & ->).
    rewrite Hg in Hg'. injection Hg' as <-.
    rewrite (Hlk _ _ Hg). reflexivity. }
  split.
  { intros i v m Hv Hm. apply Hf in Hv as (g & Hg & ->).
    apply Hf in Hm as (g' & Hg' & ->).
    rewrite Hg in Hg'. injection Hg' as <-.
    rewrite (Hlk _ _ Hg). reflexivity. }
  intros i h m Hh Hm. apply Hf in Hh as (g & Hg & ->).
  apply Hf in Hm as (g' & Hg' & ->).
  rewrite Hg in Hg'. injection Hg' as <-.
  rewrite (Hlk _ _ Hg). reflexivity.
Qed.

(** * Mean-field propagation *)

Section MeanField.

Variable F : arith.
Variable env : gmap positive (tensor F).
Variable self : CRBM.
Variables tW thb tvb : tensor F.

Hypothesis Hinv : crbm_inv self.
Hypothesis HW : env !! W self = Some tW.
Hypothesis HWd : t_dims tW = plain (shape4_list (FS self)).
Hypothesis Hhb : env !! hbias self = Some thb.
Hypothesis Hhbd : t_dims thb = plain [sh0 (FS self)].
Hypothesis Hvb : env !! vbias self = Some tvb.
Hypothesis Hvbd : t_dims tvb = plain [sh1 (FS self)].
Hypothesis Hfh : 0 < sh2 (FS self) <= sh2 (IS self).
Hypothesis Hfw : 0 < sh3 (FS self) <= sh3 (IS self).

Variable s : gmap positive vobj.
Hypothesis Htyped : typed s env.

(** X7.  For an input of the image shape, [propup] returns the graphs of the
    hidden pre-activation and of its mean, whose values are the
    pre-activation and, entry by entry, its sigmoid, both of the hidden
    shape; [propdown] applied to that mean returns a visible pre-activation
    and its sigmoid, both of the shape of the input: the mean-field
    reconstruction [propdown(propup(v)[1])[1]] of an image has the shape of
    the image. *)
Theorem mean_field_reconstruction v tv :
  eval env v = Some tv ->
  t_dims tv = plain (shape4_list (IS self)) ->
  exists e_pre_h e_mean_h e_pre_v e_mean_v pre_h mean_h pre_v mean_v,
    propup self v s = Ok ((e_pre_h, e_mean_h), s)
    /\ propdown self e_mean_h s = Ok ((e_pre_v, e_mean_v), s)
    /\ eval env e_pre_h = Some pre_h
    /\ eval env e_mean_h = Some mean_h
    /\ t_dims pre_h = plain [sh0 (IS self); sh0 (FS self);
                             sh2 (IS self) - sh2 (FS self) + 1;
                             sh3 (IS self) - sh3 (FS self) + 1]
    /\ t_dims mean_h = t_dims pre_h
    /\ (forall idx, t_at mean_h idx = rsigmoid F (t_at pre_h idx))
    /\ eval env e_pre_v = Some pre_v
    /\ eval env e_mean_v = Some mean_v
    /\ t_dims pre_v = t_dims tv
    /\ t_dims mean_v = t_dims tv
    /\ (forall idx, t_at mean_v idx = rsigmoid F (t_at pre_v idx))
    /\ (forall n c y x,
          t_at pre_v [n; c; y; x]
          = radd F
              (sumZ (sh0 (FS self)) (fun o =>
                 sumZ (sh2 (FS self)) (fun p =>
                   sumZ (sh3 (FS self)) (fun q =>
                     rmul F
                       (t_at tW [o; c; sh2 (FS self) - 1 - p;
                                 sh3 (FS self) - 1 - q])
                       (padded F mean_h
                          (sh2 (IS self) - sh2 (FS self) + 1)
                          (sh3 (IS self) - sh3 (FS self) + 1)
                          [n; o; y + 0 - p; x + 0 - q])))))
              (t_at tvb [c])).
Proof.
  intros Hv Hvd.
  pose proof (tensor_params_typed F env self tW thb tvb HW HWd Hhb Hhbd Hvb
                Hvbd s Htyped) as Hpt.
  pose proof (conj Hfh Hfw : filter_fits self) as Hfit.
  destruct (eval_conv_upward F env self tW thb Hinv HW HWd Hhb Hhbd Hfh Hfw
              v tv Hv Hvd) as (pre_h & Hup & Hupd & _).
  assert (eval env (Sigmoid (upward_graph self v))
          = Some (map_tensor F (rsigmoid F) pre_h)) as Hmean.
  { cbn [eval]. rewrite Hup. reflexivity. }
  destruct (eval_conv_downward F env self tW tvb Hinv HW HWd Hvb Hvbd Hfh Hfw
              (Sigmoid (upward_graph self v)) _ Hmean Hupd)
    as (pre_v & Hdown & Hdownd & Hdownv).
  exists (upward_graph self v), (Sigmoid (upward_graph self v)),
    (downward_graph self (Sigmoid (upward_graph self v))),
    (Sigmoid (downward_graph self (Sigmoid (upward_graph self v)))),
    pre_h, (map_tensor F (rsigmoid F) pre_h),
    pre_v, (map_tensor F (rsigmoid F) pre_v).
  split.
  { apply (propup_run self s Hinv Hfit Hpt v s (grows_refl s)).
    exact (tensor_ndim4 F env s Htyped v tv _ _ _ _ Hv Hvd). }
  split.
  { apply (propdown_run self s Hinv Hfit Hpt _ s (grows_refl s)).
    exact (tensor_ndim4 F env s Htyped _ _ _ _ _ _ Hmean Hupd). }
  split; [exact Hup|]. split; [exact Hmean|]. split; [exact Hupd|].
  split; [reflexivity|]. split; [reflexivity|]. split; [exact Hdown|].
  split; [cbn [eval]; rewrite Hdown; reflexivity|].
  split; [rewrite Hdownd, Hvd; reflexivity|].
  split; [cbn [map_tensor t_dims]; rewrite Hdownd, Hvd; reflexivity|].
  split; [reflexivity | exact Hdownv].
Qed.

End MeanField.

(** * Sums over a commutative semiring *)

Section Sums.

Variable F : arith.
Hypothesis L : semiring_laws F.

Lemma sumZ_lsum n (f : Z -> F) : sumZ n f = lsum (seq 0 (Z.to_nat n)) f.
Proof. reflexivity. Qed.

Lemma radd_0_l (a : F) : radd F zero a = a.
Proof. rewrite (law_add_comm F L). apply (law_add_0_r F L). Qed.

Lemma lsum_app l1 l2 (f : Z -> F) :
  lsum (l1 ++ l2) f = radd F (lsum l1 f) (lsum l2 f).
Proof.
  induction l1 as [|i l1 IH]; simpl.
  - symmetry. apply radd_0_l.
  - rewrite IH. apply (law_add_assoc F L).
Qed.

Lemma lsum_ext l (f g : Z -> F) :
  (forall i, i ∈ l -> f (Z.of_nat i) = g (Z.of_nat i)) ->
  lsum l f = lsum l g.
Proof.
  induction l as [|i l IH]; intros H; simpl; [reflexivity|].
  rewrite H by (apply elem_of_cons; auto).
  rewrite IH; [reflexivity|]. intros j Hj. apply H, elem_of_cons. auto.
Qed.

Lemma lsum_zero l (f : Z -> F) :
  (forall i, i ∈ l -> f (Z.of_nat i) = zero) -> lsum l f = zero.
Proof.
  induction l as [|i l IH]; intros H; simpl; [reflexivity|].
  rewrite H by (apply elem_of_cons; auto).
  rewrite IH; [apply radd_0_l|]. intros j Hj. apply H, elem_of_cons. auto.
Qed.

Lemma lsum_add l (f g : Z -> F) :
  lsum l (fun i => radd F (f i) (g i)) = radd F (lsum l f) (lsum l g).
Proof.
  induction l as [|i l IH]; simpl.
  - symmetry. apply radd_0_l.
  - rewrite IH.
    rewrite <- !(law_add_assoc F L). f_equal.
    rewrite !(law_add_assoc F L). f_equal. apply (law_add_comm F L).
Qed.

Lemma lsum_mul_l l a (f : Z -> F) :
  rmul F a (lsum l f) = lsum l (fun i => rmul F a (f i)).
Proof.
  induction l as [|i l IH]; simpl.
  - apply (law_mul_0_r F L).
  - rewrite (law_distr F L), IH. reflexivity.
Qed.

Lemma lsum_shift s m a (f : Z -> F) :
  lsum (seq (a + s) m) f = lsum (seq a m) (fun i => f (i + Z.of_nat s)).
Proof.
  revert a. induction m as [|m IH]; intros a; simpl; [reflexivity|].
  rewrite Nat2Z.inj_add. f_equal. apply (IH (S a)).
Qed.

Lemma sumZ_ext_in n (f g : Z -> F) :
  (forall i, 0 <= i < n -> f i = g i) -> sumZ n f = sumZ n g.
Proof.
  intros H. rewrite !sumZ_lsum. apply lsum_ext. intros i Hi.
  apply elem_of_seq in Hi. apply H. lia.
Qed.

Lemma sumZ_zero n (f : Z -> F) :
  (forall i, 0 <= i < n -> f i = zero) -> sumZ n f = zero.
Proof.
  intros H. rewrite sumZ_lsum. apply lsum_zero. intros i Hi.
  apply elem_of_seq in Hi. apply H. lia.
Qed.

Lemma sumZ_mul_l n a (f : Z -> F) :
  rmul F a (sumZ n f) = sumZ n (fun i => rmul F a (f i)).
Proof. rewrite !sumZ_lsum. apply lsum_mul_l. Qed.

Lemma sumZ_mul_r n a (f : Z -> F) :
  rmul F (sumZ n f) a = sumZ n (fun i => rmul F (f i) a).
Proof.
  rewrite (law_mul_comm F L), sumZ_mul_l. apply sumZ_ext. intros i.
  apply (law_mul_comm F L).
Qed.

Lemma lsum_sumZ_swap l m (f : Z -> Z -> F) :
  lsum l (fun i => sumZ m (fun j => f i j))
  = sumZ m (fun j => lsum l (fun i => f i j)).
Proof.
  induction l as [|i l IH].
  - symmetry. apply sumZ_zero. reflexivity.
  - change (radd F (sumZ m (fun j => f (Z.of_nat i) j))
                   (lsum l (fun i0 => sumZ m (fun j => f i0 j)))
            = sumZ m (fun j => radd F (f (Z.of_nat i) j)
                                      (lsum l (fun i0 => f i0 j)))).
    rewrite IH, !sumZ_lsum. symmetry. apply lsum_add.
Qed.

Lemma sumZ_swap n m (f : Z -> Z -> F) :
  sumZ n (fun i => sumZ m (fun j => f i j))
  = sumZ m (fun j => sumZ n (fun i => f i j)).
Proof. rewrite (sumZ_lsum n). apply lsum_sumZ_swap. Qed.

Lemma sumZ_if n (c : bool) (f : Z -> F) :
  sumZ n (fun i => if c then f i else zero)
  = if c then sumZ n f else zero.
Proof. destruct c; [reflexivity | apply sumZ_zero; reflexivity]. Qed.

(** Only the indices [s, ..., s + m - 1] contribute. *)
Lemma sumZ_shift n s m (f : Z -> F) :
  0 <= s -> 0 <= m -> s + m <= n ->
  (forall y, 0 <= y < n -> ~ (s <= y < s + m) -> f y = zero) ->
  sumZ n f = sumZ m (fun i => f (i + s)).
Proof.
  intros Hs Hm Hn Hz. rewrite !sumZ_lsum.
  replace (Z.to_nat n)
    with (Z.to_nat s + (Z.to_nat m + Z.to_nat (n - s - m)))%nat by lia.
  rewrite !seq_app, !lsum_app. simpl.
  rewrite (lsum_zero (seq 0 (Z.to_nat s))).
  2:{ intros i Hi. apply elem_of_seq in Hi. apply Hz; lia. }
  rewrite (lsum_zero (seq _ (Z.to_nat (n - s - m)))).
  2:{ intros i Hi. apply elem_of_seq in Hi. apply Hz; lia. }
  rewrite radd_0_l, (law_add_0_r F L).
  rewrite (lsum_shift (Z.to_nat s) (Z.to_nat m) 0).
  apply lsum_ext. intros i _. f_equal. lia.
Qed.

(** The sum does not depend on the direction in which the indices are
    visited. *)
Lemma sumZ_rev n (f : Z -> F) :
  sumZ n f = sumZ n (fun i => f (n - 1 - i)).
Proof.
  rewrite !sumZ_lsum.
  destruct (Z_le_gt_dec n 0) as [Hn|Hn].
  { replace (Z.to_nat n) with 0%nat by lia. reflexivity. }
  assert (forall k : nat, (k <= Z.to_nat n)%nat ->
            lsum (seq (Z.to_nat n - k) k) f
            = lsum (seq 0 k) (fun i => f (n - 1 - i))) as H.
  { induction k as [|k IH]; intros Hk; [reflexivity|].
    assert (seq (Z.to_nat n - S k) (S k)
            = (Z.to_nat n - S k)%nat :: seq (Z.to_nat n - k) k) as ->.
    { simpl. do 2 f_equal. lia. }
    rewrite (seq_S k 0), lsum_app.
    change (radd F (f (Z.of_nat (Z.to_nat n - S k)))
                   (lsum (seq (Z.to_nat n - k) k) f)
            = radd F (lsum (seq 0 k) (fun i => f (n - 1 - i)))
                     (radd F (f (n - 1 - Z.of_nat (0 + k))) zero)).
    rewrite IH by lia.
    rewrite (law_add_0_r F L), (law_add_comm F L). do 2 f_equal. lia. }
  specialize (H (Z.to_nat n) (le_n _)).
  rewrite Nat.sub_diag in H. exact H.
Qed.

End Sums.

(** * Downward propagation is the transpose of upward propagation *)

Section Adjoint.

Variable F : arith.
Hypothesis L : semiring_laws F.

(** Re-indexing a one-dimensional valid convolution by the position in the
    image instead of the position in the output. *)
Lemma conv_reindex (H fh : Z) (T : Z -> Z -> Z -> F) :
  0 < fh <= H ->
  sumZ (H - fh + 1) (fun i => sumZ fh (fun p => T p (i + (fh - 1) - p) i))
  = sumZ H (fun y => sumZ fh (fun p =>
      if decide (0 <= y - p < H - fh + 1)
      then T (fh - 1 - p) y (y - p) else zero)).
Proof.
  intros Hf. symmetry.
  rewrite (sumZ_swap F L H fh), (sumZ_rev F L fh).
  rewrite (sumZ_swap F L (H - fh + 1) fh).
  apply sumZ_ext_in. intros p Hp.
  rewrite (sumZ_shift F L H (fh - 1 - p) (H - fh + 1)); [|lia|lia|lia|].
  - apply sumZ_ext_in. intros i Hi.
    rewrite decide_True by lia. f_equal; lia.
  - intros y Hy Hny. rewrite decide_False by lia. reflexivity.
Qed.

Lemma conv2_reindex (H W fh fw : Z) (T : Z -> Z -> Z -> Z -> Z -> Z -> F) :
  0 < fh <= H ->
  0 < fw <= W ->
  sumZ (H - fh + 1) (fun i => sumZ (W - fw + 1) (fun j =>
    sumZ fh (fun p => sumZ fw (fun q =>
      T p q (i + (fh - 1) - p) (j + (fw - 1) - q) i j))))
  = sumZ H (fun y => sumZ W (fun x =>
      sumZ fh (fun p => sumZ fw (fun q =>
        if decide (0 <= y - p < H - fh + 1 /\ 0 <= x - q < W - fw + 1)
        then T (fh - 1 - p) (fw - 1 - q) y x (y - p) (x - q)
        else zero)))).
Proof.
  intros Hfh Hfw.
  transitivity
    (sumZ (H - fh + 1) (fun i => sumZ fh (fun p =>
       sumZ (W - fw + 1) (fun j => sumZ fw (fun q =>
         T p q (i + (fh - 1) - p) (j + (fw - 1) - q) i j))))).
  { apply sumZ_ext. intros i. apply (sumZ_swap F L). }
  rewrite (conv_reindex H fh
             (fun p y i => sumZ (W - fw + 1) (fun j => sumZ fw (fun q =>
                T p q y (j + (fw - 1) - q) i j)))) by exact Hfh.
  apply sumZ_ext. intros y.
  rewrite <- (sumZ_swap F L fh W). apply sumZ_ext. intros p.
  destruct (decide (0 <= y - p < H - fh + 1)) as [Hy|Hy].
  - rewrite (conv_reindex W fw
               (fun q x j => T (fh - 1 - p) q y x (y - p) j)) by exact Hfw.
    apply sumZ_ext. intros x. apply sumZ_ext. intros q.
    destruct (decide (0 <= x - q < W - fw + 1)) as [Hx|Hx].
    + rewrite decide_True by tauto. reflexivity.
    + rewrite decide_False by tauto. reflexivity.
  - symmetry. apply (sumZ_zero F L). intros x _.
    apply (sumZ_zero F L). intros q _.
    rewrite decide_False by tauto. reflexivity.
Qed.

Variable env : gmap positive (tensor F).
Variable self : CRBM.
Variables tW thb tvb : tensor F.

Hypothesis Hinv : crbm_inv self.
Hypothesis HW : env !! W self = Some tW.
Hypothesis HWd : t_dims tW = plain (shape4_list (FS self)).
Hypothesis Hhb : env !! hbias self = Some thb.
Hypothesis Hhbd : t_dims thb = plain [sh0 (FS self)].
Hypothesis Hvb : env !! vbias self = Some tvb.
Hypothesis Hvbd : t_dims tvb = plain [sh1 (FS self)].
Hypothesis Hfh : 0 < sh2 (FS self) <= sh2 (IS self).
Hypothesis Hfw : 0 < sh3 (FS self) <= sh3 (IS self).
Hypothesis Hhb0 : forall o, t_at thb [o] = zero.
Hypothesis Hvb0 : forall c, t_at tvb [c] = zero.

Variable s : gmap positive vobj.
Hypothesis Htyped : typed s env.

(** X8.  With zero biases (the initial values that the constructor gives them),
    [conv_downward] is the transpose of [conv_upward]: for every visible
    tensor [v] of the image shape and every hidden tensor [h] of the hidden
    shape, the inner product of [conv_upward(v)] with [h] is the inner
    product of [v] with [conv_downward(h)].  The swap of the first two axes
    of [W], the reversal of its last two axes, the shapes [FSinv] and [ISinv]
    and the border mode [full] are what makes this hold. *)
Theorem conv_downward_is_transpose v tv h th :
  eval env v = Some tv ->
  t_dims tv = plain (shape4_list (IS self)) ->
  eval env h = Some th ->
  t_dims th = plain [sh0 (IS self); sh0 (FS self);
                     sh2 (IS self) - sh2 (FS self) + 1;
                     sh3 (IS self) - sh3 (FS self) + 1] ->
  exists e_up e_down up down,
    conv_upward self v s = Ok (e_up, s)
    /\ conv_downward self h s = Ok (e_down, s)
    /\ eval env e_up = Some up
    /\ eval env e_down = Some down
    /\ inner4 (sh0 (IS self)) (sh0 (FS self))
          (sh2 (IS self) - sh2 (FS self) + 1)
          (sh3 (IS self) - sh3 (FS self) + 1) up th
       = inner4 (sh0 (IS self)) (sh1 (IS self)) (sh2 (IS self))
           (sh3 (IS self)) tv down.
Proof.
  intros Hv Hvd Hh Hhd.
  destruct (eval_conv_upward F env self tW thb Hinv HW HWd Hhb Hhbd Hfh Hfw
              v tv Hv Hvd) as (up & Hup & _ & Hupv).
  destruct (eval_conv_downward F env self tW tvb Hinv HW HWd Hvb Hvbd Hfh Hfw
              h th Hh Hhd) as (down & Hdown & _ & Hdownv).
  pose proof (tensor_params_typed F env self tW thb tvb HW HWd Hhb Hhbd Hvb
                Hvbd s Htyped) as Hpt.
  pose proof (conj Hfh Hfw : filter_fits self) as Hfit.
  exists (upward_graph self v), (downward_graph self h), up, down.
  split.
  { apply (conv_upward_run self s Hinv Hfit Hpt v s (grows_refl s)).
    exact (tensor_ndim4 F env s Htyped v tv _ _ _ _ Hv Hvd). }
  split.
  { apply (conv_downward_run self s Hinv Hfit Hpt h s (grows_refl s)).
    exact (tensor_ndim4 F env s Htyped h th _ _ _ _ Hh Hhd). }
  split; [exact Hup|]. split; [exact Hdown|].
  unfold inner4. apply sumZ_ext. intros n.
  set (T := fun o c p q y x i j =>
              rmul F (rmul F (t_at tW [o; c; p; q]) (t_at tv [n; c; y; x]))
                     (t_at th [n; o; i; j])).
  transitivity
    (sumZ (sh0 (FS self)) (fun o => sumZ (sh1 (IS self)) (fun c =>
       sumZ (sh2 (IS self) - sh2 (FS self) + 1) (fun i =>
         sumZ (sh3 (IS self) - sh3 (FS self) + 1) (fun j =>
           sumZ (sh2 (FS self)) (fun p => sumZ (sh3 (FS self)) (fun q =>
             T o c p q (i + (sh2 (FS self) - 1) - p)
               (j + (sh3 (FS self) - 1) - q) i j))))))).
  { apply sumZ_ext. intros o.
    transitivity
      (sumZ (sh2 (IS self) - sh2 (FS self) + 1) (fun i =>
         sumZ (sh3 (IS self) - sh3 (FS self) + 1) (fun j =>
           sumZ (sh1 (IS self)) (fun c =>
             sumZ (sh2 (FS self)) (fun p => sumZ (sh3 (FS self)) (fun q =>
               T o c p q (i + (sh2 (FS self) - 1) - p)
                 (j + (sh3 (FS self) - 1) - q) i j)))))).
    { apply (sumZ_ext_in F). intros i Hi. apply (sumZ_ext_in F). intros j Hj.
      rewrite Hupv, Hhb0, (law_add_0_r F L), (sumZ_mul_r F L).
      apply (sumZ_ext_in F). intros c Hc. rewrite (sumZ_mul_r F L).
      apply (sumZ_ext_in F). intros p Hp. rewrite (sumZ_mul_r F L).
      apply (sumZ_ext_in F). intros q Hq.
      unfold padded. rewrite decide_True by lia. reflexivity. }
    transitivity
      (sumZ (sh2 (IS self) - sh2 (FS self) + 1) (fun i =>
         sumZ (sh1 (IS self)) (fun c =>
           sumZ (sh3 (IS self) - sh3 (FS self) + 1) (fun j =>
             sumZ (sh2 (FS self)) (fun p => sumZ (sh3 (FS self)) (fun q =>
               T o c p q (i + (sh2 (FS self) - 1) - p)
                 (j + (sh3 (FS self) - 1) - q) i j)))))).
    { apply sumZ_ext. intros i. apply (sumZ_swap F L). }
    apply (sumZ_swap F L). }
  transitivity
    (sumZ (sh0 (FS self)) (fun o => sumZ (sh1 (IS self)) (fun c =>
       sumZ (sh2 (IS self)) (fun y => sumZ (sh3 (IS self)) (fun x =>
         sumZ (sh2 (FS self)) (fun p => sumZ (sh3 (FS self)) (fun q =>
           if decide (0 <= y - p < sh2 (IS self) - sh2 (FS self) + 1
                      /\ 0 <= x - q < sh3 (IS self) - sh3 (FS self) + 1)
           then T o c (sh2 (FS self) - 1 - p) (sh3 (FS self) - 1 - q)
                  y x (y - p) (x - q)
           else zero))))))).
  { apply sumZ_ext. intros o. apply sumZ_ext. intros c.
    apply (conv2_reindex (sh2 (IS self)) (sh3 (IS self)) (sh2 (FS self))
             (sh3 (FS self)) (T o c) Hfh Hfw). }
  rewrite (sumZ_swap F L (sh0 (FS self)) (sh1 (IS self))).
  apply sumZ_ext. intros c. symmetry.
  transitivity
    (sumZ (sh2 (IS self)) (fun y => sumZ (sh3 (IS self)) (fun x =>
       sumZ (sh0 (FS self)) (fun o =>
         sumZ (sh2 (FS self)) (fun p => sumZ (sh3 (FS self)) (fun q =>
           if decide (0 <= y - p < sh2 (IS self) - sh2 (FS self) + 1
                      /\ 0 <= x - q < sh3 (IS self) - sh3 (FS self) + 1)
           then T o c (sh2 (FS self) - 1 - p) (sh3 (FS self) - 1 - q)
                  y x (y - p) (x - q)
           else zero)))))).
  { apply sumZ_ext. intros y. apply sumZ_ext. intros x.
    rewrite Hdownv, Hvb0, (law_add_0_r F L), (sumZ_mul_l F L).
    apply sumZ_ext. intros o. rewrite (sumZ_mul_l F L).
    apply sumZ_ext. intros p. rewrite (sumZ_mul_l F L).
    apply sumZ_ext. intros q. unfold padded.
    replace (y + 0 - p) with (y - p) by lia.
    replace (x + 0 - q) with (x - q) by lia.
    case_decide.
    - unfold T. rewrite (law_mul_assoc F L). f_equal.
      apply (law_mul_comm F L).
    - rewrite !(law_mul_0_r F L). reflexivity. }
  transitivity
    (sumZ (sh2 (IS self)) (fun y => sumZ (sh0 (FS self)) (fun o =>
       sumZ (sh3 (IS self)) (fun x =>
         sumZ (sh2 (FS self)) (fun p => sumZ (sh3 (FS self)) (fun q =>
           if decide (0 <= y - p < sh2 (IS self) - sh2 (FS self) + 1
                      /\ 0 <= x - q < sh3 (IS self) - sh3 (FS self) + 1)
           then T o c (sh2 (FS self) - 1 - p) (sh3 (FS self) - 1 - q)
                  y x (y - p) (x - q)
           else zero)))))).
  { apply sumZ_ext. intros y. apply (sumZ_swap F L). }
  apply (sumZ_swap F L).
Qed.

End Adjoint.

(** * The further properties on the small model *)

Lemma init_standalone_witness :
  exists self s' i,
    __init__ None ex_FS ex_IS None None None (Some ex_numpy_rng) (Some ex_rng)
      ex_store = Ok (self, s')
    /\ input self = Var i
    /\ NoDup [i; W self; hbias self; vbias self]
    /\ dom s' = {[i; W self; hbias self; vbias self]} ∪ dom ex_store.
Proof.
  destruct (init_standalone ex_FS ex_IS ex_numpy_rng
              (mk_ndarray floatX [2; 1; 2; 2] (replicate 8 (NpDec 0 0)))
              (Some ex_rng) ex_store eq_refl
              ltac:(vm_compute; discriminate) ltac:(vm_compute; discriminate)
              eq_refl)
    as (self & s' & i & Hrun & Hi & Hnd & _ & Hdom & _).
  exists self, s', i. split; [exact Hrun|]. split; [exact Hi|].
  split; [exact Hnd | exact Hdom].
Defined.


Lemma cd_updates_domain_witness :
  exists monitoring_cost u s',
    get_cost_updates ex_crbm default_lr 1 None ex_store
    = Ok ((monitoring_cost, u), s')
    /\ dom u = {[2; 3; 4]}%positive ∪ ∅
    /\ base.size u = 3%nat.
Proof.
  destruct (cd_updates_domain ex_crbm ex_rng default_lr 1 ex_store eq_refl
              ex_crbm_inv ex_filter_fits ex_well_typed)
    as (mc & u & s' & st0 & st_v & st_h & Hrun & _ & _ & Hdom & _ & _
        & Hsize).
  exists mc, u, s'. split; [exact Hrun|]. split; [exact Hdom|].
  apply Hsize.
  repeat constructor; rewrite ?not_elem_of_cons; repeat split;
    try apply not_elem_of_nil; discriminate.
Defined.

Lemma gibbs_vhv_steps_witness :
  exists (st_h st_v : positive) h1 v1 s2,
    gibbs_vhv ex_crbm (Var 1) ex_store
    = Ok ([upward_graph ex_crbm (Var 1);
           Sigmoid (upward_graph ex_crbm (Var 1)); h1;
           downward_graph ex_crbm h1;
           Sigmoid (downward_graph ex_crbm h1); v1], s2)
    /\ st_h <> st_v
    /\ ndim_of s2 v1 = Some 4%nat.
Proof.
  destruct (gibbs_vhv_steps ex_crbm ex_rng (Var 1) ex_store eq_refl
              ex_crbm_inv ex_filter_fits (proj2 ex_well_typed) eq_refl)
    as (st_h & st_v & h1 & v1 & s2 & Hrun & _ & _ & _ & _ & Hne & _ & _ & _
        & _ & _ & _ & Hv1 & _).
  exists st_h, st_v, h1, v1, s2.
  split; [exact Hrun|]. split; [exact Hne | exact Hv1].
Defined.

Lemma sampling_needs_rng_witness :
  gibbs_hvh ex_crbm_no_rng (Var 5) ex_store = Raise AttributeError.
Proof.
  destruct (sampling_needs_rng (Some (Var 1)) ex_FS ex_IS (Some 2%positive)
              (Some 3%positive) (Some 4%positive) None ex_store
              ex_crbm_no_rng ex_store eq_refl (Var 5) ex_store)
    as (_ & _ & _ & _ & _ & Hattr & _).
  apply (Hattr ex_filter_fits (proj2 ex_well_typed) eq_refl).
Defined.

Lemma mean_field_reconstruction_witness :
  exists e_pre_h e_mean_h e_pre_v e_mean_v mean_v,
    propup ex_crbm (Var 1) ex_store = Ok ((e_pre_h, e_mean_h), ex_store)
    /\ propdown ex_crbm e_mean_h ex_store = Ok ((e_pre_v, e_mean_v), ex_store)
    /\ eval ex_env e_mean_v = Some mean_v
    /\ t_dims mean_v = t_dims ex_v.
Proof.
  destruct (mean_field_reconstruction Zarith ex_env ex_crbm ex_W ex_hbias
              ex_vbias ex_crbm_inv eq_refl eq_refl eq_refl eq_refl eq_refl
              eq_refl
              ltac:(vm_compute; split; [reflexivity | discriminate])
              ltac:(vm_compute; split; [reflexivity | discriminate])
              ex_store ex_typed (Var 1) ex_v eq_refl eq_refl)
    as (e1 & e2 & e3 & e4 & pre_h & mean_h & pre_v & mean_v & Hr1 & Hr2 & _
        & _ & _ & _ & _ & _ & Hm & _ & Hd & _).
  exists e1, e2, e3, e4, mean_v.
  split; [exact Hr1|]. split; [exact Hr2|]. split; [exact Hm | exact Hd].
Defined.

Lemma conv_downward_is_transpose_witness :
  exists e_up e_down up down,
    conv_upward ex_crbm (Var 1) ex_store = Ok (e_up, ex_store)
    /\ conv_downward ex_crbm (Var 5) ex_store = Ok (e_down, ex_store)
    /\ eval ex_env0 e_up = Some up
    /\ eval ex_env0 e_down = Some down
    /\ inner4 1 2 2 2 up ex_h = inner4 1 1 3 3 ex_v down.
Proof.
  exact (conv_downward_is_transpose Zarith Zarith_semiring ex_env0 ex_crbm
           ex_W ex_zero_hbias ex_zero_vbias ex_crbm_inv eq_refl eq_refl
           eq_refl eq_refl eq_refl eq_refl
           ltac:(vm_compute; split; [reflexivity | discriminate])
           ltac:(vm_compute; split; [reflexivity | discriminate])
           (fun _ => eq_refl) (fun _ => eq_refl) ex_store ex_typed0
           (Var 1) ex_v (Var 5) ex_h eq_refl eq_refl eq_refl eq_refl).
Defined.

Lemma cd_chain_recurrences_witness :
  exists l s' pvs hss,
    cd_graph ex_crbm default_lr 3 (Some 5%positive) ex_store = Ok (l, s')
    /\ steps_of (pre_sigmoid_nvs l) = Some pvs
    /\ steps_of (nh_samples l) = Some hss
    /\ length hss = 3%nat
    /\ (forall x, pvs !! 0%nat = Some x ->
          x = downward_graph ex_crbm (chain_start l)).
Proof.
  destruct (cd_chain_recurrences ex_crbm ex_rng default_lr 3
              (Some 5%positive) ex_store eq_refl ex_crbm_inv ex_filter_fits
              ex_well_typed ex_chain_typed)
    as (l & s' & st_v & st_h & pvs & vms & vss & phs & hms & hss & Hrun & _
        & Hp & _ & _ & _ & _ & Hh & Hlen & H0 & _).
  exists l, s', pvs, hss. split; [exact Hrun|]. split; [exact Hp|].
  split; [exact Hh|]. split; [|exact H0].
  rewrite Forall_forall in Hlen. apply Hlen.
  rewrite !elem_of_cons. auto 10.
Defined.

Lemma standalone_input_TypeError_witness :
  exists self s',
    __init__ None ex_FS ex_IS (Some 2%positive) (Some 3%positive)
      (Some 4%positive) None (Some ex_rng) ex_store = Ok (self, s')
    /\ get_cost_updates self default_lr 1 None s' = Raise TypeError.
Proof.
  eexists _, _. split; [vm_compute; reflexivity|].
  destruct (standalone_input_TypeError ex_FS ex_IS (Some 2%positive)
              (Some 3%positive) (Some 4%positive) None (Some ex_rng)
              ex_store _ _ eq_refl eq_refl eq_refl _ (grows_refl _))
    as (_ & _ & _ & _ & _ & _ & _ & Hcu).
  apply Hcu.
Defined.
